(** * ai-image-engine: a shallow embedding of the service layer

    The development follows [services/aiService.ts],
    [services/wordpressService.ts] and the crawl of [App.tsx].

    - JavaScript strings are sequences of code units; they are represented
      by [string], one [ascii] per code unit, so only code units below 256
      are representable.  Numbers that hold indices, counts, delays and
      identifiers are represented by [Z].
    - Asynchronous functions are computations in a monad of state and
      exceptions over a world: the state of everything outside the program
      and the trace of the effects so far (requests sent, delays slept).
    - What the browser and the vendors provide (network, SDK, HTML parser,
      JSON parser) is a type class, [Platform]; every statement holds for
      every instance of it.

    The definitions come first, then the test doubles used by the examples,
    then the properties. *)

From Stdlib Require Import ZArith Lia Bool List Ascii String.
From Stdlib Require Import Sorting.Sorted Sorting.Permutation.
From Stdlib Require DecimalString.

Set Warnings "-register-all".
Import ListNotations.

Open Scope string_scope.
Open Scope Z_scope.

(* ===================================================================== *)
(** * JavaScript strings *)
(* ===================================================================== *)

Module JsString.

(** [WhiteSpace] and [LineTerminator] code units below 256: TAB, LF, VT, FF,
    CR, SPACE and NBSP.  The same set is used by [String.prototype.trim] and
    by the regular-expression class [\s]. *)
Definition isWhiteSpace (c : ascii) : bool :=
  let n := nat_of_ascii c in
  ((9 <=? n) && (n <=? 13) || (n =? 32) || (n =? 160))%nat.

Definition isDigit (c : ascii) : bool :=
  let n := nat_of_ascii c in ((48 <=? n) && (n <=? 57))%nat.

Fixpoint drop (n : nat) (s : string) : string :=
  match n, s with
  | O, _ => s
  | S n', String _ s' => drop n' s'
  | S _, EmptyString => EmptyString
  end.

Fixpoint take (n : nat) (s : string) : string :=
  match n, s with
  | O, _ => EmptyString
  | S n', String c s' => String c (take n' s')
  | S _, EmptyString => EmptyString
  end.

Definition startsWith (s needle : string) : bool := prefix needle s.

(** [s.indexOf(needle)]: the least index at which [needle] occurs, or -1. *)
Fixpoint indexOf_from (needle s : string) (i : Z) : Z :=
  match s with
  | EmptyString => if startsWith s needle then i else -1
  | String _ s' => if startsWith s needle then i else indexOf_from needle s' (i + 1)
  end.

Definition indexOf (s needle : string) : Z := indexOf_from needle s 0.

(** [s.lastIndexOf(needle)]: the greatest such index, or -1. *)
Fixpoint lastIndexOf_from (needle s : string) (i : Z) : Z :=
  match s with
  | EmptyString => if startsWith s needle then i else -1
  | String _ s' =>
      let r := lastIndexOf_from needle s' (i + 1) in
      if r =? -1 then (if startsWith s needle then i else -1) else r
  end.

Definition lastIndexOf (s needle : string) : Z := lastIndexOf_from needle s 0.

Definition includes (s needle : string) : bool := negb (indexOf s needle =? -1).

(** [s.substring(a, b)]: both ends are clamped to [0, length] and swapped
    when [a > b]. *)
Definition clamp (s : string) (i : Z) : Z :=
  Z.max 0 (Z.min i (Z.of_nat (length s))).

Definition substring (s : string) (a b : Z) : string :=
  let a' := clamp s a in
  let b' := clamp s b in
  let lo := Z.min a' b' in
  let hi := Z.max a' b' in
  take (Z.to_nat (hi - lo)) (drop (Z.to_nat lo) s).

Fixpoint trimStart (s : string) : string :=
  match s with
  | EmptyString => EmptyString
  | String c s' => if isWhiteSpace c then trimStart s' else s
  end.

Fixpoint trimEnd (s : string) : string :=
  match s with
  | EmptyString => EmptyString
  | String c s' =>
      match trimEnd s' with
      | EmptyString => if isWhiteSpace c then EmptyString else String c EmptyString
      | r => String c r
      end
  end.

Definition trim (s : string) : string := trimEnd (trimStart s).

(** JavaScript truthiness of a string: only the empty string is falsy. *)
Definition truthy (s : string) : bool :=
  match s with EmptyString => false | _ => true end.

(** [c] does not occur in [s]. *)
Fixpoint noChar (c : ascii) (s : string) : bool :=
  match s with
  | EmptyString => true
  | String x s' => negb (Ascii.eqb x c) && noChar c s'
  end.


End JsString.

Import JsString.

(* ===================================================================== *)
(** * [extractJson] *)
(* ===================================================================== *)

Module Regex.

(** A backtracking matcher for the one pattern of the source,
    [/```(?:json)?\s*([\s\S]*?)\s*```/].  Every piece returns the list of
    its possible matches in the order a backtracking engine tries them; a
    sequence is their [flat_map], and the engine's answer is the head. *)

Definition fence : string := "```".

(** A literal. *)
Definition lit (l s : string) : list string :=
  if startsWith s l then [drop (length l) s] else [].

(** [(?:json)?], greedy: with the word first, then without. *)
Definition opt_json (s : string) : list string :=
  lit "json" s ++ [s].

(** [\s*], greedy: the longest run first. *)
Fixpoint ws_star (s : string) : list string :=
  match s with
  | EmptyString => [s]
  | String c s' => if isWhiteSpace c then ws_star s' ++ [s] else [s]
  end.

(** [([\s\S]*?)], lazy: the shortest capture first; each alternative is the
    captured text with the rest of the input. *)
Fixpoint lazy_any (s : string) : list (string * string) :=
  (EmptyString, s) ::
  match s with
  | EmptyString => []
  | String c s' => map (fun cr => (String c (fst cr), snd cr)) (lazy_any s')
  end.

(** All matches of the pattern anchored at the head of [s]; each is the text
    of capture group 1. *)
Definition match_here (s : string) : list string :=
  flat_map (fun r0 =>
  flat_map (fun r1 =>
  flat_map (fun r2 =>
  flat_map (fun cr =>
  flat_map (fun r4 =>
  flat_map (fun _ => [fst cr])
    (lit fence r4))
    (ws_star (snd cr)))
    (lazy_any r2))
    (ws_star r1))
    (opt_json r0))
    (lit fence s).

(** [text.match(re)] without the [g] flag: the leftmost start position that
    has a match, and there the first match in backtracking order.  The
    result is capture group 1, or [None] when [match] returns [null]. *)
Fixpoint exec (s : string) : option string :=
  match hd_error (match_here s) with
  | Some cap => Some cap
  | None =>
      match s with
      | EmptyString => None
      | String _ s' => exec s'
      end
  end.

(** The first alternative that the matcher finds, computed directly: the
    tag and the white space are taken greedily, the capture is the shortest
    text that is followed by white space and a fence. *)
Fixpoint lazyScan (s : string) : option string :=
  if startsWith (trimStart s) fence then Some EmptyString
  else
    match s with
    | EmptyString => None
    | String c s' => option_map (String c) (lazyScan s')
    end.

Definition skipJson (s : string) : string :=
  if startsWith s "json" then drop 4 s else s.

Definition firstMatchHere (s : string) : option string :=
  if startsWith s fence then lazyScan (trimStart (skipJson (drop 3 s)))
  else None.

(** The alternatives of the closing part of the pattern, white space and a
    fence, for a capture [c] and the input [r] that follows it. *)
Definition closing (c r : string) : list string :=
  flat_map (fun r4 => flat_map (fun _ => [c]) (lit fence r4)) (ws_star r).

End Regex.

(** The second half of [extractJson]: from the first opening brace or
    bracket to the last closing one. *)
Definition extractJson_span (text : string) : option string :=
  let firstBracket := indexOf text "{" in
  let firstSquare := indexOf text "[" in
  let startIndex :=
    if firstBracket =? -1 then firstSquare
    else if firstSquare =? -1 then firstBracket
    else Z.min firstBracket firstSquare in
  if startIndex =? -1 then None
  else
    let lastBracket := lastIndexOf text "}" in
    let lastSquare := lastIndexOf text "]" in
    let endIndex := Z.max lastBracket lastSquare in
    if (endIndex =? -1) || (endIndex <? startIndex) then None
    else Some (trim (substring text startIndex (endIndex + 1))).

(** [extractJson]; [None] is the source's [null]. *)
Definition extractJson (text : string) : option string :=
  let codeBlockMatch := Regex.exec text in
  match codeBlockMatch with
  | Some cap1 =>
      if truthy cap1 then Some (trim cap1) else extractJson_span text
  | None => extractJson_span text
  end.

(** The two indices that [extractJson] computes. *)
Definition startIndexOf (text : string) : Z :=
  let firstBracket := indexOf text "{" in
  let firstSquare := indexOf text "[" in
  if firstBracket =? -1 then firstSquare
  else if firstSquare =? -1 then firstBracket
  else Z.min firstBracket firstSquare.

Definition endIndexOf (text : string) : Z :=
  Z.max (lastIndexOf text "}") (lastIndexOf text "]").

(** ** The policy of [extractJson], stated without the matcher

    These definitions say what the code takes for a fenced block and for
    the span of the braces; they follow the regular expression and the
    index arithmetic of the source.  What the specification says in their
    place is in [JsonClaim] below. *)

Module JsonPolicy.

(** [needle] occurs in [s] at index [i]. *)
Definition occursAt (needle s : string) (i : nat) : Prop :=
  startsWith (drop i s) needle = true.

Fixpoint allWhite (s : string) : bool :=
  match s with
  | EmptyString => true
  | String c s' => isWhiteSpace c && allWhite s'
  end.

(** The first code unit of [s], if any, is not white space. *)
Definition noLeadingWhite (s : string) : Prop := trimStart s = s.

(** The last code unit of [s], if any, is not white space. *)
Definition noTrailingWhite (s : string) : Prop := trimEnd s = s.

(** [body] is what the regular expression of the source captures in
    [text]: the text reads [pre], an opening fence that is the first fence
    of the text, an optional [json] tag, white space, [body], white space
    and the first fence that follows.  The only tag is [json], in lower
    case: any other tag after the fence is the beginning of [body]. *)
Inductive FencedBlock (text body : string) : Prop :=
| fencedBlock (pre lang ws1 ws2 post : string) :
    text = pre ++ Regex.fence ++ lang ++ ws1 ++ body ++ ws2 ++
           Regex.fence ++ post ->
    (forall i, (i < length pre)%nat -> ~ occursAt Regex.fence text i) ->
    (lang = "json" \/
     lang = EmptyString /\
     startsWith (ws1 ++ body ++ ws2 ++ Regex.fence ++ post) "json" = false) ->
    allWhite ws1 = true ->
    allWhite ws2 = true ->
    noLeadingWhite body ->
    noTrailingWhite body ->
    (forall i, (i < length body)%nat ->
               ~ occursAt Regex.fence (body ++ ws2 ++ Regex.fence ++ post) i) ->
    FencedBlock text body.

Definition isOpening (c : ascii) : bool :=
  Ascii.eqb c "{" || Ascii.eqb c "[".

Definition isClosing (c : ascii) : bool :=
  Ascii.eqb c "}" || Ascii.eqb c "]".

(** [i] is the index of the first opening brace or bracket of [text]. *)
Definition FirstOpening (text : string) (i : nat) : Prop :=
  (exists c, get i text = Some c /\ isOpening c = true) /\
  forall k c, (k < i)%nat -> get k text = Some c -> isOpening c = false.

(** [j] is the index of the last closing brace or bracket of [text], of
    either kind: the greater of the two [lastIndexOf], whatever the opening
    character was. *)
Definition LastClosing (text : string) (j : nat) : Prop :=
  (exists c, get j text = Some c /\ isClosing c = true) /\
  forall k c, (j < k)%nat -> get k text = Some c -> isClosing c = false.

(** [text] has no fenced block with a body. *)
Definition NoFencedBody (text : string) : Prop :=
  forall body, FencedBlock text body -> body = EmptyString.

End JsonPolicy.

(* ===================================================================== *)
(** * Exceptions and effects *)
(* ===================================================================== *)

Module Js.

(** Values that the code throws and catches.  [FetchError] is the class of
    the source; [NonError] stands for a thrown value that is not an instance
    of [Error], given by its [JSON.stringify] text. *)
Inductive exn : Type :=
| Error (message : string)
| FetchError (message : string) (status : Z)
| SyntaxError (message : string)
| TypeError (message : string)
| DOMException (name message : string)
| NonError (json : string).

(** [error instanceof Error ? error.message : JSON.stringify(error)] *)
Definition errorMessage (error : exn) : string :=
  match error with
  | Error m | FetchError m _ | SyntaxError m | TypeError m
  | DOMException _ m => m
  | NonError j => j
  end.

Definition isSyntaxError (error : exn) : bool :=
  match error with SyntaxError _ => true | _ => false end.

(** Decimal text of an integer, as a template literal prints it. *)
Definition showZ (z : Z) : string :=
  DecimalString.NilZero.string_of_int (Z.to_int z).

End Js.

Import Js.

(** Observable effects, in the order they happen. *)
Inductive Event : Type :=
| EvInvoke                                  (* a wrapped operation was started *)
| EvDelay (ms : Z)                          (* [delay(ms)] slept *)
| EvRequest (endpoint : string) (body : string)   (* a network request was sent *)
| EvProgress (processed total : Z).         (* [onProgress] was called *)

Section Effects.

(** The state of everything outside the program: the network, the vendors'
    servers, the WordPress site. *)
Context {S : Type}.

Record World : Type := mkWorld {
  ext : S;
  trace : list Event
}.

(** A computation either throws or returns, and leaves a new world. *)
Definition M (A : Type) : Type := World -> (exn + A) * World.

Definition ret {A} (a : A) : M A := fun w => (inr a, w).

Definition throw {A} (e : exn) : M A := fun w => (inl e, w).

Definition bind {A B} (m : M A) (k : A -> M B) : M B :=
  fun w =>
    match m w with
    | (inr a, w') => k a w'
    | (inl e, w') => (inl e, w')
    end.

Definition try_catch {A} (m : M A) (handler : exn -> M A) : M A :=
  fun w =>
    match m w with
    | (inr a, w') => (inr a, w')
    | (inl e, w') => handler e w'
    end.

Definition emit (ev : Event) : M unit :=
  fun w => (inr tt, mkWorld (ext w) (trace w ++ [ev])).

(** An operation of the outside world, run on the external state. *)
Definition external {A} (op : S -> (exn + A) * S) : M A :=
  fun w =>
    let '(r, s') := op (ext w) in (r, mkWorld s' (trace w)).

(** [delay(ms)]: the mock clock records the sleep. *)
Definition delay (ms : Z) : M unit := emit (EvDelay ms).

(** A wrapped operation whose every start is recorded. *)
Definition invoke {A} (op : S -> (exn + A) * S) : M A :=
  bind (emit EvInvoke) (fun _ => external op).

End Effects.

Arguments World : clear implicits.
Arguments M : clear implicits.

Declare Scope js_scope.
Delimit Scope js_scope with js.
Notation "x <- m ;; k" := (bind m (fun x => k))
  (at level 61, m at next level, right associativity) : js_scope.
Notation "m ;;; k" := (bind m (fun _ => k))
  (at level 61, right associativity) : js_scope.

(** Measurements on a trace. *)
Fixpoint attempts (t : list Event) : nat :=
  match t with
  | [] => O
  | EvInvoke :: t' => Datatypes.S (attempts t')
  | _ :: t' => attempts t'
  end.

Fixpoint slept (t : list Event) : Z :=
  match t with
  | [] => 0
  | EvDelay ms :: t' => ms + slept t'
  | _ :: t' => slept t'
  end.

(* ===================================================================== *)
(** * [retryableAIOperation] *)
(* ===================================================================== *)

Section Retry.

Context {S T : Type}.

Definition isRateLimitError (error : exn) : bool :=
  let errorMessage := errorMessage error in
  (match error with FetchError _ status => status =? 429 | _ => false end)
  || includes errorMessage "429"
  || includes errorMessage "RESOURCE_EXHAUSTED".

(** The text of the error thrown once the loop is over. *)
Definition exhausted (retries : Z) (lastError : option exn) : exn :=
  Error ("AI request failed after " ++ showZ retries ++
         " attempts. Last error: " ++
         match lastError with
         | Some e => errorMessage e
         | None => "undefined"
         end).

(** The [for] loop, with [n] iterations left and loop counter [i]. *)
Fixpoint retry_loop (apiCall : M S T) (retries initialDelay : Z)
    (n : nat) (i : Z) (lastError : option exn) : M S T :=
  match n with
  | O => throw (exhausted retries lastError)
  | Datatypes.S n' =>
      try_catch apiCall (fun error =>
        if isRateLimitError error then
          let waitTime := initialDelay * 2 ^ i in
          (delay waitTime ;;;
           retry_loop apiCall retries initialDelay n' (i + 1) (Some error))%js
        else
          throw error)
  end.

Definition retryableAIOperation (apiCall : M S T)
    (retries : Z) (initialDelay : Z) : M S T :=
  retry_loop apiCall retries initialDelay (Z.to_nat retries) 0 None.

End Retry.

(* ===================================================================== *)
(** * The document object model *)
(* ===================================================================== *)

Module Dom.

Definition nl : string := String (ascii_of_nat 10) EmptyString.
Definition dq : string := String (ascii_of_nat 34) EmptyString.

(** The nodes a parsed HTML body is made of.  [Element] is an element with
    an end tag, [VoidElement] one that has neither children nor end tag
    ([br], [img], [hr], ...).  Tag names are local names, in lower case as
    the HTML parser produces them. *)
Inductive node : Type :=
| Element (tag : string) (attributes : list (string * string))
          (childNodes : list node)
| VoidElement (tag : string) (attributes : list (string * string))
| Text (data : string)
| Comment (data : string).

Definition isParagraph (n : node) : bool :=
  match n with
  | Element tag _ _ => String.eqb tag "p"
  | _ => false
  end.

(** [querySelectorAll('p')] over a list of sibling subtrees: the [p]
    elements in document order. *)
Fixpoint paragraphsOf (n : node) : list node :=
  match n with
  | Element _ _ cs =>
      (if isParagraph n then [n] else []) ++ flat_map paragraphsOf cs
  | _ => []
  end.

Definition querySelectorAll_p (body : list node) : list node :=
  flat_map paragraphsOf body.

(** [node.textContent] *)
Fixpoint textContent (n : node) : string :=
  match n with
  | Element _ _ cs => String.concat EmptyString (map textContent cs)
  | VoidElement _ _ => EmptyString
  | Text d => d
  | Comment _ => EmptyString
  end.

Definition body_textContent (body : list node) : string :=
  String.concat EmptyString (map textContent body).

(** Insertion of the siblings [new] after the [k]-th paragraph (counted
    from 0 in document order) of a list of sibling subtrees: the effect of
    [paragraphs[k].insertAdjacentHTML('afterend', html)] where [new] is the
    fragment that [html] parses to.  [descend k c] does the work inside the
    children of [c]. *)
Section InsertAfter.
Variable new : list node.
Variable descend : nat -> node -> node.

Fixpoint insertAmong (k : nat) (l : list node) : list node :=
  match l with
  | [] => []
  | c :: l' =>
      let inside := List.length (paragraphsOf c) in
      if (k <? inside)%nat then
        if isParagraph c then
          match k with
          | O => c :: new ++ l'
          | Datatypes.S k' => descend k' c :: l'
          end
        else descend k c :: l'
      else c :: insertAmong (k - inside) l'
  end.
End InsertAfter.

Fixpoint insertInside (new : list node) (k : nat) (n : node) : node :=
  match n with
  | Element tag attrs cs =>
      Element tag attrs (insertAmong new (insertInside new) k cs)
  | _ => n
  end.

Definition insertAfterParagraph (new : list node) (k : nat)
    (body : list node) : list node :=
  insertAmong new (insertInside new) k body.

(** ** Serialisation ([innerHTML]) *)

Fixpoint replaceChar (c : ascii) (by_ : string) (s : string) : string :=
  match s with
  | EmptyString => EmptyString
  | String a s' =>
      if Ascii.eqb a c then by_ ++ replaceChar c by_ s'
      else String a (replaceChar c by_ s')
  end.

Definition ampersand : ascii := ascii_of_nat 38.
Definition lessThan : ascii := ascii_of_nat 60.
Definition greaterThan : ascii := ascii_of_nat 62.
Definition noBreakSpace : ascii := ascii_of_nat 160.
Definition quotationMark : ascii := ascii_of_nat 34.

Definition escapeText (s : string) : string :=
  replaceChar greaterThan "&gt;" (replaceChar lessThan "&lt;"
    (replaceChar noBreakSpace "&nbsp;" (replaceChar ampersand "&amp;" s))).

Definition escapeAttribute (s : string) : string :=
  replaceChar quotationMark "&quot;"
    (replaceChar noBreakSpace "&nbsp;" (replaceChar ampersand "&amp;" s)).

Definition serializeAttributes (attrs : list (string * string)) : string :=
  String.concat EmptyString
    (map (fun a => " " ++ fst a ++ "=" ++ dq ++ escapeAttribute (snd a) ++ dq)
         attrs).

(** Elements whose text children are written without escaping. *)
Definition isRawText (tag : string) : bool :=
  existsb (String.eqb tag)
    ["style"; "script"; "xmp"; "iframe"; "noembed"; "noframes"; "plaintext"].

Fixpoint serialize (raw : bool) (n : node) : string :=
  match n with
  | Element tag attrs cs =>
      "<" ++ tag ++ serializeAttributes attrs ++ ">" ++
      String.concat EmptyString (map (serialize (isRawText tag)) cs) ++
      "</" ++ tag ++ ">"
  | VoidElement tag attrs => "<" ++ tag ++ serializeAttributes attrs ++ ">"
  | Text d => if raw then d else escapeText d
  | Comment d => "<!--" ++ d ++ "-->"
  end.

(** The serialisation of a list of siblings; [raw] says whether their
    parent writes its text children without escaping. *)
Definition serializeAll (raw : bool) (l : list node) : string :=
  String.concat EmptyString (map (serialize raw) l).

(** [body.innerHTML] for the children [body] of the [body] element. *)
Definition innerHTML (body : list node) : string := serializeAll false body.

(** Inside [n], the insertion of [new] after the [k]-th paragraph below [n]
    puts the text [snew] right after the text of that paragraph. *)
Definition splitsInside (new : list node) (snew : string) (n : node) : Prop :=
  forall tag attrs cs, n = Element tag attrs cs ->
  forall k p raw,
    nth_error (flat_map paragraphsOf cs) k = Some p ->
    exists s0 s2,
      serialize raw n = s0 ++ serialize false p ++ s2 /\
      serialize raw (insertInside new k n) =
        s0 ++ serialize false p ++ snew ++ s2.

End Dom.

Import Dom.

(* ===================================================================== *)
(** * Numbers read from text *)
(* ===================================================================== *)

Module JsNumber.

(** A JavaScript number that is either an integer or [NaN]. *)
Inductive number : Type :=
| NaN
| Num (z : Z).

Definition digitValue (c : ascii) : Z := Z.of_nat (nat_of_ascii c) - 48.

(** The leading run of decimal digits of [s]. *)
Fixpoint digitRun (s : string) : string :=
  match s with
  | String c s' => if isDigit c then String c (digitRun s') else EmptyString
  | EmptyString => EmptyString
  end.

Fixpoint digitsToZ (acc : Z) (s : string) : Z :=
  match s with
  | String c s' => digitsToZ (10 * acc + digitValue c) s'
  | EmptyString => acc
  end.

(** [parseInt(s, 10)]: leading white space, an optional sign, then as many
    decimal digits as there are; [NaN] when there is none. *)
Definition parseInt (s : string) : number :=
  let s1 := trimStart s in
  let '(neg, s2) :=
    match s1 with
    | String c r =>
        if Ascii.eqb c "-" then (true, r)
        else if Ascii.eqb c "+" then (false, r)
        else (false, s1)
    | EmptyString => (false, s1)
    end in
  match digitRun s2 with
  | EmptyString => NaN
  | ds => Num (if neg then - digitsToZ 0 ds else digitsToZ 0 ds)
  end.

(** [s.match(/\d+/)?.[0]]: the first maximal run of digits, if any. *)
Fixpoint matchDigits (s : string) : option string :=
  match s with
  | EmptyString => None
  | String c s' => if isDigit c then Some (digitRun s) else matchDigits s'
  end.

End JsNumber.

Import JsNumber.

(* ===================================================================== *)
(** * Types of the application ([types.ts]) *)
(* ===================================================================== *)

Module TextAIProvider.
Inductive t : Type := Gemini | OpenAI | Groq | OpenRouter.

(** The string value of each enumerator. *)
Definition value (p : t) : string :=
  match p with
  | Gemini => "Google Gemini"
  | OpenAI => "OpenAI"
  | Groq => "Groq"
  | OpenRouter => "OpenRouter"
  end.
End TextAIProvider.

Record AnalysisAIConfig : Type := mkAnalysisAIConfig {
  provider : TextAIProvider.t;
  apiKey : option string;
  model : option string
}.

Record WordPressPost : Type := mkPost {
  id : Z;
  title_rendered : string;
  excerpt_rendered : string;
  content_rendered : string;
  featured_media : Z;
  imageCount : Z
}.

(** One entry of the reply to a batch request. *)
Record BriefResult : Type := mkBriefResult {
  postId : Z;
  brief : string;
  altText : string
}.

(* ===================================================================== *)
(** * The platform: network, vendor SDK, HTML parser, JSON parser *)
(* ===================================================================== *)

(** The body of a chat-completion reply, after [response.json()]. *)
Record Choice : Type := mkChoice {
  message_content : option string;
  finish_reason : option string
}.

Record ChatData : Type := mkChatData {
  choices : option (list Choice)
}.

(** A post as the WordPress REST API lists it. *)
Record RawPost : Type := mkRawPost {
  raw_id : Z;
  raw_title : string;
  raw_excerpt : string;
  raw_content : string;
  raw_featured_media : Z
}.

(** What [response.json()] yields: a chat completion, a list of posts, or
    something else. *)
Inductive JsonData : Type :=
| JChat (data : ChatData)
| JPosts (posts : list RawPost)
| JOther.

Record Response : Type := mkResponse {
  ok : bool;
  status : Z;
  statusText : string;
  headers : list (string * string);
  json : exn + JsonData
}.

Inductive RequestBody : Type :=
| NoBody
| ChatBody (model prompt : string) (max_tokens : option Z)
| JsonBody (text : string).

Record Request : Type := mkRequest {
  url : string;
  method : string;
  authorization : option string;
  body : RequestBody;
  timeout : option Z
}.

(** What the program takes from its environment.  [S] is the state of the
    outside world. *)
Class Platform (S : Type) : Type := {
  (** [process.env.API_KEY] *)
  env_API_KEY : option string;
  (** [fetch], with the abort timer of [fetchWithTimeout] already started *)
  fetch : Request -> S -> (exn + Response) * S;
  (** [ai.models.generateContent] of the Gemini SDK, which yields
      [response.text]; the flag says whether a JSON schema was given *)
  generateContent : string -> string -> bool -> S -> (exn + string) * S;
  (** [new DOMParser().parseFromString(html, 'text/html')]: the children
      of the parsed document's [body] *)
  parseFromString : string -> list node;
  (** [body.innerHTML = html]: the children that the fragment parser gives
      the body for [html] *)
  parseFragment : string -> list node;
  (** [JSON.parse] of a batch reply followed by the spread of the parsed
      value into an array: a [SyntaxError] for malformed text, a [TypeError]
      for a value that cannot be spread *)
  JSON_parse : string -> exn + list BriefResult;
  (** [JSON.stringify] of the posts sent for analysis *)
  JSON_stringify : list (Z * string * string) -> string;
  (** [btoa] *)
  btoa : string -> string
}.

(* ===================================================================== *)
(** * The provider gateway ([aiService.ts]) *)
(* ===================================================================== *)

Section AiService.

Context {S : Type} {P : Platform S}.

Local Open Scope js_scope.

Definition getGeminiClient : M S unit :=
  match env_API_KEY with
  | Some k =>
      if truthy k then ret tt
      else throw (Error "Google Gemini API Key is not configured in the environment.")
  | None =>
      throw (Error "Google Gemini API Key is not configured in the environment.")
  end.

Definition stripHtml (html : string) : string :=
  body_textContent (parseFromString html).

(** The record of a request in the trace: where it goes and the text it
    carries. *)
Definition requestEvent (req : Request) : Event :=
  EvRequest (url req)
    (match body req with
     | ChatBody _ prompt _ => prompt
     | JsonBody t => t
     | NoBody => EmptyString
     end).

(** A network request: it is recorded, then answered by the outside
    world. *)
Definition send (req : Request) : M S Response :=
  emit (requestEvent req) ;;;
  external (fetch req).

(** [fetchWithTimeout]: an abort becomes a time-out error, every other
    failure is rethrown. *)
Definition fetchWithTimeout (req : Request) : M S Response :=
  try_catch (send req) (fun error =>
    match error with
    | DOMException name _ =>
        if String.eqb name "AbortError" then
          throw (Error ("Request timed out after " ++
                        showZ (match timeout req with
                               | Some t => t / 1000
                               | None => 90
                               end) ++ " seconds."))
        else throw error
    | _ => throw error
    end).

Definition emptyResponseError : exn :=
  Error "AI provider returned an empty or invalid response. This can happen if the model is overloaded or safety filters are triggered. Try a different model.".

Definition callOpenAICompatibleAPI (apiUrl apiKey model prompt : string)
    (maxTokens : option Z) (timeout : option Z) : M S string :=
  let body :=
    ChatBody model prompt
      (match maxTokens with
       | Some n => if n =? 0 then None else Some n
       | None => None
       end) in
  response <- fetchWithTimeout
    (mkRequest apiUrl "POST" (Some ("Bearer " ++ apiKey)) body
       (Some (match timeout with Some t => t | None => 90000 end))) ;;
  if negb (ok response) then
    throw (FetchError ("API request failed with status " ++
                       showZ (status response)) (status response))
  else
    match json response with
    | inl e => throw e
    | inr (JPosts _) | inr JOther => throw emptyResponseError
    | inr (JChat data) =>
        match choices data with
        | Some (c :: _) =>
            match message_content c with
            | Some content =>
                if truthy content then ret content
                else if match finish_reason c with
                        | Some r => String.eqb r "content_filter"
                        | None => false
                        end
                then throw (Error "The AI provider blocked the response due to its safety filters.")
                else throw emptyResponseError
            | None =>
                if match finish_reason c with
                   | Some r => String.eqb r "content_filter"
                   | None => false
                   end
                then throw (Error "The AI provider blocked the response due to its safety filters.")
                else throw emptyResponseError
            end
        | _ => throw emptyResponseError
        end
    end.

(** JavaScript truthiness of an optional string: [undefined] and the empty
    string are falsy. *)
Definition present (o : option string) : bool :=
  match o with Some v => truthy v | None => false end.

(** The providers for which [generateText] checks the configured model
    name before it calls out. *)
Definition checksModel (p : TextAIProvider.t) : bool :=
  match p with
  | TextAIProvider.Groq | TextAIProvider.OpenRouter => true
  | TextAIProvider.Gemini | TextAIProvider.OpenAI => false
  end.

(** The message of the validation error of a provider that checks its
    model name: the key is checked first. *)
Definition validationMessage (cfg : AnalysisAIConfig) : string :=
  TextAIProvider.value (provider cfg) ++
  (if present (apiKey cfg) then " model name is required."
   else " API key is required.").

Definition geminiGenerate (prompt : string) (withSchema : bool) : M S string :=
  getGeminiClient ;;;
  emit (EvRequest "gemini-2.5-flash" prompt) ;;;
  external (generateContent "gemini-2.5-flash" prompt withSchema).

Definition generateText (analysisConfig : AnalysisAIConfig) (prompt : string)
    (maxTokens : option Z) (timeout : option Z) : M S string :=
  let provider := provider analysisConfig in
  let apiKey := apiKey analysisConfig in
  let model := model analysisConfig in
  match provider with
  | TextAIProvider.Gemini => geminiGenerate prompt false
  | TextAIProvider.OpenAI =>
      match apiKey with
      | Some k =>
          if truthy k then
            callOpenAICompatibleAPI "https://api.openai.com/v1/chat/completions"
              k "gpt-4-turbo" prompt maxTokens timeout
          else throw (Error "OpenAI API key is required.")
      | None => throw (Error "OpenAI API key is required.")
      end
  | TextAIProvider.Groq =>
      match apiKey with
      | Some k =>
          if truthy k then
            match model with
            | Some m =>
                if truthy m then
                  callOpenAICompatibleAPI
                    "https://api.groq.com/openai/v1/chat/completions"
                    k m prompt maxTokens timeout
                else throw (Error "Groq model name is required.")
            | None => throw (Error "Groq model name is required.")
            end
          else throw (Error "Groq API key is required.")
      | None => throw (Error "Groq API key is required.")
      end
  | TextAIProvider.OpenRouter =>
      match apiKey with
      | Some k =>
          if truthy k then
            match model with
            | Some m =>
                if truthy m then
                  callOpenAICompatibleAPI
                    "https://openrouter.ai/api/v1/chat/completions"
                    k m prompt maxTokens timeout
                else throw (Error "OpenRouter model name is required.")
            | None => throw (Error "OpenRouter model name is required.")
            end
          else throw (Error "OpenRouter API key is required.")
      | None => throw (Error "OpenRouter API key is required.")
      end
  end.

Definition jsonInstruction : string :=
  nl ++ nl ++ "IMPORTANT: Your response MUST be a valid JSON object (or array of objects) and nothing else. Do not include markdown formatting, code blocks, or any explanatory text.".

Definition generateJsonText (analysisConfig : AnalysisAIConfig)
    (prompt : string) : M S string :=
  match provider analysisConfig with
  | TextAIProvider.Gemini => geminiGenerate prompt true
  | _ =>
      let modifiedPrompt := prompt ++ jsonInstruction in
      generateText analysisConfig modifiedPrompt None None
  end.

(* --------------------------------------------------------------------- *)
(** ** Batch generation of briefs and alt texts *)

Definition BATCH_SIZE : nat := 20.
Definition DELAY_BETWEEN_BATCHES : Z := 1000.

Definition briefPrompt (batch : list WordPressPost) : string :=
  let postsToAnalyze :=
    map (fun p => (id p, stripHtml (title_rendered p),
                   stripHtml (excerpt_rendered p))) batch in
  "You are an expert content assistant. Analyze the following WordPress posts and for each one, generate a concise, visually descriptive image brief and an SEO-friendly alt text." ++ nl ++
  "        - The 'brief' should guide an AI image generator to create a relevant, high-quality image." ++ nl ++
  "        - The 'altText' should describe the resulting image for accessibility and SEO." ++ nl ++
  "        Posts: " ++ JSON_stringify postsToAnalyze.

Definition noJsonError (cfg : AnalysisAIConfig) : exn :=
  Error ("The AI provider (" ++ TextAIProvider.value (provider cfg) ++
         ") returned a response that did not contain valid JSON.").

Definition malformedJsonError (cfg : AnalysisAIConfig) : exn :=
  Error ("The AI provider (" ++ TextAIProvider.value (provider cfg) ++
         ") returned malformed JSON, even after cleanup.").

(** The [try] block of one iteration: the request, the extraction and the
    parse of one batch. *)
Definition requestBatch (cfg : AnalysisAIConfig) (batch : list WordPressPost)
    : M S (list BriefResult) :=
  responseText <-
    retryableAIOperation (generateJsonText cfg (briefPrompt batch)) 3 2000 ;;
  match extractJson responseText with
  | Some jsonString =>
      if truthy jsonString then
        match JSON_parse jsonString with
        | inr batchResults => ret batchResults
        | inl e => throw e
        end
      else throw (noJsonError cfg)
  | None => throw (noJsonError cfg)
  end.

(** The [catch] block: a [SyntaxError] is replaced, anything else is
    rethrown. *)
Definition rethrowBatchError {A} (cfg : AnalysisAIConfig) (error : exn) : M S A :=
  if isSyntaxError error then throw (malformedJsonError cfg)
  else throw error.

(** The [for] loop over batch starts [i]; [fuel] bounds the number of
    iterations and [generateImageBriefsAndAltsBatch] gives enough of it. *)
Fixpoint batchLoop (cfg : AnalysisAIConfig) (posts : list WordPressPost)
    (onProgress : bool) (fuel : nat) (i : nat)
    (allResults : list BriefResult) : M S (list BriefResult) :=
  if (i <? List.length posts)%nat then
    match fuel with
    | O => ret allResults
    | Datatypes.S fuel' =>
        let batch := firstn BATCH_SIZE (skipn i posts) in
        allResults' <-
          try_catch
            (batchResults <- requestBatch cfg batch ;;
             (if onProgress then
                emit (EvProgress
                        (Z.min (Z.of_nat (i + BATCH_SIZE))
                               (Z.of_nat (List.length posts)))
                        (Z.of_nat (List.length posts)))
              else ret tt) ;;;
             ret (allResults ++ batchResults)%list)
            (rethrowBatchError cfg) ;;
        (if (i + BATCH_SIZE <? List.length posts)%nat
         then delay DELAY_BETWEEN_BATCHES else ret tt) ;;;
        batchLoop cfg posts onProgress fuel' (i + BATCH_SIZE) allResults'
    end
  else ret allResults.

Definition generateImageBriefsAndAltsBatch (posts : list WordPressPost)
    (analysisConfig : AnalysisAIConfig) (onProgress : bool)
    : M S (list BriefResult) :=
  (if onProgress then emit (EvProgress 0 (Z.of_nat (List.length posts)))
   else ret tt) ;;;
  batchLoop analysisConfig posts onProgress (List.length posts) 0 [].

(** *** Failure of a batch, and the states the loop goes through *)

Definition batchAt (posts : list WordPressPost) (i : nat) : list WordPressPost :=
  firstn BATCH_SIZE (skipn i posts).

(** The batch fails in the world [w]: its request fails for good, also when
    the retries are used up; or the reply has no JSON in it; or what was
    extracted does not parse. *)
Definition batchFails (cfg : AnalysisAIConfig) (batch : list WordPressPost)
    (w : World S) : Prop :=
  (exists e w',
      retryableAIOperation (generateJsonText cfg (briefPrompt batch)) 3 2000 w
        = (inl e, w')) \/
  (exists responseText w',
      retryableAIOperation (generateJsonText cfg (briefPrompt batch)) 3 2000 w
        = (inr responseText, w') /\
      (extractJson responseText = None \/
       extractJson responseText = Some EmptyString \/
       exists jsonString e,
         extractJson responseText = Some jsonString /\
         JSON_parse jsonString = inl e)).

(** What follows a batch that succeeded: the progress report and, unless it
    was the last batch, the pause. *)
Definition afterBatch (posts : list WordPressPost) (onProgress : bool)
    (i : nat) : M S unit :=
  (if onProgress then
     emit (EvProgress
             (Z.min (Z.of_nat (i + BATCH_SIZE)) (Z.of_nat (List.length posts)))
             (Z.of_nat (List.length posts)))
   else ret tt) ;;;
  (if (i + BATCH_SIZE <? List.length posts)%nat
   then delay DELAY_BETWEEN_BATCHES else ret tt).

(** [LoopState cfg posts onProgress w0 i acc w]: a call started in the
    world [w0] is about to handle the batch that starts at [i], with the
    results [acc] collected so far, in the world [w]. *)
Inductive LoopState (cfg : AnalysisAIConfig) (posts : list WordPressPost)
    (onProgress : bool) (w0 : World S)
    : nat -> list BriefResult -> World S -> Prop :=
| loop_start :
    LoopState cfg posts onProgress w0 0 []
      (snd ((if onProgress
             then emit (EvProgress 0 (Z.of_nat (List.length posts)))
             else ret tt) w0))
| loop_next i acc w batchResults w1 :
    LoopState cfg posts onProgress w0 i acc w ->
    (i < List.length posts)%nat ->
    requestBatch cfg (batchAt posts i) w = (inr batchResults, w1) ->
    LoopState cfg posts onProgress w0 (i + BATCH_SIZE) (acc ++ batchResults)%list
      (snd (afterBatch posts onProgress i w1)).

(* --------------------------------------------------------------------- *)
(** ** Placement of the image marker *)

Definition placeholder : string := "<!-- INSERT_IMAGE_HERE -->".

(** The nodes that the fragment parser yields for the placeholder between
    two line feeds, the argument of [insertAdjacentHTML]. *)
Definition placeholderFragment : list node :=
  [Text nl; Comment " INSERT_IMAGE_HERE "; Text nl].

(** [insertPlaceholderHeuristically(postContent, placeholder)].  The last
    branch assigns [placeholder + LF + body.innerHTML] to [body.innerHTML]:
    that text is parsed again, and what is returned is the serialisation
    of the children it gives. *)
Definition insertPlaceholderHeuristically (postContent : string) : string :=
  let body := parseFromString postContent in
  let paragraphs := querySelectorAll_p body in
  let targetIndex : Z :=
    if (2 <? List.length paragraphs)%nat then 1
    else if (1 <? List.length paragraphs)%nat then 0
    else -1 in
  if negb (targetIndex =? -1) &&
     (Z.to_nat targetIndex <? List.length paragraphs)%nat then
    innerHTML (insertAfterParagraph placeholderFragment
                 (Z.to_nat targetIndex) body)
  else if (0 <? List.length paragraphs)%nat then
    innerHTML (insertAfterParagraph placeholderFragment
                 (List.length paragraphs - 1) body)
  else
    innerHTML (parseFragment (placeholder ++ nl ++ innerHTML body)).

(** A paragraph prepared for the prompt. *)
Record Numbered : Type := mkNumbered { num : Z; text : string }.

Fixpoint numberFrom (index : Z) (ps : list node) : list Numbered :=
  match ps with
  | [] => []
  | p :: ps' => mkNumbered (index + 1) (trim (textContent p))
                  :: numberFrom (index + 1) ps'
  end.

(** [paragraphs.slice(0, 5).map(...).filter(p => p.text.length > 80)] *)
Definition paragraphsToAnalyze (paragraphs : list node) : list Numbered :=
  filter (fun p => (80 <? String.length (text p))%nat)
         (numberFrom 0 (firstn 5 paragraphs)).

(** The selection with every paragraph kept that is not under 80
    characters, for comparison with the wording of the specification. *)
Definition paragraphsToAnalyze_spec (paragraphs : list node) : list Numbered :=
  filter (fun p => negb (String.length (text p) <? 80)%nat)
         (numberFrom 0 (firstn 5 paragraphs)).

Definition placementPrompt (cleanTitle : string) (ps : list Numbered) : string :=
  "You are an expert in digital content layout and reader engagement. Your task is to find the most engaging and contextually appropriate location to insert an image within an article." ++ nl ++
  "I will provide the article's title and its initial paragraphs, each numbered." ++ nl ++ nl ++
  "An image should be placed after a paragraph that either introduces a new concept, concludes an introductory section, or provides a natural pause for the reader. Avoid placing it after a very short paragraph or in the middle of a continuous thought. The goal is to break up the text visually and enhance the topic being discussed." ++ nl ++ nl ++
  "Article Title: " ++ dq ++ cleanTitle ++ dq ++ nl ++ nl ++
  "Paragraphs:" ++ nl ++
  String.concat EmptyString
    (map (fun p => nl ++ showZ (num p) ++ ". " ++ text p) ps) ++ nl ++ nl ++
  "Based on the title and paragraphs, which paragraph number is the absolute best place to insert an image IMMEDIATELY AFTER?" ++ nl ++
  "Respond with ONLY the paragraph number and nothing else.".

(** The paragraph number read from the reply, and the index chosen from
    it. *)
Definition chosenParagraphNumber (responseText : string) : number :=
  parseInt (match matchDigits (trim responseText) with
            | Some d => if truthy d then d else "1"
            | None => "1"
            end).

Definition targetParagraphIndex (chosen : number) (count : nat) : Z :=
  match chosen with
  | NaN => 1
  | Num n => if (n <? 1) || (Z.of_nat count <? n) then 1 else n - 1
  end.

Definition getContentWithImagePlaceholder (analysisConfig : AnalysisAIConfig)
    (postContent postTitle : string) : M S string :=
  let cleanTitle := stripHtml postTitle in
  let body := parseFromString postContent in
  let paragraphs := querySelectorAll_p body in
  if (List.length paragraphs <? 3)%nat then
    ret (insertPlaceholderHeuristically postContent)
  else
    try_catch
      (let toAnalyze := paragraphsToAnalyze paragraphs in
       if (List.length toAnalyze <? 2)%nat then
         ret (insertPlaceholderHeuristically postContent)
       else
         let prompt := placementPrompt cleanTitle toAnalyze in
         responseText <-
           retryableAIOperation
             (generateText analysisConfig prompt (Some 10) (Some 20000))
             2 500 ;;
         let target :=
           targetParagraphIndex (chosenParagraphNumber responseText)
             (List.length paragraphs) in
         if (0 <=? target) && (Z.to_nat target <? List.length paragraphs)%nat
         then
           ret (innerHTML (insertAfterParagraph placeholderFragment
                             (Z.to_nat target) body))
         else
           ret (insertPlaceholderHeuristically postContent))
      (fun _ => ret (insertPlaceholderHeuristically postContent)).

End AiService.


(* ===================================================================== *)
(** * The WordPress gateway ([wordpressService.ts]) *)
(* ===================================================================== *)

Section WordPressService.

Context {S : Type} {P : Platform S}.

Local Open Scope js_scope.

(** [baseUrl.replace(/\/$/, EMPTY)]: one trailing slash is removed. *)
Fixpoint stripTrailingSlash (s : string) : string :=
  match s with
  | EmptyString => EmptyString
  | String c s' =>
      match s' with
      | EmptyString => if Ascii.eqb c "/" then EmptyString else s
      | _ => String c (stripTrailingSlash s')
      end
  end.

Definition toLowerAscii (c : ascii) : ascii :=
  let n := nat_of_ascii c in
  if ((65 <=? n) && (n <=? 90))%nat then ascii_of_nat (n + 32) else c.

Fixpoint toLowerCase (s : string) : string :=
  match s with
  | EmptyString => EmptyString
  | String c s' => String (toLowerAscii c) (toLowerCase s')
  end.

(** [headers.get(name)]: header names compare without regard to case. *)
Fixpoint headers_get (hs : list (string * string)) (name : string)
    : option string :=
  match hs with
  | [] => None
  | (k, v) :: hs' =>
      if String.eqb (toLowerCase k) (toLowerCase name) then Some v
      else headers_get hs' name
  end.

(** The request that [wpFetch] sends. *)
Definition wpRequest (baseUrl endpoint username : string)
    (appPassword : option string) (method : string) (body : RequestBody)
    : Request :=
  let url := stripTrailingSlash baseUrl ++ "/wp-json/wp/v2" ++ endpoint in
  let auth :=
    match appPassword with
    | Some pw =>
        if truthy username && truthy pw
        then Some ("Basic " ++ btoa (username ++ ":" ++ pw))
        else None
    | None => None
    end in
  mkRequest url method auth body None.

Definition wpFetch (baseUrl endpoint username : string)
    (appPassword : option string) (method : string) (body : RequestBody)
    : M S Response :=
  response <- send (wpRequest baseUrl endpoint username appPassword method body) ;;
  if negb (ok response) then
    throw (Error ("WordPress API request failed with status " ++
                  showZ (status response) ++ ": " ++ statusText response))
  else ret response.

Definition getTotalPosts (url user : string) (pass : option string)
    : M S number :=
  if negb (truthy url) || negb (truthy user) then
    throw (Error "URL and Username are required.")
  else
    response <- wpFetch url "/posts?per_page=1" user pass "GET" NoBody ;;
    match headers_get (headers response) "X-WP-Total" with
    | None => ret (Num 0)
    | Some total => ret (parseInt total)
    end.

(** [doc.getElementsByTagName('img').length] *)
Fixpoint countImg (n : node) : nat :=
  match n with
  | Element tag _ cs =>
      ((if String.eqb tag "img" then 1 else 0) + list_sum (map countImg cs))%nat
  | VoidElement tag _ => if String.eqb tag "img" then 1%nat else 0%nat
  | _ => 0%nat
  end.

Definition fetchPosts (url user : string) (pass : option string)
    (page perPage : Z) : M S (list WordPressPost) :=
  response <- wpFetch url
    ("/posts?per_page=" ++ showZ perPage ++ "&page=" ++ showZ page ++
     "&_embed=wp:featuredmedia") user pass "GET" NoBody ;;
  match json response with
  | inl e => throw e
  | inr (JPosts data) =>
      ret (map (fun post =>
                  let doc := parseFromString (raw_content post) in
                  let imageCount := Z.of_nat (list_sum (map countImg doc)) in
                  mkPost (raw_id post) (raw_title post) (raw_excerpt post)
                    (raw_content post) (raw_featured_media post) imageCount)
               data)
  | inr _ => throw (TypeError "data.map is not a function")
  end.

End WordPressService.

(* ===================================================================== *)
(** * The crawl and the backlog sort ([App.tsx]) *)
(* ===================================================================== *)

Module Backlog.

Definition score (p : WordPressPost) : Z :=
  (if featured_media p =? 0 then 1000 else 0) + (100 - imageCount p).

(** The comparison function given to [sort]. *)
Definition compareFn (a b : WordPressPost) : Z :=
  let aScore := score a in
  let bScore := score b in
  bScore - aScore.

(** [Array.prototype.sort] is a stable sort: [x] goes before the first
    element it does not come after. *)
Section Sort.
Context {A : Type} (cmp : A -> A -> Z).

Fixpoint insert (x : A) (l : list A) : list A :=
  match l with
  | [] => [x]
  | y :: l' => if cmp x y <=? 0 then x :: l else y :: insert x l'
  end.

Fixpoint sort (l : list A) : list A :=
  match l with
  | [] => []
  | x :: l' => insert x (sort l')
  end.
End Sort.

Definition sortPosts (allPosts : list WordPressPost) : list WordPressPost :=
  sort compareFn allPosts.

(** The order the sort establishes: the earlier post has the higher or the
    same score. *)
Definition scoreOrder (a b : WordPressPost) : Prop := score b <= score a.

End Backlog.

Section Crawl.

Context {S : Type} {P : Platform S}.

Local Open Scope js_scope.

(** [allPosts.length < total]; a comparison with [NaN] is false. *)
Definition lengthBelow (allPosts : list WordPressPost) (total : number) : bool :=
  match total with
  | NaN => false
  | Num t => Z.of_nat (List.length allPosts) <? t
  end.

(** The [while] loop of the crawl.  Every iteration that does not break
    adds a post, so [total] iterations are enough. *)
Fixpoint crawlLoop (url user : string) (pass : option string)
    (total : number) (fuel : nat) (allPosts : list WordPressPost)
    (currentPage : Z) : M S (list WordPressPost) :=
  if lengthBelow allPosts total then
    match fuel with
    | O => ret allPosts
    | Datatypes.S fuel' =>
        fetchedPosts <- fetchPosts url user pass currentPage 100 ;;
        match fetchedPosts with
        | [] => ret allPosts
        | _ => crawlLoop url user pass total fuel'
                 (allPosts ++ fetchedPosts)%list (currentPage + 1)
        end
    end
  else ret allPosts.

(** The [try] block of [handleStartCrawling]: the sorted backlog. *)
Definition handleStartCrawling (url user : string) (pass : option string)
    : M S (list WordPressPost) :=
  total <- getTotalPosts url user pass ;;
  allPosts <- crawlLoop url user pass total
                (match total with Num t => Z.to_nat t | NaN => O end) [] 1 ;;
  ret (Backlog.sortPosts allPosts).

End Crawl.

(* ===================================================================== *)
(** * Runs of the retry loop *)
(* ===================================================================== *)

Section RetryRuns.

Context {S T : Type}.

(** [k] consecutive rate-limit failures of [op], leading from one external
    state to another. *)
Inductive rateLimitedRun (op : S -> (exn + T) * S) : nat -> S -> S -> Prop :=
| rl_done s : rateLimitedRun op 0 s s
| rl_step k s s1 s' e :
    op s = (inl e, s1) ->
    isRateLimitError e = true ->
    rateLimitedRun op k s1 s' ->
    rateLimitedRun op (Datatypes.S k) s s'.

(** The events of [k] failed attempts that start with loop counter [i]. *)
Fixpoint backoffEvents (d : Z) (i : Z) (k : nat) : list Event :=
  match k with
  | O => []
  | Datatypes.S k' => EvInvoke :: EvDelay (d * 2 ^ i) :: backoffEvents d (i + 1) k'
  end.

End RetryRuns.


(* ===================================================================== *)
(** * Further definitions: runs and traces of the retry loop *)
(* ===================================================================== *)

(** The number of network requests in a trace. *)
Fixpoint requests (t : list Event) : nat :=
  match t with
  | [] => O
  | EvRequest _ _ :: t' => Datatypes.S (requests t')
  | _ :: t' => requests t'
  end.

Section RetryOutcomes.

Context {S T : Type}.

(** [failures op k s last]: [op] fails [k] times in a row on a rate-limit
    error, starting in the state [s]; the result is the state reached and
    the last error seen ([last] when [k] is 0). *)
Fixpoint failures (op : S -> (exn + T) * S) (k : nat) (s : S)
    (last : option exn) : option (S * option exn) :=
  match k with
  | O => Some (s, last)
  | Datatypes.S k' =>
      match op s with
      | (inl e, s1) =>
          if isRateLimitError e then failures op k' s1 (Some e) else None
      | (inr _, _) => None
      end
  end.

End RetryOutcomes.

(** The shape of what the retry loop adds to the trace, for an operation
    whose single calls add traces in [callTrace]: with [n] iterations left
    and loop counter [i], the calls alternate with the delays
    [d * 2^i], [d * 2^(i+1)], ... *)
Inductive RetryTrace (callTrace : list Event -> Prop) (d : Z)
    : nat -> Z -> list Event -> Prop :=
| rt_none i : RetryTrace callTrace d O i []
| rt_last n i c :
    callTrace c -> RetryTrace callTrace d (Datatypes.S n) i c
| rt_more n i c t :
    callTrace c ->
    RetryTrace callTrace d n (i + 1) t ->
    RetryTrace callTrace d (Datatypes.S n) i (c ++ EvDelay (d * 2 ^ i) :: t)%list.

(** A call that sends at most one request and does nothing else. *)
Definition atMostOneRequest (c : list Event) : Prop :=
  c = [] \/ exists endpoint text, c = [EvRequest endpoint text].

(** A call of a recorded operation. *)
Definition oneInvocation (c : list Event) : Prop := c = [EvInvoke].

(* ===================================================================== *)
(** * Further definitions: the requests of the provider gateway *)
(* ===================================================================== *)

(** The request that [callOpenAICompatibleAPI] hands to
    [fetchWithTimeout]. *)
Definition chatRequest (apiUrl apiKey model prompt : string)
    (maxTokens : option Z) (timeout : option Z) : Request :=
  mkRequest apiUrl "POST" (Some ("Bearer " ++ apiKey))
    (ChatBody model prompt
       (match maxTokens with
        | Some n => if n =? 0 then None else Some n
        | None => None
        end))
    (Some (match timeout with Some t => t | None => 90000 end)).



(** The endpoint that [generateText] calls for a provider other than
    Gemini. *)
Definition endpointOf (p : TextAIProvider.t) : string :=
  match p with
  | TextAIProvider.OpenAI => "https://api.openai.com/v1/chat/completions"
  | TextAIProvider.Groq => "https://api.groq.com/openai/v1/chat/completions"
  | TextAIProvider.OpenRouter => "https://openrouter.ai/api/v1/chat/completions"
  | TextAIProvider.Gemini => "gemini-2.5-flash"
  end.

(** The error of [fetchWithTimeout] for a request that was aborted after
    [seconds] seconds. *)
Definition timeoutError (seconds : Z) : exn :=
  Error ("Request timed out after " ++ showZ seconds ++ " seconds.").

(** The message of [generateText] for a provider whose API key is not
    configured. *)
Definition keyRequired (p : TextAIProvider.t) : exn :=
  Error (TextAIProvider.value p ++ " API key is required.").

Definition geminiKeyMissing : exn :=
  Error "Google Gemini API Key is not configured in the environment.".

(* ===================================================================== *)
(** * Further definitions: the batches of a run *)
(* ===================================================================== *)



(* ===================================================================== *)
(** * Further definitions: the crawl and its error report ([App.tsx]) *)
(* ===================================================================== *)

Section CrawlRuns.

Context {S : Type} {P : Platform S}.

Local Open Scope js_scope.

(** [CrawlState url user pass total w0 allPosts currentPage w]: the [while]
    loop, started in the world [w0], is about to test its condition with
    the posts [allPosts] collected, the page [currentPage] next, in the
    world [w]. *)
Inductive CrawlState (url user : string) (pass : option string)
    (total : number) (w0 : World S)
    : list WordPressPost -> Z -> World S -> Prop :=
| crawl_start : CrawlState url user pass total w0 [] 1 w0
| crawl_page allPosts currentPage w fetchedPosts w1 :
    CrawlState url user pass total w0 allPosts currentPage w ->
    lengthBelow allPosts total = true ->
    fetchPosts url user pass currentPage 100 w = (inr fetchedPosts, w1) ->
    fetchedPosts <> [] ->
    CrawlState url user pass total w0 (allPosts ++ fetchedPosts)%list
      (currentPage + 1) w1.



End CrawlRuns.

(* ===================================================================== *)
(** * Further definitions: the title of an uploaded image *)
(* ===================================================================== *)

Module Upload.

(** [s.split(sep)] for a separator of one code unit. *)
Fixpoint split (sep : ascii) (s : string) : list string :=
  match s with
  | EmptyString => [EmptyString]
  | String c s' =>
      if Ascii.eqb c sep then EmptyString :: split sep s'
      else match split sep s' with
           | piece :: pieces => String c piece :: pieces
           | [] => [String c EmptyString]
           end
  end.

(** [pieces.join(sep)] *)
Definition join (sep : string) (pieces : list string) : string :=
  String.concat sep pieces.

(** The title that [uploadImage] gives to the media item:
    [fileName.split('.').slice(0, -1).join(' ')]. *)
Definition mediaTitle (fileName : string) : string :=
  join " " (removelast (split "." fileName)).

End Upload.

(* ===================================================================== *)
(** * Further definitions: image generation and vision ([aiService.ts]) *)
(* ===================================================================== *)

Module AIProvider.

Inductive t : Type := Gemini | DallE3 | Stability | OpenRouter | Pollinations.

Definition value (p : t) : string :=
  match p with
  | Gemini => "Google Gemini"
  | DallE3 => "OpenAI DALL-E 3"
  | Stability => "Stability AI"
  | OpenRouter => "OpenRouter"
  | Pollinations => "Pollinations.ai (Free)"
  end.

End AIProvider.

Module ImageFormat.

Inductive t : Type := WebP | JPEG | PNG.

Definition value (f : t) : string :=
  match f with
  | WebP => "image/webp"
  | JPEG => "image/jpeg"
  | PNG => "image/png"
  end.

End ImageFormat.

Module AspectRatio.

Inductive t : Type := Landscape | Square | Portrait.

Definition value (r : t) : string :=
  match r with
  | Landscape => "16:9"
  | Square => "1:1"
  | Portrait => "9:16"
  end.

End AspectRatio.

Record ImageSettings : Type := mkImageSettings {
  format : ImageFormat.t;
  quality : Z;
  aspectRatio : AspectRatio.t;
  style : string;
  negativePrompt : string
}.

(** What the image functions need from outside, beside the [Platform]. *)
Class ImagePlatform (S : Type) : Type := {
  (** [ai.models.generateImages] with one image asked for: the
      [imageBytes] of the [generatedImages], for a model, a prompt and an
      aspect ratio *)
  generateImages : string -> string -> AspectRatio.t -> S -> (exn + list string) * S;
  (** [encodeURIComponent] *)
  encodeURIComponent : string -> string;
  (** [response.blob()] read by a [FileReader] as a data URL; a read error
      rejects *)
  readAsDataURL : Response -> S -> (exn + string) * S;
  (** [ai.models.generateContent] with an inline image of a MIME type and
      its base64 data, which yields [response.text] *)
  generateContentWithImage : string -> string -> S -> (exn + string) * S;
  (** the values of JSON, and [JSON.parse] *)
  JsonValue : Type;
  JSON_parse_value : string -> exn + JsonValue
}.

Section ImageService.

Context {S : Type} {P : Platform S} {IP : ImagePlatform S}.

Local Open Scope js_scope.

(** The request of [fetchWithTimeout(imageUrl, {}, 30000)]. *)
Definition imageRequest (imageUrl : string) : Request :=
  mkRequest imageUrl "GET" None NoBody (Some 30000).

Definition fetchImageAsBase64 (imageUrl : string) : M S string :=
  response <- fetchWithTimeout (imageRequest imageUrl) ;;
  if negb (ok response) then
    throw (Error ("Failed to fetch image from URL: " ++ imageUrl))
  else external (readAsDataURL response).

(** The call that [generateImage] wraps in the retry loop:
    [ai.models.generateImages] for one image of the given aspect ratio. *)
Definition generateImagesCall (prompt : string) (ratio : AspectRatio.t)
    : M S (list string) :=
  emit (EvRequest "imagen-4.0-generate-001" prompt) ;;;
  external (generateImages "imagen-4.0-generate-001" prompt ratio).

Definition generateImage (provider : AIProvider.t) (prompt : string)
    (settings : ImageSettings) : M S string :=
  match provider with
  | AIProvider.Gemini =>
      getGeminiClient ;;;
      generatedImages <-
        retryableAIOperation
          (generateImagesCall prompt (aspectRatio settings)) 3 2000 ;;
      match generatedImages with
      | base64ImageBytes :: _ =>
          ret ("data:image/png;base64," ++ base64ImageBytes)
      | [] =>
          throw (TypeError "Cannot read properties of undefined (reading 'image')")
      end
  | AIProvider.Pollinations =>
      let imageUrl := "https://pollinations.ai/p/" ++ encodeURIComponent prompt in
      fetchImageAsBase64 imageUrl
  | _ =>
      throw (Error (AIProvider.value provider ++
                    " is not implemented in this version."))
  end.

(** The two parts that [analyzeImageWithVision] cuts out of a data URL. *)
Definition dataUrlMimeType (base64ImageData : string) : string :=
  substring base64ImageData (indexOf base64ImageData ":" + 1)
    (indexOf base64ImageData ";").

Definition dataUrlData (base64ImageData : string) : string :=
  substring base64ImageData (indexOf base64ImageData "," + 1)
    (Z.of_nat (String.length base64ImageData)).

Definition visionPrompt : string :=
  "You are an expert image analyst. Analyze the provided image and provide:" ++ nl ++
  "                1. A 'score' from 1-10 on its likely quality and relevance for a blog post." ++ nl ++
  "                2. An improved, SEO-friendly 'altText'." ++ nl ++
  "                3. A new creative 'brief' to guide regeneration if the current image is subpar.".

Definition analyzeImageWithVision (imageUrl : string) : M S JsonValue :=
  getGeminiClient ;;;
  base64ImageData <- fetchImageAsBase64 imageUrl ;;
  let mimeType := dataUrlMimeType base64ImageData in
  let data := dataUrlData base64ImageData in
  responseText <-
    retryableAIOperation
      (emit (EvRequest "gemini-2.5-flash" visionPrompt) ;;;
       external (generateContentWithImage mimeType data))
      3 2000 ;;
  match JSON_parse_value responseText with
  | inr value => ret value
  | inl _ => throw (Error "AI failed to generate valid analysis data.")
  end.

End ImageService.

(* ===================================================================== *)
(** * Further definitions: the configuration form
      ([ConfigurationStep.tsx]) *)
(* ===================================================================== *)

Record WordPressCredentials : Type := mkWordPressCredentials {
  wp_url : string;
  wp_username : string;
  wp_appPassword : option string
}.

Record Configuration : Type := mkConfiguration {
  wordpress : WordPressCredentials;
  ai_provider : AIProvider.t;
  ai_analysis : AnalysisAIConfig;
  image : ImageSettings
}.

Module ConfigurationStep.

(** The state of the form. *)
Record FormState : Type := mkFormState {
  wpUrl : string;
  wpUser : string;
  wpPass : string;
  aiProvider : AIProvider.t;
  analysisProvider : TextAIProvider.t;
  analysisApiKey : string;
  analysisModel : string;
  imageFormat : ImageFormat.t;
  quality : Z;
  aspectRatio : AspectRatio.t;
  style : string;
  negativePrompt : string
}.

(** [handleSubmit]: the text of the alert, or the configuration handed to
    [onConfigure]. *)
Definition handleSubmit (f : FormState) : string + Configuration :=
  if negb (truthy (wpUrl f)) || negb (truthy (wpUser f))
     || negb (truthy (wpPass f)) then
    inl "WordPress Site URL, Username, and Application Password are required."
  else if negb (match analysisProvider f with
                | TextAIProvider.Gemini => true
                | _ => false
                end) && negb (truthy (analysisApiKey f)) then
    inl ("An API Key is required for the " ++
         TextAIProvider.value (analysisProvider f) ++
         " Content Analysis Provider.")
  else
    inr (mkConfiguration
           (mkWordPressCredentials (wpUrl f) (wpUser f) (Some (wpPass f)))
           (aiProvider f)
           (mkAnalysisAIConfig (analysisProvider f) (Some (analysisApiKey f))
              (Some (analysisModel f)))
           (mkImageSettings (imageFormat f) (quality f) (aspectRatio f)
              (style f) (negativePrompt f))).


End ConfigurationStep.

(* ===================================================================== *)
(** * The wording of the specification, for comparison with the code *)
(* ===================================================================== *)

(** A rate-limit failure as the specification has it: a response with the
    HTTP status 429, or the resource-exhausted signal of the vendor.  The
    code also takes for one every error whose message contains 429
    ([isRateLimitError]). *)
Definition isRateLimitFailure_claimed (error : exn) : bool :=
  (match error with FetchError _ status => status =? 429 | _ => false end)
  || includes (errorMessage error) "RESOURCE_EXHAUSTED".

Module JsonClaim.

(** No code unit of [s] is white space. *)
Fixpoint noWhiteSpace (s : string) : bool :=
  match s with
  | EmptyString => true
  | String c s' => negb (isWhiteSpace c) && noWhiteSpace s'
  end.

(** [body] is the trimmed body of a fenced code block of [text], as the
    specification has it: an opening fence with any tag up to the end of
    its line ([json], [js], none), the lines of the block, and the closing
    fence. *)
Inductive FencedBody (text body : string) : Prop :=
| fencedBody (pre tag inner post : string) :
    text = pre ++ Regex.fence ++ tag ++ nl ++ inner ++ Regex.fence ++ post ->
    noWhiteSpace tag = true ->
    body = trim inner ->
    FencedBody text body.

(** The closing character that matches an opening one. *)
Definition matching (opening : ascii) : string :=
  if Ascii.eqb opening "{" then "}" else "]".

(** The span as the specification has it: from the first opening brace or
    bracket to the last closing character that matches it. *)
Definition span (text : string) : option string :=
  let startIndex := startIndexOf text in
  if startIndex =? -1 then None
  else
    match get (Z.to_nat startIndex) text with
    | None => None
    | Some opening =>
        let endIndex := lastIndexOf text (matching opening) in
        if (endIndex =? -1) || (endIndex <? startIndex) then None
        else Some (trim (substring text startIndex (endIndex + 1)))
    end.

End JsonClaim.
(* ===================================================================== *)
(** * Test doubles and sample inputs *)
(* ===================================================================== *)

(** A mock operation that counts its calls: rate-limited twice, then the
    answer 42. *)
Definition mockRateLimitedTwice (calls : nat) : (exn + Z) * nat :=
  if (calls <? 2)%nat
  then (inl (FetchError "API request failed with status 429" 429),
        Datatypes.S calls)
  else (inr 42, Datatypes.S calls).

(** A mock operation that is rate-limited once and then refuses. *)
Definition mockRateLimitedThenDenied (calls : nat) : (exn + Z) * nat :=
  if (calls <? 1)%nat
  then (inl (Error "RESOURCE_EXHAUSTED: quota"), Datatypes.S calls)
  else (inl (FetchError "API request failed with status 401" 401),
        Datatypes.S calls).


(** The outside world of the examples: a script of replies, consumed one per
    request. *)
Record Script : Type := mkScript {
  httpReplies : list (exn + Response);
  sdkReplies : list (exn + string)
}.

Definition scriptedFetch (_ : Request) (s : Script) : (exn + Response) * Script :=
  match httpReplies s with
  | [] => (inl (TypeError "Failed to fetch"), s)
  | r :: rs => (r, mkScript rs (sdkReplies s))
  end.

Definition scriptedGenerateContent (_ _ : string) (_ : bool) (s : Script)
    : (exn + string) * Script :=
  match sdkReplies s with
  | [] => (inl (TypeError "Failed to fetch"), s)
  | r :: rs => (r, mkScript (httpReplies s) rs)
  end.

(** A parser that knows the sample documents: it returns the sample body
    whose serialisation is the given text, and an empty body otherwise. *)
Definition sampleParser (samples : list (list node)) (html : string) : list node :=
  match find (fun doc => String.eqb (innerHTML doc) html) samples with
  | Some doc => doc
  | None => []
  end.

(** A JSON parser that knows one reply. *)
Definition sampleBriefs : list BriefResult :=
  [mkBriefResult 1 "a lighthouse at dusk" "Lighthouse at dusk"].

Definition sampleParse (jsonString : string) : exn + list BriefResult :=
  if String.eqb jsonString "[1]" then inr sampleBriefs
  else inl (SyntaxError "Unexpected token").

Definition samplePlatform (samples : list (list node)) : Platform Script := {|
  env_API_KEY := Some "test-key";
  fetch := scriptedFetch;
  generateContent := scriptedGenerateContent;
  parseFromString := sampleParser samples;
  parseFragment := sampleParser samples;
  JSON_parse := sampleParse;
  JSON_stringify := fun _ => "[]";
  btoa := fun s => s
|}.

(** A successful chat completion carrying [content]. *)
Definition chatReply (content : string) : exn + Response :=
  inr (mkResponse true 200 "OK" []
         (inr (JChat (mkChatData (Some [mkChoice (Some content) (Some "stop")]))))).

Definition groqWithoutKeyOrModel : AnalysisAIConfig :=
  mkAnalysisAIConfig TextAIProvider.Groq None None.

Definition groqWithoutModel : AnalysisAIConfig :=
  mkAnalysisAIConfig TextAIProvider.Groq (Some "gsk-key") None.

Definition groqConfig : AnalysisAIConfig :=
  mkAnalysisAIConfig TextAIProvider.Groq (Some "gsk-key") (Some "llama3-8b-8192").

Definition openAIWithoutModel : AnalysisAIConfig :=
  mkAnalysisAIConfig TextAIProvider.OpenAI (Some "sk-key") None.

(** A successful WordPress reply without the [X-WP-Total] header, and one
    with it. *)
Definition replyWithoutTotal : exn + Response :=
  inr (mkResponse true 200 "OK" [("Content-Type", "application/json")]
         (inr (JPosts []))).

Definition replyWithTotal (total : string) : exn + Response :=
  inr (mkResponse true 200 "OK" [("x-wp-total", total)] (inr (JPosts []))).

(** Posts of the backlog examples; only the featured image and the image
    count matter to the sort. *)
Definition samplePost (id featured count : Z) : WordPressPost :=
  mkPost id "title" "excerpt" "content" featured count.

Definition postManyImages : WordPressPost := samplePost 1 0 1500.
Definition postFeatured : WordPressPost := samplePost 2 5 0.

(** The reply of the specification's example: prose, then a fenced block
    tagged [json] around an object. *)
Definition jsonObject : string := "{" ++ dq ++ "a" ++ dq ++ ":1}".

Definition fencedReply : string :=
  "here's the data:" ++ nl ++ "```json" ++ nl ++ jsonObject ++ nl ++ "```".

(** A reply without a fence in which a JSON array stands between prose. *)
Definition proseReply : string := "Sure: [1, 2] done".

(** Twenty-one posts: a full batch and a batch of one. *)
Definition twentyOnePosts : list WordPressPost :=
  map (fun n => samplePost (Z.of_nat n) 0 0) (seq 1 21).

(** A reply that is refused for a reason other than a rate limit. *)
Definition serverError : exn + Response :=
  inr (mkResponse false 500 "Internal Server Error" [] (inr JOther)).

(** Sample documents.  [paragraphOf n c] is a paragraph whose text is [n]
    times the code unit [c]. *)
Fixpoint repeatChar (n : nat) (c : ascii) : string :=
  match n with
  | O => EmptyString
  | Datatypes.S n' => String c (repeatChar n' c)
  end.

Definition paragraphOf (n : nat) (c : ascii) : node :=
  Element "p" [] [Text (repeatChar n c)].

(** Three paragraphs of 90 code units each. *)
Definition threeLongParagraphs : list node :=
  [paragraphOf 90 "A"; paragraphOf 90 "B"; paragraphOf 90 "C"].

(** Three paragraphs of exactly 80 code units each. *)
Definition threeEightyParagraphs : list node :=
  [paragraphOf 80 "A"; paragraphOf 80 "B"; paragraphOf 80 "C"].

(** Two short paragraphs. *)
Definition twoShortParagraphs : list node :=
  [paragraphOf 5 "A"; paragraphOf 5 "B"].

Definition sampleDocuments : list (list node) :=
  [threeLongParagraphs; threeEightyParagraphs; twoShortParagraphs].

(** A world in which the next chat completion says [content]. *)
Definition worldReplying (content : string) : World Script :=
  mkWorld (mkScript [chatReply content] []) [].

(** A mock operation that is always rate-limited. *)
Definition mockAlwaysRateLimited (calls : nat) : (exn + Z) * nat :=
  (inl (Error "RESOURCE_EXHAUSTED: quota"), Datatypes.S calls).

(** A provider that answers every request with status 429. *)
Definition busyPlatform : Platform nat := {|
  env_API_KEY := None;
  fetch := fun _ served =>
    (inr (mkResponse false 429 "Too Many Requests" [] (inr JOther)),
     Datatypes.S served);
  generateContent := fun _ _ _ served =>
    (inl (Error "RESOURCE_EXHAUSTED"), Datatypes.S served);
  parseFromString := fun _ => [];
  parseFragment := fun _ => [];
  JSON_parse := fun _ => inr [];
  JSON_stringify := fun _ => "[]";
  btoa := fun s => s
|}.

(** A reply with an HTTP error status. *)
Definition errorReply (status : Z) : exn + Response :=
  inr (mkResponse false status "Error" [] (inr JOther)).

(** A request that is aborted by the timer. *)
Definition abortedReply : exn + Response :=
  inl (DOMException "AbortError" "The user aborted a request.").

Definition openAIWithoutKey : AnalysisAIConfig :=
  mkAnalysisAIConfig TextAIProvider.OpenAI None (Some "gpt-4").

Definition geminiConfig : AnalysisAIConfig :=
  mkAnalysisAIConfig TextAIProvider.Gemini None None.

(** A page of the posts listing. *)
Definition rawPost (id featured : Z) : RawPost :=
  mkRawPost id "title" "excerpt" "content" featured.

Definition pageReply (posts : list RawPost) : exn + Response :=
  inr (mkResponse true 200 "OK" [] (inr (JPosts posts))).

(** A site that announces three posts and serves them two to a page; the
    second page holds a post that was published in the meantime. *)
Definition siteOfThree : World Script :=
  mkWorld (mkScript [replyWithTotal "3";
                     pageReply [rawPost 1 7; rawPost 2 0];
                     pageReply [rawPost 3 0; rawPost 4 9]] []) [].

(** An image service whose model answers with two images, and which reads
    every response as a small PNG. *)
Definition sampleImagePlatform : ImagePlatform Script := {|
  generateImages := fun _ _ _ s => (inr ["Zmlyc3Q="; "c2Vjb25k"], s);
  encodeURIComponent := fun s => replaceChar " " "%20" s;
  readAsDataURL := fun _ s => (inr "data:image/png;base64,iVBORw0KGgo=", s);
  generateContentWithImage := fun _ _ s => (inr "{}", s);
  JsonValue := string;
  JSON_parse_value := fun s => inr s
|}.

Definition webpSettings : ImageSettings :=
  mkImageSettings ImageFormat.WebP 85 AspectRatio.Landscape
    "photorealistic, cinematic, high detail" "text, logos, watermarks, blurry".



(** The form as it is first shown, with the site filled in and DALL-E 3
    selected for the images. *)
Definition dalleForm : ConfigurationStep.FormState :=
  ConfigurationStep.mkFormState "https://blog.example/" "admin" "app pass"
    AIProvider.DallE3 TextAIProvider.Gemini EmptyString "llama3-8b-8192"
    ImageFormat.WebP 85 AspectRatio.Landscape
    "photorealistic, cinematic, high detail" "text, logos, watermarks, blurry".

(** A mock operation whose reply never parses: the position in the message
    of the [SyntaxError] happens to contain 429. *)
Definition mockMalformedReply (calls : nat) : (exn + Z) * nat :=
  (inl (SyntaxError "Unexpected token < in JSON at position 1429"),
   Datatypes.S calls).

(** A reply whose fence carries the tag [js]. *)
Definition jsFencedReply : string :=
  "```js" ++ nl ++ "{}" ++ nl ++ "```".




(** A content without paragraphs, and the same content with the marker in
    front, as the parser reads them. *)
Definition plainBody : list node := [Text "plain text"].

Definition plainBodyMarked : list node :=
  [Comment " INSERT_IMAGE_HERE "; Text (nl ++ "plain text")].
(* ===================================================================== *)
(** * Facts about strings *)
(* ===================================================================== *)

Module StringFacts.

Local Open Scope string_scope.

Lemma append_assoc (a b c : string) : (a ++ b) ++ c = a ++ (b ++ c).
Proof. induction a as [|x a IH]; cbn; [reflexivity|now rewrite IH]. Qed.

Lemma append_nil_r (a : string) : a ++ EmptyString = a.
Proof. induction a as [|x a IH]; cbn; [reflexivity|now rewrite IH]. Qed.

Lemma length_append (a b : string) :
  String.length (a ++ b) = (String.length a + String.length b)%nat.
Proof. induction a as [|x a IH]; cbn; [reflexivity|now rewrite IH]. Qed.

Lemma drop_append (a b : string) : drop (String.length a) (a ++ b) = b.
Proof. induction a as [|x a IH]; cbn; [reflexivity|exact IH]. Qed.

Lemma take_append (a b : string) : take (String.length a) (a ++ b) = a.
Proof. induction a as [|x a IH]; cbn; [reflexivity|now rewrite IH]. Qed.

Lemma take_drop (n : nat) (s : string) : take n s ++ drop n s = s.
Proof.
  revert s; induction n as [|n IH]; intros [|c s]; cbn; try reflexivity.
  now rewrite IH.
Qed.

Lemma length_take (n : nat) (s : string) :
  (n <= String.length s)%nat -> String.length (take n s) = n.
Proof.
  revert s; induction n as [|n IH]; intros [|c s]; cbn; intros H;
    try reflexivity; try lia.
  rewrite IH by lia. reflexivity.
Qed.

Lemma drop_drop (n m : nat) (s : string) : drop n (drop m s) = drop (m + n) s.
Proof.
  revert s; induction m as [|m IH]; intros s; cbn; [reflexivity|].
  destruct s as [|c s]; [destruct n; reflexivity|apply IH].
Qed.

Lemma drop_nil (n : nat) : drop n EmptyString = EmptyString.
Proof. destruct n; reflexivity. Qed.

Lemma drop_all (n : nat) (s : string) :
  (String.length s <= n)%nat -> drop n s = EmptyString.
Proof.
  revert s; induction n as [|n IH]; intros [|c s]; cbn; intros H;
    try reflexivity; try lia.
  apply IH. lia.
Qed.

Lemma drop_append_lt (n : nat) (a b : string) :
  (n <= String.length a)%nat -> drop n (a ++ b) = drop n a ++ b.
Proof.
  revert a; induction n as [|n IH]; intros [|c a]; cbn; intros H;
    try reflexivity; try lia.
  apply IH. lia.
Qed.

Lemma get_drop (n k : nat) (s : string) : get k (drop n s) = get (n + k) s.
Proof.
  revert s; induction n as [|n IH]; intros s; cbn; [reflexivity|].
  destruct s as [|c s]; [destruct k; reflexivity|apply IH].
Qed.

Lemma get_Some_lt (k : nat) (s : string) c :
  get k s = Some c -> (k < String.length s)%nat.
Proof.
  revert k; induction s as [|x s IH]; intros [|k]; cbn; intros H;
    try discriminate; try lia.
  apply IH in H. lia.
Qed.

Lemma get_lt_Some (k : nat) (s : string) :
  (k < String.length s)%nat -> exists c, get k s = Some c.
Proof.
  revert k; induction s as [|x s IH]; intros [|k]; cbn; intros H; try lia.
  - eauto.
  - apply IH. lia.
Qed.

Lemma drop_get (k : nat) (s : string) c :
  get k s = Some c -> drop k s = String c (drop (Datatypes.S k) s).
Proof.
  revert k; induction s as [|x s IH]; intros [|k]; cbn; intros H;
    try discriminate.
  - injection H as ->. reflexivity.
  - apply IH, H.
Qed.

(** [startsWith] is decomposition into the needle and a rest. *)
Lemma startsWith_append (needle rest : string) :
  startsWith (needle ++ rest) needle = true.
Proof.
  unfold startsWith. induction needle as [|c n IH]; cbn.
  - destruct rest; reflexivity.
  - destruct (ascii_dec c c); [exact IH|congruence].
Qed.

Lemma startsWith_split (s needle : string) :
  startsWith s needle = true -> s = needle ++ drop (String.length needle) s.
Proof.
  unfold startsWith. revert s; induction needle as [|c n IH]; intros s H.
  - reflexivity.
  - destruct s as [|x s]; cbn in H; [discriminate|].
    destruct (ascii_dec c x); [|discriminate]. subst x. cbn.
    f_equal. apply IH, H.
Qed.

Lemma startsWith_nil (s : string) : startsWith s EmptyString = true.
Proof. destruct s; reflexivity. Qed.

Lemma startsWith_cons c n x s :
  startsWith (String x s) (String c n) = Ascii.eqb c x && startsWith s n.
Proof.
  unfold startsWith. cbn. destruct (ascii_dec c x) as [->|Hne].
  - now rewrite Ascii.eqb_refl.
  - apply Ascii.eqb_neq in Hne. now rewrite Hne.
Qed.

(** Only the first [length needle] code units matter to [startsWith]. *)
Lemma startsWith_append_l (a b needle : string) :
  (String.length needle <= String.length a)%nat ->
  startsWith (a ++ b) needle = startsWith a needle.
Proof.
  revert a; induction needle as [|c n IH]; intros a H.
  - now rewrite !startsWith_nil.
  - destruct a as [|x a]; cbn in H; [lia|]. cbn [append].
    rewrite !startsWith_cons. rewrite IH by lia. reflexivity.
Qed.

Lemma trimStart_white_append (ws s : string) :
  JsonPolicy.allWhite ws = true -> trimStart (ws ++ s) = trimStart s.
Proof.
  induction ws as [|c ws IH]; cbn; intros H; [reflexivity|].
  apply andb_true_iff in H as [Hc Hws]. rewrite Hc. apply IH, Hws.
Qed.

Lemma trimStart_idem (s : string) : trimStart (trimStart s) = trimStart s.
Proof.
  induction s as [|c s IH]; cbn; [reflexivity|].
  destruct (isWhiteSpace c) eqn:Hc; [exact IH|]. cbn. now rewrite Hc.
Qed.

(** A string splits into a run of white space and its [trimStart]. *)
Lemma trimStart_split (s : string) :
  exists ws, JsonPolicy.allWhite ws = true /\ s = ws ++ trimStart s.
Proof.
  induction s as [|c s (ws & Hws & Hs)]; cbn.
  - exists EmptyString. split; reflexivity.
  - destruct (isWhiteSpace c) eqn:Hc.
    + exists (String c ws). cbn. rewrite Hc, Hws. split; [reflexivity|].
      now rewrite <- Hs.
    + exists EmptyString. split; reflexivity.
Qed.

Lemma trimStart_nonwhite c s :
  isWhiteSpace c = false -> trimStart (String c s) = String c s.
Proof. intros H. cbn. now rewrite H. Qed.

Lemma trimStart_append_nonwhite (a b : string) :
  a <> EmptyString -> JsonPolicy.noLeadingWhite a -> trimStart (a ++ b) = a ++ b.
Proof.
  unfold JsonPolicy.noLeadingWhite. destruct a as [|c a]; [congruence|].
  intros _ H. cbn in *. destruct (isWhiteSpace c) eqn:Hc; [|reflexivity].
  exfalso.
  assert (Hlen : (String.length (trimStart a) <= String.length a)%nat).
  { clear. induction a as [|x a IH]; cbn; [lia|].
    destruct (isWhiteSpace x); cbn; lia. }
  rewrite H in Hlen. cbn in Hlen. lia.
Qed.





End StringFacts.

(* ===================================================================== *)
(** * The fence pattern *)
(* ===================================================================== *)

Module RegexFacts.

Import StringFacts Regex JsonPolicy.

Local Open Scope list_scope.

Lemma hd_error_app {A} (l1 l2 : list A) :
  hd_error (l1 ++ l2) =
  match hd_error l1 with Some v => Some v | None => hd_error l2 end.
Proof. destruct l1; reflexivity. Qed.

Lemma hd_error_map {A B} (f : A -> B) (l : list A) :
  hd_error (map f l) = option_map f (hd_error l).
Proof. destruct l; reflexivity. Qed.

Lemma flat_map_map {A B C} (f : B -> list C) (g : A -> B) (l : list A) :
  flat_map f (map g l) = flat_map (fun x => f (g x)) l.
Proof. induction l as [|x l IH]; cbn; [reflexivity|now rewrite IH]. Qed.

Lemma map_flat_map {A B C} (f : B -> C) (g : A -> list B) (l : list A) :
  map f (flat_map g l) = flat_map (fun x => map f (g x)) l.
Proof.
  induction l as [|x l IH]; cbn; [reflexivity|].
  now rewrite map_app, IH.
Qed.

Lemma flat_map_ext' {A B} (f g : A -> list B) (l : list A) :
  (forall x, f x = g x) -> flat_map f l = flat_map g l.
Proof. intros H. induction l as [|x l IH]; cbn; [reflexivity|now rewrite H, IH]. Qed.

(** A fence does not start with white space. *)
Lemma white_not_fence c s :
  isWhiteSpace c = true -> startsWith (String c s) fence = false.
Proof.
  intros Hc. unfold fence. rewrite startsWith_cons.
  destruct (Ascii.eqb_spec "`"%char c) as [<-|]; [discriminate Hc|reflexivity].
Qed.

Lemma lit_fence_white c s :
  isWhiteSpace c = true -> lit fence (String c s) = [].
Proof. intros Hc. unfold lit. now rewrite white_not_fence. Qed.

(** The closing part succeeds exactly when a fence follows the white
    space. *)
Lemma closing_head c r :
  hd_error (closing c r) =
  if startsWith (trimStart r) fence then Some c else None.
Proof.
  unfold closing. induction r as [|x r IH].
  - reflexivity.
  - cbn [ws_star trimStart]. destruct (isWhiteSpace x) eqn:Hx.
    + rewrite flat_map_app, hd_error_app, IH.
      destruct (startsWith (trimStart r) fence); [reflexivity|].
      cbn [flat_map]. rewrite app_nil_r, lit_fence_white by exact Hx.
      reflexivity.
    + cbn [flat_map]. rewrite app_nil_r. unfold lit.
      destruct (startsWith (String x r) fence); reflexivity.
Qed.

Lemma closing_cons x c r : closing (String x c) r = map (String x) (closing c r).
Proof.
  unfold closing. rewrite map_flat_map. apply flat_map_ext'. intros r4.
  rewrite map_flat_map. apply flat_map_ext'. reflexivity.
Qed.

(** The lazy capture with its closing part. *)
Lemma lazy_head r :
  hd_error (flat_map (fun cr => closing (fst cr) (snd cr)) (lazy_any r)) =
  lazyScan r.
Proof.
  induction r as [|x r IH].
  - cbn [lazy_any flat_map fst snd]. rewrite app_nil_r, closing_head. reflexivity.
  - cbn [lazy_any flat_map fst snd lazyScan].
    rewrite hd_error_app, closing_head.
    destruct (startsWith (trimStart (String x r)) fence); [reflexivity|].
    rewrite flat_map_map. cbn [fst snd].
    rewrite (flat_map_ext' _ (fun cr => map (String x) (closing (fst cr) (snd cr))))
      by (intros cr; apply closing_cons).
    rewrite <- map_flat_map, hd_error_map, IH. reflexivity.
Qed.

Lemma lazyScan_None_head s :
  lazyScan s = None -> startsWith (trimStart s) fence = false.
Proof.
  destruct s as [|c s]; cbn [lazyScan];
    destruct (startsWith _ fence); congruence.
Qed.

Lemma lazyScan_white c s :
  isWhiteSpace c = true -> lazyScan s = None -> lazyScan (String c s) = None.
Proof.
  intros Hc Hs. cbn [lazyScan trimStart]. rewrite Hc.
  rewrite (lazyScan_None_head s Hs), Hs. reflexivity.
Qed.

Lemma lazyScan_trimStart_None s :
  lazyScan (trimStart s) = None -> lazyScan s = None.
Proof.
  induction s as [|c s IH]; cbn [trimStart]; [auto|].
  destruct (isWhiteSpace c) eqn:Hc; [|auto].
  intros H. apply lazyScan_white; auto.
Qed.

(** A code unit that is neither white space nor a backquote is skipped by
    the scan. *)
Lemma lazyScan_plain c s :
  isWhiteSpace c = false -> Ascii.eqb "`"%char c = false ->
  lazyScan (String c s) = option_map (String c) (lazyScan s).
Proof.
  intros Hw Hb. cbn [lazyScan trimStart]. rewrite Hw.
  unfold fence. rewrite startsWith_cons, Hb. reflexivity.
Qed.

(** The white space after the tag, with what follows. *)
Lemma ws_head r1 :
  hd_error
    (flat_map (fun r2 =>
       flat_map (fun cr => closing (fst cr) (snd cr)) (lazy_any r2))
       (ws_star r1)) =
  lazyScan (trimStart r1).
Proof.
  induction r1 as [|x r IH].
  - cbn [ws_star flat_map trimStart]. rewrite app_nil_r. apply lazy_head.
  - cbn [ws_star trimStart]. destruct (isWhiteSpace x) eqn:Hx.
    + rewrite flat_map_app, hd_error_app, IH.
      destruct (lazyScan (trimStart r)) eqn:Hscan; [reflexivity|].
      cbn [flat_map]. rewrite app_nil_r, lazy_head.
      apply lazyScan_white; [exact Hx|].
      apply lazyScan_trimStart_None, Hscan.
    + cbn [flat_map]. rewrite app_nil_r. apply lazy_head.
Qed.

Lemma lazyScan_json t :
  lazyScan t = None -> lazyScan ("json" ++ t)%string = None.
Proof.
  intros H. cbn [append].
  rewrite !lazyScan_plain by reflexivity. rewrite H. reflexivity.
Qed.

(** The whole pattern at the head of the input. *)
Lemma match_here_head s : hd_error (match_here s) = firstMatchHere s.
Proof.
  change (match_here s) with
    (flat_map (fun r0 =>
       flat_map (fun r1 =>
         flat_map (fun r2 =>
           flat_map (fun cr => closing (fst cr) (snd cr)) (lazy_any r2))
           (ws_star r1))
         (opt_json r0))
       (lit fence s)).
  unfold firstMatchHere, lit.
  destruct (startsWith s fence) eqn:Hf; [|reflexivity].
  cbn [flat_map]. rewrite app_nil_r.
  change (String.length fence) with 3%nat.
  set (r0 := drop 3 s).
  unfold opt_json, lit, skipJson.
  destruct (startsWith r0 "json") eqn:Hj.
  - cbn [app flat_map]. rewrite app_nil_r, hd_error_app, !ws_head.
    change (String.length "json") with 4%nat.
    destruct (lazyScan (trimStart (drop 4 r0))) eqn:Hscan; [reflexivity|].
    apply startsWith_split in Hj. change (String.length "json") with 4%nat in Hj.
    rewrite Hj at 1. cbn [append].
    rewrite trimStart_nonwhite by reflexivity.
    apply (lazyScan_json (drop 4 r0)).
    apply lazyScan_trimStart_None, Hscan.
  - cbn [app flat_map]. rewrite app_nil_r. apply ws_head.
Qed.

Lemma length_trimStart s : (String.length (trimStart s) <= String.length s)%nat.
Proof.
  induction s as [|x s IH]; cbn; [lia|].
  destruct (isWhiteSpace x); cbn; lia.
Qed.

Lemma trimStart_fixed_head c s :
  trimStart (String c s) = String c s -> isWhiteSpace c = false.
Proof.
  cbn. destruct (isWhiteSpace c); [|reflexivity].
  intros H. pose proof (length_trimStart s) as Hl. rewrite H in Hl.
  cbn in Hl. lia.
Qed.

Lemma occursAt_0 n s : occursAt n s 0 <-> startsWith s n = true.
Proof. reflexivity. Qed.

Lemma occursAt_S n c s i : occursAt n (String c s) (Datatypes.S i) <-> occursAt n s i.
Proof. reflexivity. Qed.

Lemma occursAt_drop n s q k :
  (k <= q)%nat -> occursAt n s q -> occursAt n (drop k s) (q - k).
Proof.
  unfold occursAt. intros Hk H. rewrite drop_drop.
  replace (k + (q - k))%nat with q by lia. exact H.
Qed.

Lemma occursAt_middle n a b : occursAt n (a ++ n ++ b)%string (String.length a).
Proof. unfold occursAt. rewrite drop_append. apply startsWith_append. Qed.

(** A fence cannot begin at a code unit that is not a backquote. *)
Lemma fence_not_at c s q :
  Ascii.eqb "`"%char c = false -> occursAt fence (String c s) q ->
  exists q', q = Datatypes.S q' /\ occursAt fence s q'.
Proof.
  intros Hc H. destruct q as [|q'].
  - unfold occursAt in H. cbn [drop] in H. unfold fence in H.
    rewrite startsWith_cons, Hc in H. discriminate.
  - exists q'. split; [reflexivity|exact H].
Qed.

Lemma white_not_backquote c :
  isWhiteSpace c = true -> Ascii.eqb "`"%char c = false.
Proof.
  intros Hc. destruct (Ascii.eqb_spec "`"%char c) as [<-|]; [discriminate|reflexivity].
Qed.

Lemma fence_after_white ws s q :
  allWhite ws = true -> occursAt fence (ws ++ s)%string q ->
  exists q', occursAt fence s q'.
Proof.
  revert q; induction ws as [|c ws IH]; intros q Hws H.
  - exists q. exact H.
  - cbn in Hws. apply andb_true_iff in Hws as [Hc Hws].
    cbn [append] in H.
    apply fence_not_at in H as (q' & _ & H); [|apply white_not_backquote, Hc].
    apply (IH q' Hws H).
Qed.

(** A fence that occurs in the input still occurs after the tag and the
    white space have been taken. *)
Lemma fence_survives u q :
  occursAt fence u q -> exists q', occursAt fence (trimStart (skipJson u)) q'.
Proof.
  intros H.
  assert (H1 : exists q1, occursAt fence (skipJson u) q1).
  { unfold skipJson. destruct (startsWith u "json") eqn:Hj; [|eauto].
    apply startsWith_split in Hj. change (String.length "json") with 4%nat in Hj.
    rewrite Hj in H. cbn [append] in H.
    apply fence_not_at in H as (q1 & _ & H); [|reflexivity].
    apply fence_not_at in H as (q2 & _ & H); [|reflexivity].
    apply fence_not_at in H as (q3 & _ & H); [|reflexivity].
    apply fence_not_at in H as (q4 & _ & H); [|reflexivity].
    eauto. }
  destruct H1 as (q1 & H1).
  destruct (trimStart_split (skipJson u)) as (ws & Hws & Hsplit).
  rewrite Hsplit in H1. apply (fence_after_white ws _ q1 Hws H1).
Qed.

Lemma lazyScan_hit s :
  startsWith (trimStart s) fence = true -> lazyScan s = Some EmptyString.
Proof. intros H. destruct s; cbn [lazyScan]; rewrite H; reflexivity. Qed.

Lemma lazyScan_miss c s :
  startsWith (trimStart (String c s)) fence = false ->
  lazyScan (String c s) = option_map (String c) (lazyScan s).
Proof. intros H. cbn [lazyScan]. rewrite H. reflexivity. Qed.

Lemma lazyScan_Some_nonempty s c cap :
  lazyScan s = Some (String c cap) -> startsWith (trimStart s) fence = false.
Proof.
  destruct s as [|x s]; cbn [lazyScan];
    destruct (startsWith _ fence); congruence.
Qed.

Lemma lazyScan_None_no_fence r :
  lazyScan r = None -> forall e, ~ occursAt fence r e.
Proof.
  induction r as [|c r IH]; intros Hscan e H.
  - unfold occursAt in H. rewrite drop_nil in H. discriminate.
  - pose proof (lazyScan_None_head _ Hscan) as Hhead.
    rewrite (lazyScan_miss _ _ Hhead) in Hscan.
    destruct (lazyScan r) eqn:Hr; [discriminate|].
    destruct e as [|e].
    + unfold occursAt in H. cbn [drop] in H.
      destruct (isWhiteSpace c) eqn:Hc.
      * rewrite white_not_fence in H by exact Hc. discriminate.
      * rewrite trimStart_nonwhite in Hhead by exact Hc. congruence.
    + apply (IH eq_refl e H).
Qed.

Lemma noTrailingWhite_tail c b :
  noTrailingWhite (String c b) -> noTrailingWhite b.
Proof.
  unfold noTrailingWhite. cbn. destruct (trimEnd b) eqn:Hb.
  - destruct (isWhiteSpace c); [discriminate|]. congruence.
  - congruence.
Qed.

Lemma noTrailingWhite_single c :
  noTrailingWhite (String c EmptyString) -> isWhiteSpace c = false.
Proof. unfold noTrailingWhite. cbn. destruct (isWhiteSpace c); congruence. Qed.

(** The scan returns a body that ends before the first fence and has no
    white space at its end. *)
Lemma lazyScan_sound body ws2 post :
  allWhite ws2 = true ->
  noTrailingWhite body ->
  (forall i, (i < String.length body)%nat ->
             ~ occursAt fence (body ++ ws2 ++ fence ++ post)%string i) ->
  lazyScan (body ++ ws2 ++ fence ++ post)%string = Some body.
Proof.
  intros Hws. induction body as [|c b IH]; intros Htrail Hocc.
  - cbn [append]. apply lazyScan_hit.
    rewrite trimStart_white_append by exact Hws.
    unfold fence at 1. cbn [append]. rewrite trimStart_nonwhite by reflexivity.
    apply (startsWith_append fence post).
  - cbn [append].
    assert (IHb : lazyScan (b ++ ws2 ++ fence ++ post)%string = Some b).
    { apply IH; [eapply noTrailingWhite_tail, Htrail|].
      intros i Hi. apply (Hocc (Datatypes.S i)). cbn. lia. }
    rewrite lazyScan_miss; [rewrite IHb; reflexivity|].
    destruct (isWhiteSpace c) eqn:Hc.
    + cbn [trimStart]. rewrite Hc.
      destruct b as [|c' b'].
      * apply noTrailingWhite_single in Htrail. congruence.
      * eapply lazyScan_Some_nonempty, IHb.
    + rewrite trimStart_nonwhite by exact Hc.
      destruct (startsWith _ fence) eqn:Hf; [|reflexivity].
      exfalso. apply (Hocc 0%nat); [cbn; lia|]. exact Hf.
Qed.

(** What the scan returns is such a body. *)
Lemma lazyScan_complete r :
  forall cap, lazyScan r = Some cap ->
  exists ws2 post,
    r = (cap ++ ws2 ++ fence ++ post)%string /\
    allWhite ws2 = true /\
    noTrailingWhite cap /\
    (forall i, (i < String.length cap)%nat -> ~ occursAt fence r i).
Proof.
  induction r as [|c r IH]; intros cap Hscan.
  - cbn in Hscan. discriminate.
  - destruct (startsWith (trimStart (String c r)) fence) eqn:Hhead.
    + rewrite (lazyScan_hit _ Hhead) in Hscan. injection Hscan as <-.
      destruct (trimStart_split (String c r)) as (ws & Hws & Hsplit).
      exists ws, (drop 3 (trimStart (String c r))).
      split; [|split; [exact Hws|split; [reflexivity|]]].
      * cbn [append]. rewrite Hsplit at 1. f_equal.
        apply (startsWith_split _ fence Hhead).
      * cbn. intros i Hi. lia.
    + rewrite (lazyScan_miss _ _ Hhead) in Hscan.
      destruct (lazyScan r) as [cap'|] eqn:Hr; [|discriminate].
      cbn in Hscan. injection Hscan as <-.
      destruct (IH cap' eq_refl) as (ws2 & post & Hsplit & Hws & Htrail & Hocc).
      assert (Hfirst : ~ occursAt fence (String c r) 0).
      { intros H. unfold occursAt in H. cbn [drop] in H.
        destruct (isWhiteSpace c) eqn:Hc.
        - rewrite white_not_fence in H by exact Hc. discriminate.
        - rewrite trimStart_nonwhite in Hhead by exact Hc. congruence. }
      exists ws2, post. split; [|split; [exact Hws|split]].
      * cbn [append]. now rewrite <- Hsplit.
      * unfold noTrailingWhite in *. cbn. rewrite Htrail.
        destruct cap' as [|c' cap'']; [|reflexivity].
        destruct (isWhiteSpace c) eqn:Hc; [|reflexivity].
        exfalso. cbn [trimStart] in Hhead. rewrite Hc in Hhead.
        cbn [append] in Hsplit. rewrite Hsplit in Hhead.
        rewrite trimStart_white_append in Hhead by exact Hws.
        unfold fence at 1 in Hhead. cbn [append] in Hhead.
        rewrite trimStart_nonwhite in Hhead by reflexivity.
        pose proof (startsWith_append fence post) as Hf.
        unfold fence at 1 in Hf. cbn [append] in Hf. congruence.
      * intros [|i] Hi; [exact Hfirst|].
        apply Hocc. cbn in Hi. lia.
Qed.

(** [exec] finds the first position at which the pattern matches. *)
Lemma exec_unfold s :
  exec s =
  match firstMatchHere s with
  | Some cap => Some cap
  | None => match s with
            | EmptyString => None
            | String _ s' => exec s'
            end
  end.
Proof. destruct s; cbn [exec]; rewrite match_here_head; reflexivity. Qed.


Lemma trimStart_fence post : trimStart (fence ++ post)%string = (fence ++ post)%string.
Proof. unfold fence. cbn [append]. apply trimStart_nonwhite. reflexivity. Qed.

(** Positions before the first fence are passed over. *)
Lemma exec_skip pre s :
  (forall i, (i < String.length pre)%nat -> ~ occursAt fence (pre ++ s)%string i) ->
  exec (pre ++ s)%string = exec s.
Proof.
  induction pre as [|c pre IH]; intros Hocc; [reflexivity|].
  cbn [append]. rewrite exec_unfold. unfold firstMatchHere.
  destruct (startsWith (String c (pre ++ s)) fence) eqn:Hf.
  - exfalso. apply (Hocc 0%nat); [cbn; lia|exact Hf].
  - apply IH. intros i Hi. apply (Hocc (Datatypes.S i)). cbn. lia.
Qed.

(** The matcher returns the body of the first fenced block. *)
Lemma exec_sound text body : FencedBlock text body -> exec text = Some body.
Proof.
  intros [pre lang ws1 ws2 post Htext Hfirst Hlang Hws1 Hws2 Hlead Htrail Hocc].
  subst text. rewrite exec_skip by exact Hfirst.
  rewrite exec_unfold. unfold firstMatchHere.
  rewrite startsWith_append.
  change 3%nat with (String.length fence). rewrite drop_append.
  assert (Hskip : skipJson (lang ++ ws1 ++ body ++ ws2 ++ fence ++ post)%string =
                  (ws1 ++ body ++ ws2 ++ fence ++ post)%string).
  { unfold skipJson. destruct Hlang as [->|[-> Hno]].
    - rewrite startsWith_append.
      change 4%nat with (String.length "json"). apply drop_append.
    - cbn [append]. rewrite Hno. reflexivity. }
  rewrite Hskip, trimStart_white_append by exact Hws1.
  destruct body as [|c b].
  - cbn [append]. rewrite trimStart_white_append by exact Hws2.
    rewrite trimStart_fence.
    rewrite lazyScan_hit; [reflexivity|].
    rewrite trimStart_fence.
    apply (startsWith_append fence post).
  - rewrite trimStart_append_nonwhite by (congruence || exact Hlead).
    rewrite lazyScan_sound by assumption. reflexivity.
Qed.

(** The position at which [exec] finds its match. *)
Lemma exec_position s cap :
  exec s = Some cap ->
  exists i,
    (i <= String.length s)%nat /\
    firstMatchHere (drop i s) = Some cap /\
    forall j, (j < i)%nat -> firstMatchHere (drop j s) = None.
Proof.
  induction s as [|c s IH]; rewrite exec_unfold.
  - destruct (firstMatchHere EmptyString) eqn:Hm; [|discriminate].
    intros H. injection H as ->. exists 0%nat.
    split; [cbn; lia|]. split; [exact Hm|]. intros j Hj. lia.
  - destruct (firstMatchHere (String c s)) eqn:Hm.
    + intros H. injection H as ->. exists 0%nat.
      split; [cbn; lia|]. split; [exact Hm|]. intros j Hj. lia.
    + intros H. destruct (IH H) as (i & Hi & Hmatch & Hbefore).
      exists (Datatypes.S i). split; [cbn; lia|]. split; [exact Hmatch|].
      intros [|j] Hj; [exact Hm|]. apply Hbefore. lia.
Qed.

(** What the matcher returns is the body of the first fenced block. *)
Lemma exec_complete text cap : exec text = Some cap -> FencedBlock text cap.
Proof.
  intros Hexec.
  destruct (exec_position text cap Hexec) as (i & Hi & Hmatch & Hbefore).
  unfold firstMatchHere in Hmatch.
  destruct (startsWith (drop i text) fence) eqn:Hopen; [|discriminate].
  set (u := drop 3 (drop i text)) in *.
  destruct (lazyScan_complete _ cap Hmatch)
    as (ws2 & post & Hsplit & Hws2 & Htrail & Hocc).
  destruct (trimStart_split (skipJson u)) as (ws1 & Hws1 & Hu1).
  rewrite Hsplit in Hu1.
  set (lang := if startsWith u "json" then "json"%string else EmptyString).
  assert (Hu : u = (lang ++ skipJson u)%string).
  { unfold lang, skipJson. destruct (startsWith u "json") eqn:Hj; [|reflexivity].
    apply (startsWith_split _ _ Hj). }
  assert (Htext : text = (take i text ++ fence ++ lang ++ ws1 ++ cap ++ ws2 ++
                          fence ++ post)%string).
  { rewrite <- Hu1, <- Hu. unfold u.
    change 3%nat with (String.length fence).
    rewrite <- (startsWith_split _ _ Hopen). symmetry. apply take_drop. }
  apply (fencedBlock text cap (take i text) lang ws1 ws2 post).
  - exact Htext.
  - rewrite length_take by exact Hi. intros j Hj Hfence.
    pose proof (Hbefore j Hj) as Hnone. unfold firstMatchHere in Hnone.
    unfold occursAt in Hfence. rewrite Hfence in Hnone.
    (* the closing fence of the match lies after position [j + 3] *)
    assert (Hclose : occursAt fence text
              (String.length (take i text ++ fence ++ lang ++ ws1 ++ cap ++ ws2)%string)).
    { rewrite Htext at 1.
      replace (take i text ++ fence ++ lang ++ ws1 ++ cap ++ ws2 ++ fence ++ post)%string
        with ((take i text ++ fence ++ lang ++ ws1 ++ cap ++ ws2) ++ fence ++ post)%string
        by (rewrite !append_assoc; reflexivity).
      apply occursAt_middle. }
    set (q := String.length (take i text ++ fence ++ lang ++ ws1 ++ cap ++ ws2)%string) in *.
    assert (Hq : (j + 3 <= q)%nat).
    { unfold q. rewrite !length_append, length_take by exact Hi.
      change (String.length fence) with 3%nat. lia. }
    apply (occursAt_drop _ _ _ (j + 3)%nat Hq) in Hclose.
    rewrite <- drop_drop in Hclose.
    destruct (fence_survives _ _ Hclose) as (q' & Hq').
    exact (lazyScan_None_no_fence _ Hnone q' Hq').
  - unfold lang. destruct (startsWith u "json") eqn:Hj; [left; reflexivity|].
    right. split; [reflexivity|].
    rewrite <- Hu1. unfold skipJson. rewrite Hj. exact Hj.
  - exact Hws1.
  - exact Hws2.
  - unfold noLeadingWhite. destruct cap as [|c cap']; [reflexivity|].
    pose proof (trimStart_idem (skipJson u)) as Hidem.
    rewrite Hsplit in Hidem. cbn [append] in Hidem.
    apply trimStart_fixed_head in Hidem. cbn. now rewrite Hidem.
  - exact Htrail.
  - intros k Hk. rewrite <- Hsplit. apply Hocc, Hk.
Qed.

End RegexFacts.

(* ===================================================================== *)
(** * Properties of [extractJson] *)
(* ===================================================================== *)

Module ExtractJsonFacts.

Import StringFacts Regex JsonPolicy RegexFacts.

Local Open Scope string_scope.
Local Open Scope Z_scope.

Lemma startsWith_char (s : string) (c : ascii) :
  startsWith s (String c EmptyString) =
  match s with
  | EmptyString => false
  | String x _ => Ascii.eqb c x
  end.
Proof.
  destruct s as [|x s]; [reflexivity|].
  rewrite startsWith_cons, startsWith_nil. apply andb_true_r.
Qed.

(** [indexOf] for a single code unit: -1 when it does not occur, else the
    least index at which it does. *)
Lemma indexOf_from_char c s : forall k,
  0 <= k ->
  (indexOf_from (String c EmptyString) s k = -1 /\
   forall i, get i s <> Some c) \/
  (exists i, indexOf_from (String c EmptyString) s k = k + Z.of_nat i /\
             get i s = Some c /\
             forall j, (j < i)%nat -> get j s <> Some c).
Proof.
  induction s as [|x s IH]; intros k Hk; cbn [indexOf_from];
    rewrite startsWith_char.
  - left. split; [reflexivity|]. intros i. destruct i; discriminate.
  - destruct (Ascii.eqb_spec c x) as [<-|Hne].
    + right. exists 0%nat. split; [lia|]. split; [reflexivity|].
      intros j Hj. lia.
    + destruct (IH (k + 1) ltac:(lia)) as [[Hnone Hall]|(i & Hi & Hget & Hmin)].
      * left. split; [exact Hnone|]. intros [|i]; cbn; [congruence|apply Hall].
      * right. exists (Datatypes.S i). split; [lia|]. split; [exact Hget|].
        intros [|j] Hj; cbn; [congruence|]. apply Hmin. lia.
Qed.

(** [lastIndexOf] for a single code unit: -1 when it does not occur, else
    the greatest index at which it does. *)
Lemma lastIndexOf_from_char c s : forall k,
  0 <= k ->
  (lastIndexOf_from (String c EmptyString) s k = -1 /\
   forall i, get i s <> Some c) \/
  (exists i, lastIndexOf_from (String c EmptyString) s k = k + Z.of_nat i /\
             get i s = Some c /\
             forall j, (i < j)%nat -> get j s <> Some c).
Proof.
  induction s as [|x s IH]; intros k Hk; cbn [lastIndexOf_from];
    rewrite startsWith_char.
  - left. split; [reflexivity|]. intros i. destruct i; discriminate.
  - destruct (IH (k + 1) ltac:(lia)) as [[Hnone Hall]|(i & Hi & Hget & Hmax)].
    + rewrite Hnone, Z.eqb_refl.
      destruct (Ascii.eqb_spec c x) as [<-|Hne].
      * right. exists 0%nat. split; [lia|]. split; [reflexivity|].
        intros [|j] Hj; [lia|]. cbn. apply Hall.
      * left. split; [reflexivity|]. intros [|i]; cbn; [congruence|apply Hall].
    + rewrite Hi. destruct (k + 1 + Z.of_nat i =? -1) eqn:Hm;
        [apply Z.eqb_eq in Hm; lia|].
      right. exists (Datatypes.S i). split; [lia|]. split; [exact Hget|].
      intros [|j] Hj; [lia|]. cbn. apply Hmax. lia.
Qed.

Lemma isOpening_cases c :
  isOpening c = true <-> c = "{"%char \/ c = "["%char.
Proof.
  unfold isOpening. rewrite orb_true_iff, !Ascii.eqb_eq. tauto.
Qed.

Lemma isClosing_cases c :
  isClosing c = true <-> c = "}"%char \/ c = "]"%char.
Proof.
  unfold isClosing. rewrite orb_true_iff, !Ascii.eqb_eq. tauto.
Qed.

Lemma startIndexOf_spec text :
  (startIndexOf text = -1 /\
   forall k c, get k text = Some c -> isOpening c = false) \/
  (exists i, startIndexOf text = Z.of_nat i /\ FirstOpening text i).
Proof.
  unfold startIndexOf, indexOf.
  destruct (indexOf_from_char "{" text 0 ltac:(lia))
    as [[Hb Hnb]|(ib & Hb & Hgb & Hmb)];
  destruct (indexOf_from_char "[" text 0 ltac:(lia))
    as [[Hs Hns]|(is_ & Hs & Hgs & Hms)];
  rewrite Hb, Hs.
  - left. split; [reflexivity|]. intros k c Hget.
    destruct (isOpening c) eqn:Hc; [|reflexivity].
    apply isOpening_cases in Hc as [->| ->]; [destruct (Hnb _ Hget)|destruct (Hns _ Hget)].
  - right. exists is_. rewrite Z.eqb_refl. split; [lia|]. split.
    + exists "["%char. split; [exact Hgs|reflexivity].
    + intros k c Hk Hget. destruct (isOpening c) eqn:Hc; [|reflexivity].
      apply isOpening_cases in Hc as [->| ->];
        [destruct (Hnb _ Hget)|destruct (Hms _ Hk Hget)].
  - right. exists ib.
    destruct (0 + Z.of_nat ib =? -1) eqn:E; [apply Z.eqb_eq in E; lia|].
    rewrite Z.eqb_refl. split; [lia|]. split.
    + exists "{"%char. split; [exact Hgb|reflexivity].
    + intros k c Hk Hget. destruct (isOpening c) eqn:Hc; [|reflexivity].
      apply isOpening_cases in Hc as [->| ->];
        [destruct (Hmb _ Hk Hget)|destruct (Hns _ Hget)].
  - right.
    destruct (0 + Z.of_nat ib =? -1) eqn:E; [apply Z.eqb_eq in E; lia|].
    destruct (0 + Z.of_nat is_ =? -1) eqn:E'; [apply Z.eqb_eq in E'; lia|].
    destruct (Nat.le_ge_cases ib is_) as [Hle|Hle].
    + exists ib. split; [lia|]. split.
      * exists "{"%char. split; [exact Hgb|reflexivity].
      * intros k c Hk Hget. destruct (isOpening c) eqn:Hc; [|reflexivity].
        apply isOpening_cases in Hc as [->| ->];
          [destruct (Hmb _ Hk Hget)|destruct (Hms k ltac:(lia) Hget)].
    + exists is_. split; [lia|]. split.
      * exists "["%char. split; [exact Hgs|reflexivity].
      * intros k c Hk Hget. destruct (isOpening c) eqn:Hc; [|reflexivity].
        apply isOpening_cases in Hc as [->| ->];
          [destruct (Hmb k ltac:(lia) Hget)|destruct (Hms _ Hk Hget)].
Qed.

Lemma endIndexOf_spec text :
  (endIndexOf text = -1 /\
   forall k c, get k text = Some c -> isClosing c = false) \/
  (exists j, endIndexOf text = Z.of_nat j /\ LastClosing text j).
Proof.
  unfold endIndexOf, lastIndexOf.
  destruct (lastIndexOf_from_char "}" text 0 ltac:(lia))
    as [[Hb Hnb]|(ib & Hb & Hgb & Hmb)];
  destruct (lastIndexOf_from_char "]" text 0 ltac:(lia))
    as [[Hs Hns]|(is_ & Hs & Hgs & Hms)];
  rewrite Hb, Hs.
  - left. split; [reflexivity|]. intros k c Hget.
    destruct (isClosing c) eqn:Hc; [|reflexivity].
    apply isClosing_cases in Hc as [->| ->]; [destruct (Hnb _ Hget)|destruct (Hns _ Hget)].
  - right. exists is_. split; [lia|]. split.
    + exists "]"%char. split; [exact Hgs|reflexivity].
    + intros k c Hk Hget. destruct (isClosing c) eqn:Hc; [|reflexivity].
      apply isClosing_cases in Hc as [->| ->];
        [destruct (Hnb _ Hget)|destruct (Hms _ Hk Hget)].
  - right. exists ib. split; [lia|]. split.
    + exists "}"%char. split; [exact Hgb|reflexivity].
    + intros k c Hk Hget. destruct (isClosing c) eqn:Hc; [|reflexivity].
      apply isClosing_cases in Hc as [->| ->];
        [destruct (Hmb _ Hk Hget)|destruct (Hns _ Hget)].
  - right. destruct (Nat.le_ge_cases ib is_) as [Hle|Hle].
    + exists is_. split; [lia|]. split.
      * exists "]"%char. split; [exact Hgs|reflexivity].
      * intros k c Hk Hget. destruct (isClosing c) eqn:Hc; [|reflexivity].
        apply isClosing_cases in Hc as [->| ->];
          [destruct (Hmb k ltac:(lia) Hget)|destruct (Hms _ Hk Hget)].
    + exists ib. split; [lia|]. split.
      * exists "}"%char. split; [exact Hgb|reflexivity].
      * intros k c Hk Hget. destruct (isClosing c) eqn:Hc; [|reflexivity].
        apply isClosing_cases in Hc as [->| ->];
          [destruct (Hmb _ Hk Hget)|destruct (Hms k ltac:(lia) Hget)].
Qed.

Lemma FirstOpening_unique text i i' :
  FirstOpening text i -> FirstOpening text i' -> i = i'.
Proof.
  intros [(c & Hc & Hoc) Hmin] [(c' & Hc' & Hoc') Hmin'].
  destruct (Nat.lt_trichotomy i i') as [Hlt|[Heq|Hgt]]; [|exact Heq|].
  - specialize (Hmin' i c Hlt Hc). congruence.
  - specialize (Hmin i' c' Hgt Hc'). congruence.
Qed.

Lemma LastClosing_unique text j j' :
  LastClosing text j -> LastClosing text j' -> j = j'.
Proof.
  intros [(c & Hc & Hoc) Hmax] [(c' & Hc' & Hoc') Hmax'].
  destruct (Nat.lt_trichotomy j j') as [Hlt|[Heq|Hgt]]; [|exact Heq|].
  - specialize (Hmax j' c' Hlt Hc'). congruence.
  - specialize (Hmax' j c Hgt Hc). congruence.
Qed.

Lemma substring_take_drop s (a b : nat) :
  (a <= b)%nat -> (b <= String.length s)%nat ->
  substring s (Z.of_nat a) (Z.of_nat b) = take (b - a) (drop a s).
Proof.
  intros Hab Hb. unfold substring, clamp.
  replace (Z.max 0 (Z.min (Z.of_nat a) (Z.of_nat (String.length s))))
    with (Z.of_nat a) by lia.
  replace (Z.max 0 (Z.min (Z.of_nat b) (Z.of_nat (String.length s))))
    with (Z.of_nat b) by lia.
  replace (Z.min (Z.of_nat a) (Z.of_nat b)) with (Z.of_nat a) by lia.
  replace (Z.max (Z.of_nat a) (Z.of_nat b)) with (Z.of_nat b) by lia.
  rewrite Nat2Z.id. f_equal. lia.
Qed.

Lemma get_take (n k : nat) (s : string) :
  (k < n)%nat -> get k (take n s) = get k s.
Proof.
  revert k s; induction n as [|n IH]; intros k s Hk; [lia|].
  destruct s as [|x s]; [reflexivity|]. destruct k as [|k]; cbn; [reflexivity|].
  apply IH. lia.
Qed.

Lemma trimEnd_last s c :
  get (String.length s - 1) s = Some c -> isWhiteSpace c = false ->
  trimEnd s = s.
Proof.
  induction s as [|x s IH]; intros Hget Hc; [reflexivity|].
  cbn [trimEnd]. destruct s as [|y s'].
  - cbn in Hget. injection Hget as ->. cbn. now rewrite Hc.
  - rewrite IH; [reflexivity| |exact Hc].
    cbn [String.length] in *.
    replace (Datatypes.S (Datatypes.S (String.length s')) - 1)%nat
      with (Datatypes.S (String.length s')) in Hget by lia.
    replace (Datatypes.S (String.length s') - 1)%nat
      with (String.length s') by lia.
    exact Hget.
Qed.

Lemma isOpening_nonwhite c : isOpening c = true -> isWhiteSpace c = false.
Proof. intros H. apply isOpening_cases in H as [->| ->]; reflexivity. Qed.

Lemma isClosing_nonwhite c : isClosing c = true -> isWhiteSpace c = false.
Proof. intros H. apply isClosing_cases in H as [->| ->]; reflexivity. Qed.

(** The span from an opening to a closing code unit is its own [trim]. *)
Lemma trim_span text i j :
  FirstOpening text i -> LastClosing text j -> (i <= j)%nat ->
  trim (take (j - i + 1) (drop i text)) = take (j - i + 1) (drop i text).
Proof.
  intros [(c & Hc & Hoc) _] [(c' & Hc' & Hoc') _] Hij.
  pose proof (get_Some_lt _ _ _ Hc') as Hj.
  set (span := take (j - i + 1) (drop i text)).
  assert (Hlen : String.length span = (j - i + 1)%nat).
  { unfold span. apply length_take.
    pose proof (take_drop i text) as Htd.
    assert (Hl : String.length (take i text ++ drop i text) = String.length text)
      by now rewrite Htd.
    rewrite length_append, length_take in Hl by lia. lia. }
  assert (Hfirst : get 0 span = Some c).
  { unfold span. rewrite get_take by lia. rewrite get_drop.
    now rewrite Nat.add_0_r. }
  assert (Hlast : get (String.length span - 1) span = Some c').
  { rewrite Hlen. unfold span. rewrite get_take by lia. rewrite get_drop.
    replace (i + (j - i + 1 - 1))%nat with j by lia. exact Hc'. }
  unfold trim. destruct span as [|x sp] eqn:Hspan; [reflexivity|].
  cbn in Hfirst. injection Hfirst as ->.
  rewrite trimStart_nonwhite by (apply isOpening_nonwhite, Hoc).
  apply (trimEnd_last _ c' Hlast). apply isClosing_nonwhite, Hoc'.
Qed.

Lemma extractJson_span_eq text :
  extractJson_span text =
  if startIndexOf text =? -1 then None
  else if (endIndexOf text =? -1) || (endIndexOf text <? startIndexOf text)
       then None
       else Some (trim (substring text (startIndexOf text)
                                  (endIndexOf text + 1))).
Proof. reflexivity. Qed.

(** The second half of [extractJson] returns the span from the first
    opening to the last closing code unit. *)
Lemma extractJson_span_found text i j :
  FirstOpening text i -> LastClosing text j -> (i <= j)%nat ->
  extractJson_span text = Some (take (j - i + 1) (drop i text)).
Proof.
  intros Hi Hj Hij. rewrite extractJson_span_eq.
  destruct (startIndexOf_spec text) as [[_ Hnone]|(i' & Hs & Hi')].
  { destruct Hi as [(c & Hc & Hoc) _]. rewrite (Hnone _ _ Hc) in Hoc. discriminate. }
  destruct (endIndexOf_spec text) as [[_ Hnone]|(j' & He & Hj')].
  { destruct Hj as [(c & Hc & Hoc) _]. rewrite (Hnone _ _ Hc) in Hoc. discriminate. }
  rewrite (FirstOpening_unique _ _ _ Hi' Hi) in Hs.
  rewrite (LastClosing_unique _ _ _ Hj' Hj) in He.
  rewrite Hs, He.
  destruct (Z.of_nat i =? -1) eqn:E1; [apply Z.eqb_eq in E1; lia|].
  destruct (Z.of_nat j =? -1) eqn:E2; [apply Z.eqb_eq in E2; lia|].
  destruct (Z.of_nat j <? Z.of_nat i) eqn:E3; [apply Z.ltb_lt in E3; lia|].
  cbn [orb]. f_equal.
  replace (Z.of_nat j + 1) with (Z.of_nat (j + 1)) by lia.
  assert (Hlt : (j < String.length text)%nat).
  { destruct Hj as [(c & Hc & _) _]. eapply get_Some_lt, Hc. }
  rewrite substring_take_drop by lia.
  replace (j + 1 - i)%nat with (j - i + 1)%nat by lia.
  apply trim_span; assumption.
Qed.

Lemma extractJson_span_Some text r :
  extractJson_span text = Some r ->
  exists i j, FirstOpening text i /\ LastClosing text j /\ (i <= j)%nat.
Proof.
  rewrite extractJson_span_eq.
  destruct (startIndexOf_spec text) as [[Hs _]|(i & Hs & Hi)]; rewrite Hs.
  { rewrite Z.eqb_refl. discriminate. }
  destruct (Z.of_nat i =? -1) eqn:E1; [discriminate|].
  destruct (endIndexOf_spec text) as [[He _]|(j & He & Hj)]; rewrite He.
  { rewrite Z.eqb_refl. discriminate. }
  destruct (Z.of_nat j =? -1) eqn:E2; [discriminate|].
  destruct (Z.of_nat j <? Z.of_nat i) eqn:E3; [discriminate|].
  intros _. exists i, j. apply Z.ltb_ge in E3.
  split; [exact Hi|split; [exact Hj|lia]].
Qed.

(** [text] has no fenced block with a body exactly when the pattern does
    not match or captures nothing. *)
Lemma NoFencedBody_exec text :
  NoFencedBody text <-> exec text = None \/ exec text = Some EmptyString.
Proof.
  split.
  - intros Hno. destruct (exec text) as [cap|] eqn:Hexec; [|now left].
    right. f_equal. apply Hno, exec_complete, Hexec.
  - intros [Hnone|Hempty] body Hf; apply exec_sound in Hf; congruence.
Qed.

Lemma extractJson_no_fenced_body text :
  NoFencedBody text -> extractJson text = extractJson_span text.
Proof.
  intros Hno. apply NoFencedBody_exec in Hno. unfold extractJson.
  destruct Hno as [-> | ->]; reflexivity.
Qed.

Lemma FencedBlock_trimmed text body : FencedBlock text body -> trim body = body.
Proof.
  intros [pre lang ws1 ws2 post _ _ _ _ _ Hlead Htrail _].
  unfold trim. rewrite Hlead. exact Htrail.
Qed.

(** C4 (amended).  [extractJson] is a total function.  When the text has a
    fenced code block with a body, the fence being three backquotes with
    the tag [json] or no tag, it returns that body, which is trimmed; a
    fence with another tag is read as a fence without tag, so that the tag
    is the beginning of the body.  Otherwise it returns the text from the
    first opening brace or bracket to the last closing brace or bracket of
    either kind, whether or not it matches the opening one.  It returns [None], the source's
    [null], exactly when neither gives a span.  The reply of the
    specification's example yields its JSON object, and a text without any
    marker yields [None]. *)
Theorem extractJson_policy :
  (forall text body,
      FencedBlock text body -> body <> EmptyString ->
      extractJson text = Some body /\ trim body = body) /\
  (forall text i j,
      NoFencedBody text ->
      FirstOpening text i -> LastClosing text j -> (i <= j)%nat ->
      extractJson text = Some (take (j - i + 1) (drop i text))) /\
  (forall text,
      extractJson text = None <->
      NoFencedBody text /\
      ~ (exists i j, FirstOpening text i /\ LastClosing text j /\ (i <= j)%nat)) /\
  extractJson fencedReply = Some jsonObject /\
  extractJson "no markers at all" = None.
Proof.
  split; [|split; [|split; [|split]]].
  - intros text body Hf Hne.
    split; [|apply (FencedBlock_trimmed _ _ Hf)].
    unfold extractJson. rewrite (exec_sound _ _ Hf).
    destruct body as [|c b]; [congruence|]. cbn [truthy].
    now rewrite (FencedBlock_trimmed _ _ Hf).
  - intros text i j Hno Hi Hj Hij.
    rewrite (extractJson_no_fenced_body _ Hno).
    apply extractJson_span_found; assumption.
  - intros text. split.
    + intros Hnone.
      assert (Hno : NoFencedBody text).
      { apply NoFencedBody_exec. unfold extractJson in Hnone.
        destruct (exec text) as [[|c cap]|]; [now right|discriminate|now left]. }
      split; [exact Hno|].
      rewrite (extractJson_no_fenced_body _ Hno) in Hnone.
      intros (i & j & Hi & Hj & Hij).
      rewrite (extractJson_span_found _ _ _ Hi Hj Hij) in Hnone. discriminate.
    + intros [Hno Hspan]. rewrite (extractJson_no_fenced_body _ Hno).
      destruct (extractJson_span text) as [r|] eqn:Hr; [|reflexivity].
      exfalso. apply Hspan. apply (extractJson_span_Some _ _ Hr).
  - reflexivity.
  - reflexivity.
Qed.

End ExtractJsonFacts.

(** The reply of the example has a fenced block whose body is the object. *)
Lemma fencedReply_block : JsonPolicy.FencedBlock fencedReply jsonObject.
Proof.
  apply (JsonPolicy.fencedBlock fencedReply jsonObject
           ("here's the data:" ++ nl) "json" nl nl EmptyString)%string.
  - reflexivity.
  - intros i Hi. unfold JsonPolicy.occursAt.
    do 17 (destruct i as [|i]; [cbv; discriminate|]).
    exfalso. cbn in Hi. lia.
  - left. reflexivity.
  - reflexivity.
  - reflexivity.
  - reflexivity.
  - reflexivity.
  - intros i Hi. unfold JsonPolicy.occursAt.
    do 7 (destruct i as [|i]; [cbv; discriminate|]).
    exfalso. cbn in Hi. lia.
Defined.

Lemma proseReply_no_fence : JsonPolicy.NoFencedBody proseReply.
Proof. apply ExtractJsonFacts.NoFencedBody_exec. left. reflexivity. Defined.

Lemma proseReply_opening : JsonPolicy.FirstOpening proseReply 6.
Proof.
  split.
  - exists "["%char. split; reflexivity.
  - intros k c Hk. do 6 (destruct k as [|k]; [cbn; intros [= <-]; reflexivity|]).
    lia.
Defined.

Lemma proseReply_closing : JsonPolicy.LastClosing proseReply 11.
Proof.
  split.
  - exists "]"%char. split; reflexivity.
  - intros k c Hk.
    do 12 (destruct k as [|k]; [lia|]).
    do 5 (destruct k as [|k]; [cbn; intros [= <-]; reflexivity|]).
    cbn. discriminate.
Defined.

Lemma extractJson_policy_witness :
  (extractJson fencedReply = Some jsonObject /\ trim jsonObject = jsonObject) /\
  extractJson proseReply = Some "[1, 2]".
Proof.
  split.
  - apply (proj1 ExtractJsonFacts.extractJson_policy fencedReply jsonObject
             fencedReply_block).
    discriminate.
  - apply (proj1 (proj2 ExtractJsonFacts.extractJson_policy) proseReply
             6%nat 11%nat
             proseReply_no_fence proseReply_opening proseReply_closing).
    lia.
Defined.

(** C4 as stated fails.  A block fenced with the tag [js] has the body
    of its lines, but [extractJson] returns the tag with it; and from an
    opening brace it runs up to a closing bracket, where there is no
    closing brace to match. *)
Lemma extractJson_policy_counterexample :
  JsonClaim.FencedBody jsFencedReply "{}" /\
  extractJson jsFencedReply = Some ("js" ++ nl ++ "{}")%string /\
  JsonClaim.span "{a]" = None /\
  extractJson "{a]" = Some "{a]".
Proof.
  split; [|split; [|split]]; try reflexivity.
  apply (JsonClaim.fencedBody jsFencedReply "{}" EmptyString "js"
           ("{}" ++ nl) EmptyString); reflexivity.
Qed.

(* ===================================================================== *)
(** * Facts about the document model *)
(* ===================================================================== *)

Module DomFacts.

Import StringFacts.

Local Open Scope list_scope.

(** Induction over a node and all the nodes below it. *)
Lemma node_induction (Q : node -> Prop) :
  (forall tag attrs cs, Forall Q cs -> Q (Element tag attrs cs)) ->
  (forall tag attrs, Q (VoidElement tag attrs)) ->
  (forall d, Q (Text d)) ->
  (forall d, Q (Comment d)) ->
  forall n, Q n.
Proof.
  intros Hel Hvoid Htext Hcomment.
  fix IH 1. intros [tag attrs cs|tag attrs|d|d].
  - apply Hel. induction cs as [|c cs IHcs]; constructor.
    + apply IH.
    + exact IHcs.
  - apply Hvoid.
  - apply Htext.
  - apply Hcomment.
Qed.

Lemma concat_cons (x : string) (l : list string) :
  String.concat EmptyString (x :: l) = (x ++ String.concat EmptyString l)%string.
Proof.
  destruct l as [|y l]; cbn [String.concat].
  - now rewrite append_nil_r.
  - reflexivity.
Qed.

Lemma serializeAll_cons raw c l :
  serializeAll raw (c :: l) = (serialize raw c ++ serializeAll raw l)%string.
Proof. unfold serializeAll. cbn [map]. apply concat_cons. Qed.

Lemma serializeAll_app raw l1 l2 :
  serializeAll raw (l1 ++ l2) = (serializeAll raw l1 ++ serializeAll raw l2)%string.
Proof.
  induction l1 as [|c l1 IH]; [reflexivity|].
  cbn [app]. rewrite !serializeAll_cons, IH, append_assoc. reflexivity.
Qed.

Lemma serialize_element_raw raw raw' n :
  isParagraph n = true -> serialize raw n = serialize raw' n.
Proof. destruct n; cbn; try discriminate. reflexivity. Qed.

Lemma paragraphsOf_element tag attrs cs :
  paragraphsOf (Element tag attrs cs) =
  (if isParagraph (Element tag attrs cs) then [Element tag attrs cs] else []) ++
  flat_map paragraphsOf cs.
Proof. reflexivity. Qed.

(** The serialisation of the placeholder between two line feeds does not
    depend on where it stands. *)
Lemma serializeAll_placeholderFragment raw :
  serializeAll raw placeholderFragment = (nl ++ placeholder ++ nl)%string.
Proof. destruct raw; reflexivity. Qed.

Section InsertSerial.

Variable new : list node.
Variable snew : string.
Hypothesis new_serial : forall raw, serializeAll raw new = snew.

Lemma insertAmong_serial (l : list node) :
  Forall (splitsInside new snew) l ->
  forall k p raw,
    nth_error (flat_map paragraphsOf l) k = Some p ->
    exists s0 s2,
      serializeAll raw l = (s0 ++ serialize false p ++ s2)%string /\
      serializeAll raw (insertAmong new (insertInside new) k l) =
        (s0 ++ serialize false p ++ snew ++ s2)%string.
Proof.
  induction 1 as [|c l Hc Hl IH]; intros k p raw Hnth.
  - destruct k; discriminate.
  - cbn [flat_map] in Hnth. cbn [insertAmong].
    destruct (k <? List.length (paragraphsOf c))%nat eqn:Hk.
    + apply Nat.ltb_lt in Hk. rewrite nth_error_app1 in Hnth by exact Hk.
      destruct c as [tag attrs cs|tag attrs|d|d];
        try (cbn in Hk; lia).
      rewrite paragraphsOf_element in Hnth, Hk.
      destruct (isParagraph (Element tag attrs cs)) eqn:Hp.
      * destruct k as [|k'].
        -- cbn in Hnth. injection Hnth as <-.
           exists EmptyString, (serializeAll raw l).
           rewrite !serializeAll_cons, serializeAll_app, new_serial.
           rewrite (serialize_element_raw raw false _ Hp).
           split; [reflexivity|]. cbn [append].
           now rewrite <- !append_assoc.
        -- cbn in Hnth.
           destruct (Hc tag attrs cs eq_refl k' p raw Hnth)
             as (s0 & s2 & Hs & Hs').
           exists s0, (s2 ++ serializeAll raw l)%string.
           rewrite !serializeAll_cons, Hs, Hs', !append_assoc.
           split; reflexivity.
      * cbn [app] in Hnth.
        destruct (Hc tag attrs cs eq_refl k p raw Hnth)
          as (s0 & s2 & Hs & Hs').
        exists s0, (s2 ++ serializeAll raw l)%string.
        rewrite !serializeAll_cons, Hs, Hs', !append_assoc.
        split; reflexivity.
    + apply Nat.ltb_ge in Hk. rewrite nth_error_app2 in Hnth by exact Hk.
      destruct (IH _ p raw Hnth) as (s0 & s2 & Hs & Hs').
      exists (serialize raw c ++ s0)%string, s2.
      rewrite !serializeAll_cons, Hs, Hs', !append_assoc.
      split; reflexivity.
Qed.

Lemma splitsInside_all : forall n, splitsInside new snew n.
Proof.
  apply node_induction.
  - intros tag attrs cs Hcs tag' attrs' cs' Heq k p raw Hnth.
    injection Heq as <- <- <-.
    destruct (insertAmong_serial cs Hcs k p (isRawText tag) Hnth)
      as (s0 & s2 & Hs & Hs').
    cbn [insertInside serialize].
    fold (serializeAll (isRawText tag) cs).
    fold (serializeAll (isRawText tag) (insertAmong new (insertInside new) k cs)).
    rewrite Hs, Hs'.
    exists ("<" ++ tag ++ serializeAttributes attrs ++ ">" ++ s0)%string,
           (s2 ++ "</" ++ tag ++ ">")%string.
    rewrite !append_assoc. split; reflexivity.
  - intros tag attrs tag' attrs' cs' Heq. discriminate Heq.
  - intros d tag' attrs' cs' Heq. discriminate Heq.
  - intros d tag' attrs' cs' Heq. discriminate Heq.
Qed.

(** The insertion after the [k]-th paragraph of the body puts the text of
    [new] right after the text of that paragraph and leaves the rest of the
    serialisation as it was. *)
Lemma insertAfterParagraph_serial (body : list node) k p :
  nth_error (querySelectorAll_p body) k = Some p ->
  exists s0 s2,
    innerHTML body = (s0 ++ serialize false p ++ s2)%string /\
    innerHTML (insertAfterParagraph new k body) =
      (s0 ++ serialize false p ++ snew ++ s2)%string.
Proof.
  intros Hnth. apply insertAmong_serial; [|exact Hnth].
  apply Forall_forall. intros n _. apply splitsInside_all.
Qed.

End InsertSerial.

End DomFacts.

(* ===================================================================== *)
(** * Properties of the retry loop *)
(* ===================================================================== *)

Section RetryFacts.

Context {S T : Type}.

Local Open Scope list_scope.

Lemma attempts_app t1 t2 : attempts (t1 ++ t2) = (attempts t1 + attempts t2)%nat.
Proof.
  induction t1 as [|ev t1 IH]; simpl; [reflexivity|].
  destruct ev; simpl; rewrite IH; reflexivity.
Qed.

Lemma slept_app t1 t2 : slept (t1 ++ t2) = slept t1 + slept t2.
Proof.
  induction t1 as [|ev t1 IH]; simpl; [reflexivity|].
  destruct ev; simpl; rewrite IH; lia.
Qed.

Lemma attempts_backoffEvents d i k : attempts (backoffEvents d i k) = k.
Proof.
  revert i; induction k as [|k IH]; intros i; simpl; [reflexivity|].
  now rewrite IH.
Qed.

Lemma slept_backoffEvents d i k :
  0 <= i -> slept (backoffEvents d i k) = d * 2 ^ i * (2 ^ Z.of_nat k - 1).
Proof.
  revert i; induction k as [|k IH]; intros i Hi.
  - simpl. lia.
  - cbn [backoffEvents slept]. rewrite IH by lia.
    rewrite Nat2Z.inj_succ, Z.pow_succ_r by lia.
    rewrite Z.pow_add_r by lia. change (2 ^ 1) with 2. ring.
Qed.

(** What the loop takes for a rate-limit failure: a [FetchError] with
    status 429, or a message that contains 429 or RESOURCE_EXHAUSTED. *)
Lemma isRateLimitError_cases (e : exn) :
  isRateLimitError e = true <->
  (exists m, e = FetchError m 429) \/
  includes (errorMessage e) "429" = true \/
  includes (errorMessage e) "RESOURCE_EXHAUSTED" = true.
Proof.
  unfold isRateLimitError. rewrite !orb_true_iff. split.
  - intros [[H|H]|H]; [left|right; left; exact H|right; right; exact H].
    destruct e; try discriminate. apply Z.eqb_eq in H. subst. eauto.
  - intros [(m & ->)|[H|H]]; [left; left; reflexivity|left; right; exact H|right; exact H].
Qed.

(** One failed attempt on a rate-limit error: the loop sleeps and goes on
    with the next iteration. *)
Lemma retry_loop_rate_limited (op : S -> (exn + T) * S) R d n i last s s1 e t :
  op s = (inl e, s1) ->
  isRateLimitError e = true ->
  retry_loop (invoke op) R d (Datatypes.S n) i last (mkWorld s t) =
  retry_loop (invoke op) R d n (i + 1) (Some e)
    (mkWorld s1 (t ++ [EvInvoke; EvDelay (d * 2 ^ i)])).
Proof.
  intros Hop Hrl.
  cbn [retry_loop]. unfold try_catch, invoke, bind, emit, external. cbn.
  rewrite Hop, Hrl. unfold delay, emit, bind. cbn.
  rewrite <- app_assoc. reflexivity.
Qed.

(** [k] failed attempts on rate-limit errors consume [k] iterations. *)
Lemma retry_loop_run (op : S -> (exn + T) * S) R d k :
  forall n i last s sk t,
    rateLimitedRun op k s sk ->
    exists last',
      retry_loop (invoke op) R d (k + n) i last (mkWorld s t) =
      retry_loop (invoke op) R d n (i + Z.of_nat k) last'
        (mkWorld sk (t ++ backoffEvents d i k)) /\
      (k = O -> last' = last).
Proof.
  induction k as [|k IH]; intros n i last s sk t Hrun.
  - inversion Hrun; subst. exists last. cbn [backoffEvents].
    rewrite app_nil_r, Z.add_0_r. split; reflexivity.
  - inversion Hrun as [|k' s' s1 sk' e Hop Hrl Hrest]; subst.
    destruct (IH n (i + 1) (Some e) s1 sk
                (t ++ [EvInvoke; EvDelay (d * 2 ^ i)]) Hrest)
      as (last' & Heq & _).
    exists last'. split; [|discriminate].
    change (Datatypes.S k + n)%nat with (Datatypes.S (k + n)).
    rewrite (retry_loop_rate_limited op R d (k + n) i last s s1 e t Hop Hrl).
    rewrite Heq. cbn [backoffEvents].
    rewrite <- app_assoc. cbn [app].
    replace (i + 1 + Z.of_nat k) with (i + Z.of_nat (Datatypes.S k)) by lia.
    reflexivity.
Qed.

(** A successful attempt ends the loop with its value. *)
Lemma retry_loop_success (op : S -> (exn + T) * S) R d n i last s s' v t :
  op s = (inr v, s') ->
  retry_loop (invoke op) R d (Datatypes.S n) i last (mkWorld s t) =
  (inr v, mkWorld s' (t ++ [EvInvoke])).
Proof.
  intros Hop. cbn [retry_loop].
  unfold try_catch, invoke, bind, emit, external. cbn.
  rewrite Hop. reflexivity.
Qed.

(** A failed attempt on any other error ends the loop with that error. *)
Lemma retry_loop_other_error (apiCall : M S T) R d n i last w w' e :
  apiCall w = (inl e, w') ->
  isRateLimitError e = false ->
  retry_loop apiCall R d (Datatypes.S n) i last w = (inl e, w').
Proof.
  intros Hcall Hrl. cbn [retry_loop]. unfold try_catch.
  rewrite Hcall, Hrl. reflexivity.
Qed.

(** C1.  With [retries = 3] and initial delay [d], an operation that fails
    with a rate-limit error on its first two attempts and succeeds on the
    third is attempted exactly three times, the value of the third attempt
    is returned, and the delays slept before the success are [d * 2^0] and
    [d * 2^1], in total [d * (1 + 2)]. *)
Theorem retry_two_rate_limits_then_success
    (op : S -> (exn + T) * S) (d : Z) (s0 s1 s2 s3 : S) (e1 e2 : exn)
    (v : T) (t0 : list Event) :
  op s0 = (inl e1, s1) -> isRateLimitError e1 = true ->
  op s1 = (inl e2, s2) -> isRateLimitError e2 = true ->
  op s2 = (inr v, s3) ->
  exists t,
    retryableAIOperation (invoke op) 3 d (mkWorld s0 t0) =
      (inr v, mkWorld s3 (t0 ++ t)) /\
    t = [EvInvoke; EvDelay (d * 2 ^ 0); EvInvoke; EvDelay (d * 2 ^ 1); EvInvoke] /\
    attempts t = 3%nat /\
    slept t = d * (1 + 2).
Proof.
  intros H1 R1 H2 R2 H3.
  eexists. split; [|split; [reflexivity|split]].
  - unfold retryableAIOperation. change (Z.to_nat 3) with 3%nat.
    rewrite (retry_loop_rate_limited op 3 d 2 0 None s0 s1 e1 t0 H1 R1).
    rewrite (retry_loop_rate_limited op 3 d 1 (0 + 1) (Some e1) s1 s2 e2 _ H2 R2).
    rewrite (retry_loop_success op 3 d 0 (0 + 1 + 1) (Some e2) s2 s3 v _ H3).
    rewrite <- !app_assoc. reflexivity.
  - reflexivity.
  - cbn [slept]. change (2 ^ 0) with 1. change (2 ^ 1) with 2. lia.
Qed.

(** C2 (amended).  The loop goes on to another attempt only after a failure
    that it takes for a rate-limit failure: a [FetchError] with status 429,
    or an error whose message contains 429 or RESOURCE_EXHAUSTED
    ([isRateLimitError], see [isRateLimitError_cases]).  When an attempt,
    reached after [k] such failures, fails with any other error, that same
    error is thrown at once: the run makes [k + 1] attempts, the failing attempt is
    its last event, and nothing is slept beyond the back-off of the [k]
    earlier failures (nothing at all when the first attempt fails). *)
Theorem retry_other_error_rethrown_at_once
    (op : S -> (exn + T) * S) (retries d : Z) (k : nat) (s0 sk s' : S)
    (e : exn) (t0 : list Event) :
  rateLimitedRun op k s0 sk ->
  op sk = (inl e, s') ->
  isRateLimitError e = false ->
  Z.of_nat k < retries ->
  exists t,
    retryableAIOperation (invoke op) retries d (mkWorld s0 t0) =
      (inl e, mkWorld s' (t0 ++ t)) /\
    t = backoffEvents d 0 k ++ [EvInvoke] /\
    attempts t = Datatypes.S k /\
    slept t = d * (2 ^ Z.of_nat k - 1) /\
    (k = O -> t = [EvInvoke] /\ slept t = 0).
Proof.
  intros Hrun Hop Hrl Hk.
  exists (backoffEvents d 0 k ++ [EvInvoke]).
  split; [|split; [reflexivity|split; [|split]]].
  - unfold retryableAIOperation.
    replace (Z.to_nat retries)
      with (k + Datatypes.S (Z.to_nat retries - Datatypes.S k))%nat by lia.
    destruct (retry_loop_run op retries d k
                (Datatypes.S (Z.to_nat retries - Datatypes.S k)) 0 None
                s0 sk t0 Hrun) as (last' & Heq & _).
    rewrite Heq.
    rewrite (retry_loop_other_error (invoke op) retries d _ _ last'
               (mkWorld sk (t0 ++ backoffEvents d 0 k))
               (mkWorld s' (t0 ++ backoffEvents d 0 k ++ [EvInvoke])) e).
    + reflexivity.
    + unfold invoke, bind, emit, external. cbn. rewrite Hop.
      rewrite <- app_assoc. reflexivity.
    + exact Hrl.
  - rewrite attempts_app, attempts_backoffEvents. cbn. lia.
  - rewrite slept_app, slept_backoffEvents by lia. cbn.
    change (2 ^ 0) with 1. ring.
  - intros ->. cbn. split; reflexivity.
Qed.

End RetryFacts.

Lemma retry_two_rate_limits_then_success_witness :
  exists t,
    retryableAIOperation (invoke mockRateLimitedTwice) 3 2000
      (mkWorld 0%nat []) = (inr 42, mkWorld 3%nat ([] ++ t)%list) /\
    t = [EvInvoke; EvDelay (2000 * 2 ^ 0); EvInvoke; EvDelay (2000 * 2 ^ 1);
         EvInvoke] /\
    attempts t = 3%nat /\
    slept t = 2000 * (1 + 2).
Proof.
  apply (retry_two_rate_limits_then_success mockRateLimitedTwice 2000
           0%nat 1%nat 2%nat 3%nat
           (FetchError "API request failed with status 429" 429)
           (FetchError "API request failed with status 429" 429)
           42 []); reflexivity.
Defined.

Lemma retry_other_error_rethrown_at_once_witness :
  exists t,
    retryableAIOperation (invoke mockRateLimitedThenDenied) 3 2000
      (mkWorld 0%nat []) =
      (inl (FetchError "API request failed with status 401" 401),
       mkWorld 2%nat ([] ++ t)%list) /\
    t = (backoffEvents 2000 0 1 ++ [EvInvoke])%list /\
    attempts t = 2%nat /\
    slept t = 2000 * (2 ^ Z.of_nat 1 - 1) /\
    (1%nat = O -> t = [EvInvoke] /\ slept t = 0).
Proof.
  apply (retry_other_error_rethrown_at_once mockRateLimitedThenDenied 3 2000
           1 0%nat 1%nat 2%nat
           (FetchError "API request failed with status 401" 401) []).
  - apply (rl_step mockRateLimitedThenDenied 0 0%nat 1%nat 1%nat
             (Error "RESOURCE_EXHAUSTED: quota")); [reflexivity|reflexivity|].
    apply rl_done.
  - reflexivity.
  - reflexivity.
  - lia.
Defined.

(** C2 as stated fails: an error that carries neither the status 429 nor
    the resource-exhausted signal, but whose message contains 429, is not
    rethrown.  The operation is started three times, 14 seconds are slept,
    and another error is thrown in its place. *)
Lemma retry_other_error_rethrown_at_once_counterexample :
  isRateLimitFailure_claimed
    (SyntaxError "Unexpected token < in JSON at position 1429") = false /\
  retryableAIOperation (invoke mockMalformedReply) 3 2000 (mkWorld 0%nat []) =
    (inl (Error "AI request failed after 3 attempts. Last error: Unexpected token < in JSON at position 1429"),
     mkWorld 3%nat
       [EvInvoke; EvDelay 2000; EvInvoke; EvDelay 4000; EvInvoke; EvDelay 8000]).
Proof. split; reflexivity. Qed.

(* ===================================================================== *)
(** * Properties of [generateText] *)
(* ===================================================================== *)

Section GenerateTextFacts.

Context {S : Type} {P : Platform S}.

Local Open Scope list_scope.

(** C9 (amended).  For Groq and OpenRouter, the providers whose model name
    [generateText] checks, a call without a model name fails with a
    validation error and leaves the world as it was: no request is sent.
    The error says that the model name is required when an API key is
    configured, and that the API key is required when it is not. *)
Theorem generateText_without_model
    (cfg : AnalysisAIConfig) (prompt : string) (maxTokens timeout : option Z)
    (w : World S) :
  checksModel (provider cfg) = true ->
  present (model cfg) = false ->
  generateText cfg prompt maxTokens timeout w =
    (inl (Error (validationMessage cfg)), w).
Proof.
  destruct cfg as [prov key mdl]. unfold validationMessage. cbn.
  intros Hprov Hmodel.
  destruct prov; try discriminate Hprov;
    unfold generateText; cbn;
    destruct key as [k|]; cbn; try reflexivity;
    destruct (truthy k); cbn; try reflexivity;
    destruct mdl as [m|]; cbn in *; try reflexivity;
    rewrite Hmodel; reflexivity.
Qed.

End GenerateTextFacts.

Lemma generateText_without_model_witness :
  generateText (P := samplePlatform []) groqWithoutModel "Say OK" None None
    (mkWorld (mkScript [chatReply "OK"] []) []) =
  (inl (Error "Groq model name is required."),
   mkWorld (mkScript [chatReply "OK"] []) []).
Proof.
  apply (generateText_without_model (P := samplePlatform [])
           groqWithoutModel "Say OK" None None); reflexivity.
Defined.

(** C9 as stated fails: without an API key the missing key is reported, not
    the missing model name. *)
Lemma generateText_without_model_counterexample :
  checksModel (provider groqWithoutKeyOrModel) = true /\
  model groqWithoutKeyOrModel = None /\
  generateText (P := samplePlatform []) groqWithoutKeyOrModel "Say OK" None None
    (mkWorld (mkScript [chatReply "OK"] []) []) =
  (inl (Error "Groq API key is required."),
   mkWorld (mkScript [chatReply "OK"] []) []) /\
  includes "Groq API key is required." "model name is required" = false.
Proof. repeat split. Qed.

(** The OpenAI provider does not need a configured model name: the request
    goes out with a fixed one. *)
Lemma generateText_openai_without_model :
  generateText (P := samplePlatform []) openAIWithoutModel "Say OK" None None
    (mkWorld (mkScript [chatReply "OK"] []) []) =
  (inr "OK",
   mkWorld (mkScript [] [])
     [EvRequest "https://api.openai.com/v1/chat/completions" "Say OK"]).
Proof. reflexivity. Qed.

(* ===================================================================== *)
(** * Properties of [getTotalPosts] *)
(* ===================================================================== *)

Section WordPressFacts.

Context {S : Type} {P : Platform S}.

Local Open Scope list_scope.

Lemma truthy_false (s : string) : truthy s = false <-> s = EmptyString.
Proof. destruct s; cbn; split; congruence. Qed.

(** [wpFetch] sends one request; it throws when [fetch] rejects and when
    the response is not [ok]. *)
Lemma wpFetch_cases baseUrl endpoint username appPassword method body w :
  let req := wpRequest baseUrl endpoint username appPassword method body in
  let t' := trace w ++ [requestEvent req] in
  wpFetch baseUrl endpoint username appPassword method body w =
  match fetch req (ext w) with
  | (inl e, s') => (inl e, mkWorld s' t')
  | (inr response, s') =>
      if ok response then (inr response, mkWorld s' t')
      else (inl (Error ("WordPress API request failed with status " ++
                        showZ (status response) ++ ": " ++
                        statusText response)%string),
            mkWorld s' t')
  end.
Proof.
  cbn zeta. unfold wpFetch, send, bind, emit, external. cbn.
  destruct (fetch _ (ext w)) as [[e|response] s']; [reflexivity|].
  destruct (ok response); reflexivity.
Qed.

(** C10.  When the count request succeeds but its response has no
    [X-WP-Total] header, [getTotalPosts] returns 0, and the crawl that
    called it ends with an empty backlog without asking for a page.
    [getTotalPosts] throws exactly when the URL or the user name is empty
    (before any request) or when the request itself fails. *)
Theorem getTotalPosts_without_total_header
    (url user : string) (pass : option string) (w : World S) :
  (forall response w',
      truthy url = true -> truthy user = true ->
      wpFetch url "/posts?per_page=1" user pass "GET" NoBody w
        = (inr response, w') ->
      headers_get (headers response) "X-WP-Total" = None ->
      getTotalPosts url user pass w = (inr (Num 0), w') /\
      handleStartCrawling url user pass w = (inr [], w')) /\
  (forall e w',
      getTotalPosts url user pass w = (inl e, w') <->
      ((url = EmptyString \/ user = EmptyString) /\
       e = Error "URL and Username are required." /\ w' = w) \/
      (url <> EmptyString /\ user <> EmptyString /\
       wpFetch url "/posts?per_page=1" user pass "GET" NoBody w
         = (inl e, w'))).
Proof.
  split.
  - intros response w' Hurl Huser Hfetch Hhdr.
    assert (Hget : getTotalPosts url user pass w = (inr (Num 0), w')).
    { unfold getTotalPosts. rewrite Hurl, Huser. cbn.
      unfold bind. rewrite Hfetch, Hhdr. reflexivity. }
    split; [exact Hget|].
    unfold handleStartCrawling, bind. rewrite Hget. reflexivity.
  - intros e w'. unfold getTotalPosts.
    destruct (truthy url) eqn:Hurl; cbn.
    + destruct (truthy user) eqn:Huser; cbn.
      * unfold bind.
        destruct (wpFetch url "/posts?per_page=1" user pass "GET" NoBody w)
          as [[e1|response] w1] eqn:Hfetch.
        -- split.
           ++ intros H. injection H as <- <-. right.
              repeat split; intros ->; discriminate.
           ++ intros [[[-> | ->] _]|(_ & _ & H)]; try discriminate.
              injection H as <- <-. reflexivity.
        -- split.
           ++ destruct (headers_get (headers response) "X-WP-Total");
                unfold ret; discriminate.
           ++ intros [[[-> | ->] _]|(_ & _ & H)]; discriminate.
      * apply truthy_false in Huser. subst user. unfold throw. split.
        -- intros H. injection H as <- <-. left. auto.
        -- intros [(_ & -> & ->)|(_ & Hne & _)]; [reflexivity|congruence].
    + apply truthy_false in Hurl. subst url. unfold throw. split.
      * intros H. injection H as <- <-. left. auto.
      * intros [(_ & -> & ->)|(Hne & _)]; [reflexivity|congruence].
Qed.

End WordPressFacts.

Lemma getTotalPosts_without_total_header_witness :
  getTotalPosts (P := samplePlatform []) "https://blog.example/" "admin"
    (Some "app pass") (mkWorld (mkScript [replyWithoutTotal] []) []) =
    (inr (Num 0),
     mkWorld (mkScript [] [])
       [EvRequest "https://blog.example/wp-json/wp/v2/posts?per_page=1"
          EmptyString]) /\
  handleStartCrawling (P := samplePlatform []) "https://blog.example/" "admin"
    (Some "app pass") (mkWorld (mkScript [replyWithoutTotal] []) []) =
    (inr [],
     mkWorld (mkScript [] [])
       [EvRequest "https://blog.example/wp-json/wp/v2/posts?per_page=1"
          EmptyString]).
Proof.
  apply (proj1 (getTotalPosts_without_total_header (P := samplePlatform [])
                  "https://blog.example/" "admin" (Some "app pass")
                  (mkWorld (mkScript [replyWithoutTotal] []) []))
           (mkResponse true 200 "OK" [("Content-Type", "application/json")]
              (inr (JPosts []))));
    reflexivity.
Defined.

(* ===================================================================== *)
(** * Properties of the backlog sort *)
(* ===================================================================== *)

Module BacklogFacts.

Import Backlog.

Local Open Scope list_scope.

Lemma compareFn_le a b : compareFn a b <= 0 <-> scoreOrder a b.
Proof. unfold compareFn, scoreOrder. lia. Qed.

Lemma insert_perm {A} (cmp : A -> A -> Z) x l :
  Permutation (x :: l) (insert cmp x l).
Proof.
  induction l as [|y l IH]; cbn; [apply Permutation_refl|].
  destruct (cmp x y <=? 0); [apply Permutation_refl|].
  eapply Permutation_trans; [apply perm_swap|].
  apply perm_skip, IH.
Qed.

Lemma sort_perm {A} (cmp : A -> A -> Z) l : Permutation l (sort cmp l).
Proof.
  induction l as [|x l IH]; cbn; [apply Permutation_refl|].
  eapply Permutation_trans; [apply perm_skip, IH|apply insert_perm].
Qed.

Lemma insert_In {A} (cmp : A -> A -> Z) x y l :
  In y (insert cmp x l) -> y = x \/ In y l.
Proof.
  intros H. apply (Permutation_in _ (Permutation_sym (insert_perm cmp x l))) in H.
  destruct H; auto.
Qed.

Lemma insert_sorted x l :
  StronglySorted scoreOrder l ->
  StronglySorted scoreOrder (insert compareFn x l).
Proof.
  induction 1 as [|y l Hl IH Hy]; cbn.
  - repeat constructor.
  - destruct (compareFn x y <=? 0) eqn:Hc.
    + apply Z.leb_le, compareFn_le in Hc.
      constructor; [constructor; assumption|].
      constructor; [exact Hc|].
      rewrite Forall_forall in *. intros z Hz.
      specialize (Hy z Hz). unfold scoreOrder in *. lia.
    + apply Z.leb_gt in Hc. unfold compareFn in Hc.
      constructor; [exact IH|].
      rewrite Forall_forall in *. intros z Hz.
      apply insert_In in Hz. destruct Hz as [->|Hz].
      * unfold scoreOrder. lia.
      * apply Hy, Hz.
Qed.

Lemma sortPosts_sorted posts : StronglySorted scoreOrder (sortPosts posts).
Proof.
  unfold sortPosts. induction posts as [|x l IH]; cbn.
  - constructor.
  - apply insert_sorted, IH.
Qed.

(** In a sorted list an earlier element has at least the score of a later
    one. *)
Lemma sorted_earlier l1 x l2 y l3 :
  StronglySorted scoreOrder (l1 ++ x :: l2 ++ y :: l3) -> scoreOrder x y.
Proof.
  induction l1 as [|z l1 IH]; cbn; intros H.
  - inversion H as [|? ? _ Hall]; subst.
    rewrite Forall_forall in Hall. apply Hall.
    apply in_or_app. right. left. reflexivity.
  - inversion H; subst. apply IH. assumption.
Qed.

(** The sort is stable: the posts of one score stay in the order in which
    they were given. *)
Lemma insert_stable (s : Z) x l :
  filter (fun p => score p =? s) (insert compareFn x l) =
  filter (fun p => score p =? s) (x :: l).
Proof.
  induction l as [|y l IH]; [reflexivity|].
  cbn [insert]. destruct (compareFn x y <=? 0) eqn:Hc; [reflexivity|].
  apply Z.leb_gt in Hc. unfold compareFn in Hc.
  cbn [filter] in *. rewrite IH.
  destruct (Z.eqb_spec (score x) s) as [Hx|Hx];
    destruct (Z.eqb_spec (score y) s) as [Hy|Hy]; try reflexivity.
  lia.
Qed.

Lemma sortPosts_stable (s : Z) posts :
  filter (fun p => score p =? s) (sortPosts posts) =
  filter (fun p => score p =? s) posts.
Proof.
  unfold sortPosts. induction posts as [|x l IH]; [reflexivity|].
  cbn [sort]. rewrite insert_stable. cbn [filter]. rewrite IH. reflexivity.
Qed.

(** Two elements that a filter keeps in some order stand in that order in
    the list. *)
Lemma filter_order {A} (f : A -> bool) (x y : A) :
  forall l a b c,
    filter f l = a ++ x :: b ++ y :: c ->
    exists m1 m2 m3, l = m1 ++ x :: m2 ++ y :: m3.
Proof.
  assert (Hone : forall l a c, filter f l = a ++ y :: c ->
                               exists n1 n2, l = n1 ++ y :: n2).
  { induction l as [|z l IH]; intros a c H.
    - destruct a; discriminate.
    - cbn [filter] in H. destruct (f z).
      + destruct a as [|z' a].
        * injection H as -> _. exists [], l. reflexivity.
        * injection H as _ H. destruct (IH _ _ H) as (n1 & n2 & ->).
          exists (z :: n1), n2. reflexivity.
      + destruct (IH _ _ H) as (n1 & n2 & ->).
        exists (z :: n1), n2. reflexivity. }
  induction l as [|z l IH]; intros a b c H.
  - destruct a; discriminate.
  - cbn [filter] in H. destruct (f z).
    + destruct a as [|z' a].
      * injection H as -> H. destruct (Hone _ _ _ H) as (n1 & n2 & ->).
        exists [], n1, n2. reflexivity.
      * injection H as _ H. destruct (IH _ _ _ H) as (m1 & m2 & m3 & ->).
        exists (z :: m1), m2, m3. reflexivity.
    + destruct (IH _ _ _ H) as (m1 & m2 & m3 & ->).
      exists (z :: m1), m2, m3. reflexivity.
Qed.

(** C7 (amended).  The backlog is a rearrangement of the crawled posts in
    descending order of the score (1000 when there is no featured image,
    plus 100 less the number of embedded images), in which the posts of
    one score stay in crawl order.  So, for a post [x] that stands before
    a post [y] in the backlog: [x] has at least the score of [y]; when [x]
    has a featured image and [y] has none, [y] has at least 1000 more
    embedded images; when both have none, or both have one, [x] has no
    more embedded images than [y]; and when their scores are equal, as
    with a difference of exactly 1000, [x] stood before [y] in the
    crawl. *)
Theorem sortPosts_priority (posts l1 l2 l3 : list WordPressPost)
    (x y : WordPressPost) :
  sortPosts posts = l1 ++ x :: l2 ++ y :: l3 ->
  Permutation posts (sortPosts posts) /\
  StronglySorted scoreOrder (sortPosts posts) /\
  (forall s, filter (fun p => score p =? s) (sortPosts posts) =
             filter (fun p => score p =? s) posts) /\
  score y <= score x /\
  (featured_media x <> 0 -> featured_media y = 0 ->
   imageCount x + 1000 <= imageCount y) /\
  (featured_media x = 0 -> featured_media y = 0 ->
   imageCount x <= imageCount y) /\
  (featured_media x <> 0 -> featured_media y <> 0 ->
   imageCount x <= imageCount y) /\
  (featured_media x = 0 -> featured_media y <> 0 ->
   imageCount x <= imageCount y + 1000) /\
  (score x = score y ->
   exists m1 m2 m3, posts = m1 ++ x :: m2 ++ y :: m3).
Proof.
  intros Hsplit.
  split; [apply sort_perm|].
  split; [apply sortPosts_sorted|].
  split; [intros s; apply sortPosts_stable|].
  pose proof (sortPosts_sorted posts) as Hs. rewrite Hsplit in Hs.
  apply sorted_earlier in Hs. unfold scoreOrder in Hs.
  split; [exact Hs|].
  unfold score in Hs.
  split; [|split; [|split; [|split]]].
  - intros Hx Hy. apply Z.eqb_neq in Hx. rewrite Hx in Hs.
    rewrite Hy in Hs. rewrite Z.eqb_refl in Hs. lia.
  - intros Hx Hy. rewrite Hx, Hy in Hs. rewrite Z.eqb_refl in Hs. lia.
  - intros Hx Hy. apply Z.eqb_neq in Hx, Hy. rewrite Hx, Hy in Hs. lia.
  - intros Hx Hy. apply Z.eqb_neq in Hy. rewrite Hy in Hs.
    rewrite Hx in Hs. rewrite Z.eqb_refl in Hs. lia.
  - intros Heq.
    pose proof (sortPosts_stable (score x) posts) as Hst.
    rewrite Hsplit in Hst.
    rewrite filter_app in Hst. cbn [filter] in Hst.
    rewrite Z.eqb_refl in Hst.
    rewrite filter_app in Hst. cbn [filter] in Hst.
    rewrite <- Heq, Z.eqb_refl in Hst.
    symmetry in Hst. apply (filter_order _ _ _ _ _ _ _ Hst).
Qed.

(** The example of the specification. *)
Example sortPosts_example :
  sortPosts [samplePost 1 0 0; samplePost 2 5 3; samplePost 3 0 5] =
  [samplePost 1 0 0; samplePost 3 0 5; samplePost 2 5 3].
Proof. reflexivity. Qed.

(** A difference of exactly 1000: the post with a featured image and the
    post without one have the same score and stay as they were crawled,
    whichever came first. *)
Example sortPosts_tie :
  sortPosts [samplePost 2 5 0; samplePost 1 0 1000] =
    [samplePost 2 5 0; samplePost 1 0 1000] /\
  sortPosts [samplePost 1 0 1000; samplePost 2 5 0] =
    [samplePost 1 0 1000; samplePost 2 5 0].
Proof. split; reflexivity. Qed.

Lemma sortPosts_priority_witness :
  Permutation [samplePost 2 5 0; samplePost 1 0 1000]
    (sortPosts [samplePost 2 5 0; samplePost 1 0 1000]) /\
  StronglySorted scoreOrder (sortPosts [samplePost 2 5 0; samplePost 1 0 1000]) /\
  (forall s,
      filter (fun p => score p =? s)
        (sortPosts [samplePost 2 5 0; samplePost 1 0 1000]) =
      filter (fun p => score p =? s) [samplePost 2 5 0; samplePost 1 0 1000]) /\
  score (samplePost 1 0 1000) <= score (samplePost 2 5 0) /\
  (featured_media (samplePost 2 5 0) <> 0 ->
   featured_media (samplePost 1 0 1000) = 0 ->
   imageCount (samplePost 2 5 0) + 1000 <= imageCount (samplePost 1 0 1000)) /\
  (featured_media (samplePost 2 5 0) = 0 ->
   featured_media (samplePost 1 0 1000) = 0 ->
   imageCount (samplePost 2 5 0) <= imageCount (samplePost 1 0 1000)) /\
  (featured_media (samplePost 2 5 0) <> 0 ->
   featured_media (samplePost 1 0 1000) <> 0 ->
   imageCount (samplePost 2 5 0) <= imageCount (samplePost 1 0 1000)) /\
  (featured_media (samplePost 2 5 0) = 0 ->
   featured_media (samplePost 1 0 1000) <> 0 ->
   imageCount (samplePost 2 5 0) <= imageCount (samplePost 1 0 1000) + 1000) /\
  (score (samplePost 2 5 0) = score (samplePost 1 0 1000) ->
   exists m1 m2 m3,
     [samplePost 2 5 0; samplePost 1 0 1000] =
     m1 ++ samplePost 2 5 0 :: m2 ++ samplePost 1 0 1000 :: m3).
Proof.
  apply (sortPosts_priority
           [samplePost 2 5 0; samplePost 1 0 1000] [] [] []).
  reflexivity.
Defined.

(** C7 as stated fails: a post without a featured image that has 1500
    embedded images is placed after a post that has a featured image. *)
Lemma sortPosts_priority_counterexample :
  featured_media postManyImages = 0 /\
  featured_media postFeatured <> 0 /\
  sortPosts [postManyImages; postFeatured] = [postFeatured; postManyImages].
Proof. repeat split. discriminate. Qed.

End BacklogFacts.

(* ===================================================================== *)
(** * Properties of the batch generation *)
(* ===================================================================== *)

Section BatchFacts.

Context {S : Type} {P : Platform S}.

Local Open Scope list_scope.

(** A failing batch makes its [try] block throw. *)
Lemma requestBatch_fails cfg batch w :
  batchFails cfg batch w ->
  exists e w', requestBatch cfg batch w = (inl e, w').
Proof.
  unfold requestBatch, bind.
  intros [(e & w' & Hreq)|(text & w' & Hreq & Hjson)]; rewrite Hreq.
  - eauto.
  - destruct Hjson as [-> | [-> | (jsonString & e & -> & Hparse)]].
    + eexists _, _. reflexivity.
    + eexists _, _. reflexivity.
    + destruct (truthy jsonString).
      * rewrite Hparse. eexists _, _. reflexivity.
      * eexists _, _. reflexivity.
Qed.

(** One iteration of the loop on a batch whose [try] block throws: the
    loop throws, whatever has been collected. *)
Lemma batchLoop_throw cfg posts onProgress fuel i acc w e w' :
  (i < List.length posts)%nat ->
  requestBatch cfg (batchAt posts i) w = (inl e, w') ->
  batchLoop cfg posts onProgress (Datatypes.S fuel) i acc w =
  (inl (if isSyntaxError e then malformedJsonError cfg else e), w').
Proof.
  intros Hi Hreq. cbn [batchLoop].
  apply Nat.ltb_lt in Hi. rewrite Hi.
  unfold bind at 1. unfold try_catch. unfold bind at 1.
  fold (batchAt posts i). rewrite Hreq.
  unfold rethrowBatchError. destruct (isSyntaxError e); reflexivity.
Qed.

(** One iteration on a batch that succeeds. *)
Lemma batchLoop_step cfg posts onProgress fuel i acc w rs w1 :
  (i < List.length posts)%nat ->
  requestBatch cfg (batchAt posts i) w = (inr rs, w1) ->
  batchLoop cfg posts onProgress (Datatypes.S fuel) i acc w =
  batchLoop cfg posts onProgress fuel (i + BATCH_SIZE) (acc ++ rs)
    (snd (afterBatch posts onProgress i w1)).
Proof.
  intros Hi Hreq. cbn [batchLoop].
  apply Nat.ltb_lt in Hi. rewrite Hi.
  unfold bind at 1. unfold try_catch. unfold bind at 1.
  fold (batchAt posts i). rewrite Hreq.
  unfold afterBatch, bind, delay, emit, ret.
  destruct onProgress; destruct (i + BATCH_SIZE <? List.length posts)%nat;
    reflexivity.
Qed.

(** The call is, at each state of its loop, the rest of the loop; the fuel
    left always covers the posts left. *)
Lemma LoopState_rest cfg posts onProgress w0 i acc w :
  LoopState cfg posts onProgress w0 i acc w ->
  exists fuel,
    (List.length posts <= i + fuel)%nat /\
    generateImageBriefsAndAltsBatch posts cfg onProgress w0 =
    batchLoop cfg posts onProgress fuel i acc w.
Proof.
  induction 1 as [|i acc w rs w1 Hstate (fuel & Hfuel & Heq) Hi Hreq].
  - exists (List.length posts). split; [lia|].
    unfold generateImageBriefsAndAltsBatch, bind, emit, ret.
    destruct onProgress; reflexivity.
  - destruct fuel as [|fuel]; [lia|].
    exists fuel. split; [unfold BATCH_SIZE; lia|].
    rewrite Heq. apply batchLoop_step; assumption.
Qed.

(** C8.  When the loop comes to a batch that fails (its request fails for
    good, also after the retries for rate limits are used up, or the reply
    has no JSON that parses), the whole call throws: the caller gets an
    error and no result, neither for the posts of that batch nor for those
    of the batches before it. *)
Theorem batch_failure_is_fatal
    (cfg : AnalysisAIConfig) (posts : list WordPressPost) (onProgress : bool)
    (w0 : World S) (i : nat) (acc : list BriefResult) (w : World S) :
  LoopState cfg posts onProgress w0 i acc w ->
  (i < List.length posts)%nat ->
  batchFails cfg (batchAt posts i) w ->
  exists e w',
    generateImageBriefsAndAltsBatch posts cfg onProgress w0 = (inl e, w').
Proof.
  intros Hstate Hi Hfail.
  destruct (LoopState_rest _ _ _ _ _ _ _ Hstate) as (fuel & Hfuel & Heq).
  destruct (requestBatch_fails _ _ _ Hfail) as (e & w' & Hreq).
  destruct fuel as [|fuel]; [lia|].
  rewrite Heq, (batchLoop_throw _ _ _ _ _ _ _ _ _ Hi Hreq). eauto.
Qed.

End BatchFacts.

(** A run on twenty-one posts: the first batch of twenty is answered, the
    request for the second is refused with status 500. *)
Lemma batch_failure_is_fatal_witness :
  exists e w',
    generateImageBriefsAndAltsBatch (P := samplePlatform []) twentyOnePosts
      groqConfig true (mkWorld (mkScript [chatReply "[1]"; serverError] []) [])
    = (inl e, w').
Proof.
  eapply (batch_failure_is_fatal (P := samplePlatform []) groqConfig
            twentyOnePosts true _ (0 + BATCH_SIZE)%nat).
  - eapply loop_next.
    + apply loop_start.
    + vm_compute. lia.
    + vm_compute. reflexivity.
  - vm_compute. lia.
  - left. vm_compute. eexists _, _. reflexivity.
Defined.

(* ===================================================================== *)
(** * Properties of the placement *)
(* ===================================================================== *)

Section PlacementFacts.

Import StringFacts DomFacts.

Context {S : Type} {P : Platform S}.

Local Open Scope list_scope.

(** The heuristic, by the number of paragraphs: when there is none, the
    placeholder and a line feed are put in front of the content and the
    whole is parsed again; the fragment goes after the first paragraph when
    there are one or two, after the second when there are more. *)
Lemma insertPlaceholderHeuristically_cases (postContent : string) :
  let body := parseFromString postContent in
  insertPlaceholderHeuristically postContent =
  match List.length (querySelectorAll_p body) with
  | 0%nat => innerHTML (parseFragment (placeholder ++ nl ++ innerHTML body)%string)
  | 1%nat | 2%nat => innerHTML (insertAfterParagraph placeholderFragment 0 body)
  | _ => innerHTML (insertAfterParagraph placeholderFragment 1 body)
  end.
Proof.
  cbn zeta. unfold insertPlaceholderHeuristically.
  destruct (List.length (querySelectorAll_p (parseFromString postContent)))
    as [|[|[|n]]]; reflexivity.
Qed.






(** The index chosen from the reply is a paragraph of the post. *)
Lemma targetParagraphIndex_range chosen count :
  (3 <= count)%nat ->
  0 <= targetParagraphIndex chosen count < Z.of_nat count.
Proof.
  intros Hcount. unfold targetParagraphIndex.
  destruct chosen as [|n]; [lia|].
  destruct (n <? 1) eqn:H1; cbn [orb]; [lia|].
  destruct (Z.of_nat count <? n) eqn:H2; [lia|].
  apply Z.ltb_ge in H1, H2. lia.
Qed.

(** [getContentWithImagePlaceholder] always returns: either the content of
    the heuristic, or the content with the fragment after one of the
    paragraphs. *)
Lemma getContentWithImagePlaceholder_cases cfg postContent postTitle w :
  let body := parseFromString postContent in
  exists content w',
    getContentWithImagePlaceholder cfg postContent postTitle w
      = (inr content, w') /\
    (content = insertPlaceholderHeuristically postContent \/
     exists k, (k < List.length (querySelectorAll_p body))%nat /\
               content = innerHTML (insertAfterParagraph placeholderFragment k body)).
Proof.
  cbn zeta. unfold getContentWithImagePlaceholder.
  destruct (List.length (querySelectorAll_p (parseFromString postContent)) <? 3)%nat
    eqn:Hfew.
  { eexists _, _. split; [reflexivity|]. now left. }
  apply Nat.ltb_ge in Hfew. unfold try_catch.
  destruct (List.length (paragraphsToAnalyze
              (querySelectorAll_p (parseFromString postContent))) <? 2)%nat.
  { eexists _, _. split; [reflexivity|]. now left. }
  unfold bind.
  destruct (retryableAIOperation _ 2 500 w) as [[e|responseText] w1].
  { eexists _, _. split; [reflexivity|]. now left. }
  pose proof (targetParagraphIndex_range (chosenParagraphNumber responseText)
                _ Hfew) as Hrange.
  set (target := targetParagraphIndex _ _) in *.
  destruct (0 <=? target) eqn:H0; [|apply Z.leb_gt in H0; lia].
  destruct (Z.to_nat target <? _)%nat eqn:H1;
    [|apply Nat.ltb_ge in H1; lia].
  cbn [andb]. eexists _, _. split; [reflexivity|]. right.
  exists (Z.to_nat target). split; [apply Nat.ltb_lt, H1|reflexivity].
Qed.


(** C3.  For a post with at least three paragraphs of which at least two
    qualify, and a reply [responseText] of the provider: when the reply has
    no integer in it, the fragment is inserted after the first paragraph;
    when the first integer of the reply is below 1 or above the number of
    paragraphs, the fragment is inserted after the second paragraph
    (index 1), not after the first. *)
Theorem placement_of_invalid_reply
    (cfg : AnalysisAIConfig) (postContent postTitle : string)
    (w w1 : World S) (responseText : string) :
  let body := parseFromString postContent in
  let paragraphs := querySelectorAll_p body in
  (3 <= List.length paragraphs)%nat ->
  (2 <= List.length (paragraphsToAnalyze paragraphs))%nat ->
  retryableAIOperation
    (generateText cfg
       (placementPrompt (stripHtml postTitle) (paragraphsToAnalyze paragraphs))
       (Some 10) (Some 20000)) 2 500 w = (inr responseText, w1) ->
  (matchDigits (trim responseText) = None ->
   getContentWithImagePlaceholder cfg postContent postTitle w =
   (inr (innerHTML (insertAfterParagraph placeholderFragment 0 body)), w1)) /\
  (forall n,
      chosenParagraphNumber responseText = Num n ->
      n < 1 \/ Z.of_nat (List.length paragraphs) < n ->
      getContentWithImagePlaceholder cfg postContent postTitle w =
      (inr (innerHTML (insertAfterParagraph placeholderFragment 1 body)), w1)).
Proof.
  cbn zeta. intros Hcount Hqual Hreply.
  assert (Hrun : forall target,
    targetParagraphIndex (chosenParagraphNumber responseText)
      (List.length (querySelectorAll_p (parseFromString postContent)))
      = Z.of_nat target ->
    (target < 3)%nat ->
    getContentWithImagePlaceholder cfg postContent postTitle w =
    (inr (innerHTML (insertAfterParagraph placeholderFragment target
                       (parseFromString postContent))), w1)).
  { intros target Htarget Hlt. unfold getContentWithImagePlaceholder.
    destruct (Nat.ltb_spec
                (List.length (querySelectorAll_p (parseFromString postContent))) 3);
      [lia|].
    unfold try_catch.
    destruct (Nat.ltb_spec
                (List.length (paragraphsToAnalyze
                   (querySelectorAll_p (parseFromString postContent)))) 2);
      [lia|].
    unfold bind. rewrite Hreply, Htarget.
    destruct (Z.leb_spec 0 (Z.of_nat target)); [|lia].
    rewrite Nat2Z.id.
    destruct (Nat.ltb_spec target
                (List.length (querySelectorAll_p (parseFromString postContent))));
      [|lia].
    reflexivity. }
  split.
  - intros Hnone. apply (Hrun 0%nat); [|lia].
    unfold chosenParagraphNumber. rewrite Hnone.
    change (parseInt "1") with (Num 1). unfold targetParagraphIndex.
    destruct (Z.ltb_spec (Z.of_nat
                (List.length (querySelectorAll_p (parseFromString postContent)))) 1);
      [lia|].
    reflexivity.
  - intros n Hn Hout. apply (Hrun 1%nat); [|lia].
    rewrite Hn. unfold targetParagraphIndex.
    destruct (Z.ltb_spec n 1); [reflexivity|].
    destruct (Z.ltb_spec (Z.of_nat
                (List.length (querySelectorAll_p (parseFromString postContent)))) n);
      [reflexivity|lia].
Qed.

Lemma In_numberFrom (ps : list node) : forall (index : Z) (q : Numbered),
  In q (numberFrom index ps) <->
  exists k p, nth_error ps k = Some p /\
              q = mkNumbered (index + Z.of_nat k + 1) (trim (textContent p)).
Proof.
  induction ps as [|p0 ps IH]; intros index q; cbn [numberFrom In].
  - split; [tauto|]. intros (k & p & Hnth & _). destruct k; discriminate.
  - rewrite IH. split.
    + intros [<-|(k & p & Hnth & ->)].
      * exists 0%nat, p0. split; [reflexivity|]. f_equal. lia.
      * exists (Datatypes.S k), p. split; [exact Hnth|]. f_equal. lia.
    + intros ([|k] & p & Hnth & ->).
      * left. cbn in Hnth. injection Hnth as ->. f_equal. lia.
      * right. exists k, p. split; [exact Hnth|]. f_equal. lia.
Qed.

(** The paragraphs sent to the provider: those of the first five whose
    trimmed text is longer than 80 code units, with their numbers. *)
Lemma In_paragraphsToAnalyze (paragraphs : list node) (q : Numbered) :
  In q (paragraphsToAnalyze paragraphs) <->
  exists k p,
    (k < 5)%nat /\ nth_error paragraphs k = Some p /\
    q = mkNumbered (Z.of_nat k + 1) (trim (textContent p)) /\
    (80 < String.length (trim (textContent p)))%nat.
Proof.
  unfold paragraphsToAnalyze. rewrite filter_In, In_numberFrom. split.
  - intros [(k & p & Hnth & ->) Hlen]. cbn [text] in Hlen.
    apply Nat.ltb_lt in Hlen. rewrite nth_error_firstn in Hnth.
    destruct (Nat.ltb_spec k 5); [|discriminate].
    exists k, p. repeat split; assumption.
  - intros (k & p & Hk & Hnth & -> & Hlen). split.
    + exists k, p. rewrite nth_error_firstn.
      destruct (Nat.ltb_spec k 5); [|lia]. split; [exact Hnth|reflexivity].
    + cbn [text]. apply Nat.ltb_lt, Hlen.
Qed.

Lemma filter_length_le {A} (f g : A -> bool) (l : list A) :
  (forall x, f x = true -> g x = true) ->
  (List.length (filter f l) <= List.length (filter g l))%nat.
Proof.
  intros Hfg. induction l as [|x l IH]; cbn; [lia|].
  destruct (f x) eqn:Hf.
  - rewrite (Hfg x Hf). cbn. lia.
  - destruct (g x); cbn; lia.
Qed.

(** The code keeps no more paragraphs than the wording "discard any under
    80 characters" does. *)
Lemma paragraphsToAnalyze_le_spec (paragraphs : list node) :
  (List.length (paragraphsToAnalyze paragraphs) <=
   List.length (paragraphsToAnalyze_spec paragraphs))%nat.
Proof.
  apply filter_length_le. intros q Hq. apply Nat.ltb_lt in Hq.
  apply negb_true_iff, Nat.ltb_ge. lia.
Qed.

(** C5.  With fewer than three paragraphs the heuristic is applied and the
    world is left as it was: nothing is asked of the provider.  Otherwise
    the paragraphs considered are those of the first five whose trimmed
    text is longer than 80 code units, so that any paragraph under 80 is
    discarded; and when fewer than two qualifying paragraphs remain (be it
    counted as the code does or with every paragraph that is not under 80)
    the heuristic is applied, again without a request. *)
Theorem placement_without_request
    (cfg : AnalysisAIConfig) (postContent postTitle : string) (w : World S) :
  let paragraphs := querySelectorAll_p (parseFromString postContent) in
  ((List.length paragraphs < 3)%nat ->
   getContentWithImagePlaceholder cfg postContent postTitle w =
   (inr (insertPlaceholderHeuristically postContent), w)) /\
  (forall q,
      In q (paragraphsToAnalyze paragraphs) <->
      exists k p,
        (k < 5)%nat /\ nth_error paragraphs k = Some p /\
        q = mkNumbered (Z.of_nat k + 1) (trim (textContent p)) /\
        (80 < String.length (trim (textContent p)))%nat) /\
  (forall k p,
      nth_error paragraphs k = Some p ->
      (String.length (trim (textContent p)) < 80)%nat ->
      ~ In (mkNumbered (Z.of_nat k + 1) (trim (textContent p)))
           (paragraphsToAnalyze paragraphs)) /\
  ((3 <= List.length paragraphs)%nat ->
   (List.length (paragraphsToAnalyze paragraphs) < 2)%nat \/
   (List.length (paragraphsToAnalyze_spec paragraphs) < 2)%nat ->
   getContentWithImagePlaceholder cfg postContent postTitle w =
   (inr (insertPlaceholderHeuristically postContent), w)).
Proof.
  cbn zeta. split; [|split; [|split]].
  - intros Hfew. unfold getContentWithImagePlaceholder.
    apply Nat.ltb_lt in Hfew. rewrite Hfew. reflexivity.
  - apply In_paragraphsToAnalyze.
  - intros k p Hnth Hshort Hin.
    apply In_paragraphsToAnalyze in Hin as (k' & p' & _ & _ & Heq & Hlong).
    injection Heq as _ Htext. rewrite <- Htext in Hlong. lia.
  - intros Hmany Hqual.
    assert (Hfew : (List.length (paragraphsToAnalyze
                      (querySelectorAll_p (parseFromString postContent))) < 2)%nat).
    { destruct Hqual as [H|H]; [exact H|].
      pose proof (paragraphsToAnalyze_le_spec
                    (querySelectorAll_p (parseFromString postContent))). lia. }
    unfold getContentWithImagePlaceholder.
    apply Nat.ltb_ge in Hmany. rewrite Hmany.
    apply Nat.ltb_lt in Hfew. unfold try_catch. rewrite Hfew. reflexivity.
Qed.

End PlacementFacts.


(** A content without paragraphs: the placeholder is put in front, the
    text is parsed again and, as it comes back as it went in, has the
    placeholder once. *)
Example heuristic_without_paragraphs :
  insertPlaceholderHeuristically
    (P := samplePlatform [plainBody; plainBodyMarked]) "plain text" =
  ("<!-- INSERT_IMAGE_HERE -->" ++ nl ++ "plain text")%string.
Proof. vm_compute. reflexivity. Qed.


(** The reply 7 for a post of three paragraphs: the fragment goes after the
    second paragraph. *)
Lemma placement_of_invalid_reply_witness :
  getContentWithImagePlaceholder (P := samplePlatform sampleDocuments)
    groqConfig (innerHTML threeLongParagraphs) "Title" (worldReplying "7") =
  (inr (innerHTML (insertAfterParagraph placeholderFragment 1
                     (parseFromString (Platform := samplePlatform sampleDocuments)
                        (innerHTML threeLongParagraphs)))),
   mkWorld (mkScript [] [])
     [EvRequest "https://api.groq.com/openai/v1/chat/completions"
        (placementPrompt EmptyString
           (paragraphsToAnalyze threeLongParagraphs))]).
Proof.
  apply (proj2 (placement_of_invalid_reply (P := samplePlatform sampleDocuments)
                  groqConfig (innerHTML threeLongParagraphs) "Title"
                  (worldReplying "7")
                  (mkWorld (mkScript [] [])
                     [EvRequest "https://api.groq.com/openai/v1/chat/completions"
                        (placementPrompt EmptyString
                           (paragraphsToAnalyze threeLongParagraphs))])
                  "7"
                  ltac:(vm_compute; lia) ltac:(vm_compute; lia)
                  ltac:(vm_compute; reflexivity)) 7).
  - vm_compute. reflexivity.
  - right. vm_compute. reflexivity.
Defined.

(** The same run, spelled out: the placeholder stands between the second and
    the third paragraph. *)
Lemma placement_out_of_range_example :
  fst (getContentWithImagePlaceholder (P := samplePlatform sampleDocuments)
         groqConfig (innerHTML threeLongParagraphs) "Title" (worldReplying "7")) =
  inr (innerHTML [paragraphOf 90 "A"; paragraphOf 90 "B";
                  Text nl; Comment " INSERT_IMAGE_HERE "; Text nl;
                  paragraphOf 90 "C"]).
Proof. vm_compute. reflexivity. Qed.

Lemma placement_without_request_witness :
  getContentWithImagePlaceholder (P := samplePlatform sampleDocuments)
    groqConfig (innerHTML twoShortParagraphs) "Title" (worldReplying "1") =
  (inr (insertPlaceholderHeuristically (P := samplePlatform sampleDocuments)
          (innerHTML twoShortParagraphs)),
   worldReplying "1") /\
  getContentWithImagePlaceholder (P := samplePlatform sampleDocuments)
    groqConfig (innerHTML threeEightyParagraphs) "Title" (worldReplying "1") =
  (inr (insertPlaceholderHeuristically (P := samplePlatform sampleDocuments)
          (innerHTML threeEightyParagraphs)),
   worldReplying "1").
Proof.
  split.
  - apply (proj1 (placement_without_request (P := samplePlatform sampleDocuments)
                    groqConfig (innerHTML twoShortParagraphs) "Title"
                    (worldReplying "1"))).
    vm_compute. lia.
  - apply (proj2 (proj2 (proj2
             (placement_without_request (P := samplePlatform sampleDocuments)
                groqConfig (innerHTML threeEightyParagraphs) "Title"
                (worldReplying "1"))))).
    + vm_compute. lia.
    + left. vm_compute. lia.
Defined.

(** The boundary of the filter: a paragraph of exactly 80 code units is
    discarded as well.  Three such paragraphs leave nothing to analyse, and
    the heuristic is applied without a request. *)
Lemma placement_threshold_example :
  let paragraphs := querySelectorAll_p threeEightyParagraphs in
  Forall (fun p => String.length (trim (textContent p)) = 80%nat) paragraphs /\
  List.length (paragraphsToAnalyze_spec paragraphs) = 3%nat /\
  paragraphsToAnalyze paragraphs = [] /\
  getContentWithImagePlaceholder (P := samplePlatform sampleDocuments)
    groqConfig (innerHTML threeEightyParagraphs) "Title" (worldReplying "3") =
  (inr (insertPlaceholderHeuristically (P := samplePlatform sampleDocuments)
          (innerHTML threeEightyParagraphs)),
   worldReplying "3").
Proof.
  cbn zeta. split; [|split; [|split]].
  - repeat constructor.
  - reflexivity.
  - reflexivity.
  - vm_compute. reflexivity.
Qed.

(* ===================================================================== *)
(** * Further properties of the retry loop *)
(* ===================================================================== *)

Section RetryMore.

Context {S T : Type}.

Local Open Scope list_scope.

Lemma requests_app t1 t2 : requests (t1 ++ t2) = (requests t1 + requests t2)%nat.
Proof.
  induction t1 as [|ev t1 IH]; simpl; [reflexivity|].
  destruct ev; simpl; rewrite IH; reflexivity.
Qed.

(** X1.  An operation that fails [k] times on a rate-limit error and then
    succeeds, with [k] below [retries], is attempted [k + 1] times; its
    value is returned after the delays [d * 2^0], ..., [d * 2^(k-1)], in
    total [d * (2^k - 1)]. *)
Theorem retry_success_after_rate_limits
    (op : S -> (exn + T) * S) (retries d : Z) (k : nat) (s0 sk s' : S)
    (v : T) (t0 : list Event) :
  rateLimitedRun op k s0 sk ->
  op sk = (inr v, s') ->
  Z.of_nat k < retries ->
  retryableAIOperation (invoke op) retries d (mkWorld s0 t0) =
    (inr v, mkWorld s' (t0 ++ backoffEvents d 0 k ++ [EvInvoke])) /\
  attempts (backoffEvents d 0 k ++ [EvInvoke]) = Datatypes.S k /\
  slept (backoffEvents d 0 k ++ [EvInvoke]) = d * (2 ^ Z.of_nat k - 1).
Proof.
  intros Hrun Hop Hk. split; [|split].
  - unfold retryableAIOperation.
    replace (Z.to_nat retries)
      with (k + Datatypes.S (Z.to_nat retries - Datatypes.S k))%nat by lia.
    destruct (retry_loop_run op retries d k
                (Datatypes.S (Z.to_nat retries - Datatypes.S k)) 0 None
                s0 sk t0 Hrun) as (last' & Heq & _).
    rewrite Heq, (retry_loop_success op retries d _ _ last' sk s' v _ Hop).
    rewrite <- app_assoc. reflexivity.
  - rewrite attempts_app, attempts_backoffEvents. cbn. lia.
  - rewrite slept_app, slept_backoffEvents by lia. cbn.
    change (2 ^ 0) with 1. ring.
Qed.

Lemma retry_loop_failures (op : S -> (exn + T) * S) R d k :
  forall n i last s t sk last',
    failures op k s last = Some (sk, last') ->
    retry_loop (invoke op) R d (k + n) i last (mkWorld s t) =
    retry_loop (invoke op) R d n (i + Z.of_nat k) last'
      (mkWorld sk (t ++ backoffEvents d i k)).
Proof.
  induction k as [|k IH]; intros n i last s t sk last' Hf.
  - cbn in Hf. injection Hf as <- <-. cbn [backoffEvents].
    rewrite app_nil_r, Z.add_0_r. reflexivity.
  - cbn [failures] in Hf.
    destruct (op s) as [[e|v] s1] eqn:Hop; [|discriminate].
    destruct (isRateLimitError e) eqn:Hrl; [|discriminate].
    change (Datatypes.S k + n)%nat with (Datatypes.S (k + n)).
    rewrite (retry_loop_rate_limited op R d (k + n) i last s s1 e t Hop Hrl).
    rewrite (IH n (i + 1) (Some e) s1 _ sk last' Hf).
    cbn [backoffEvents]. rewrite <- app_assoc. cbn [app].
    replace (i + 1 + Z.of_nat k) with (i + Z.of_nat (Datatypes.S k)) by lia.
    reflexivity.
Qed.

(** X2.  When every one of the [retries] attempts fails on a rate-limit
    error, the loop gives up with an error that names the number of
    attempts and the message of the last failure.  It has slept after each
    failed attempt, the last one included: [d * (2^retries - 1)] in total.
    With [retries] at 0 or below the operation is never started and the
    last error reads [undefined]. *)
Theorem retry_exhausted
    (op : S -> (exn + T) * S) (retries d : Z) (s0 sk : S)
    (last : option exn) (t0 : list Event) :
  failures op (Z.to_nat retries) s0 None = Some (sk, last) ->
  retryableAIOperation (invoke op) retries d (mkWorld s0 t0) =
    (inl (Error ("AI request failed after " ++ showZ retries ++
                 " attempts. Last error: " ++
                 match last with
                 | Some e => errorMessage e
                 | None => "undefined"
                 end)%string),
     mkWorld sk (t0 ++ backoffEvents d 0 (Z.to_nat retries))) /\
  attempts (backoffEvents d 0 (Z.to_nat retries)) = Z.to_nat retries /\
  slept (backoffEvents d 0 (Z.to_nat retries)) =
    d * (2 ^ Z.of_nat (Z.to_nat retries) - 1) /\
  (retries <= 0 -> last = None /\ sk = s0).
Proof.
  intros Hf. split; [|split; [|split]].
  - unfold retryableAIOperation.
    rewrite <- (Nat.add_0_r (Z.to_nat retries)) at 1.
    rewrite (retry_loop_failures op retries d _ 0 0 None s0 t0 sk last Hf).
    reflexivity.
  - apply attempts_backoffEvents.
  - rewrite slept_backoffEvents by lia. change (2 ^ 0) with 1. ring.
  - intros Hneg. replace (Z.to_nat retries) with 0%nat in Hf by lia.
    cbn in Hf. injection Hf as <- <-. split; reflexivity.
Qed.

(** What the loop adds to the trace when each call of the operation adds a
    trace in [callTrace]. *)
Lemma retry_loop_trace (callTrace : list Event -> Prop) (apiCall : M S T) R d :
  (forall w, exists c, trace (snd (apiCall w)) = trace w ++ c /\ callTrace c) ->
  forall n i last w,
  exists t,
    trace (snd (retry_loop apiCall R d n i last w)) = trace w ++ t /\
    RetryTrace callTrace d n i t.
Proof.
  intros Hcall. induction n as [|n IH]; intros i last w.
  - exists []. cbn. rewrite app_nil_r. split; [reflexivity|constructor].
  - cbn [retry_loop]. unfold try_catch.
    destruct (Hcall w) as (c & Hc & Hct).
    destruct (apiCall w) as [[e|v] w1]; cbn [snd] in Hc.
    + destruct (isRateLimitError e).
      * unfold bind, delay, emit.
        destruct (IH (i + 1) (Some e)
                    (mkWorld (ext w1) (trace w1 ++ [EvDelay (d * 2 ^ i)])))
          as (t & Ht & Hrt).
        exists (c ++ EvDelay (d * 2 ^ i) :: t). split.
        -- rewrite Ht. cbn [trace]. rewrite Hc, <- !app_assoc. reflexivity.
        -- apply rt_more; assumption.
      * exists c. split; [exact Hc|apply rt_last, Hct].
    + exists c. split; [exact Hc|apply rt_last, Hct].
Qed.

Lemma RetryTrace_bounds (callTrace : list Event -> Prop) d n i t :
  (forall c, callTrace c ->
             slept c = 0 /\ (attempts c <= 1)%nat /\ (requests c <= 1)%nat) ->
  0 <= d -> 0 <= i ->
  RetryTrace callTrace d n i t ->
  (attempts t <= n)%nat /\ (requests t <= n)%nat /\
  0 <= slept t <= d * 2 ^ i * (2 ^ Z.of_nat n - 1).
Proof.
  intros Hcall Hd Hi Hrt. induction Hrt as [i|n i c Hc|n i c t Hc Hrt IH].
  - cbn. repeat split; lia.
  - destruct (Hcall c Hc) as (Hs & Ha & Hr).
    rewrite Hs. repeat split; try lia.
    assert (0 < 2 ^ i) by (apply Z.pow_pos_nonneg; lia).
    assert (1 <= 2 ^ Z.of_nat (Datatypes.S n))
      by (apply (Z.pow_le_mono_r 2 0); lia).
    nia.
  - destruct (Hcall c Hc) as (Hs & Ha & Hr).
    destruct (IH ltac:(lia)) as (IHa & IHr & IHs1 & IHs2).
    rewrite attempts_app, requests_app, slept_app. cbn [attempts requests slept].
    rewrite Hs.
    assert (0 < 2 ^ i) by (apply Z.pow_pos_nonneg; lia).
    rewrite Z.pow_add_r in IHs2 by lia. change (2 ^ 1) with 2 in IHs2.
    rewrite Nat2Z.inj_succ, Z.pow_succ_r by lia.
    repeat split; try lia; nia.
Qed.

(** X3.  Whatever the operation does, the loop starts it at most [retries]
    times and sleeps at most [d * (2^retries - 1)] in all. *)
Theorem retry_bounds
    (op : S -> (exn + T) * S) (retries d : Z) (w : World S) :
  0 <= d ->
  exists t,
    trace (snd (retryableAIOperation (invoke op) retries d w)) = trace w ++ t /\
    (attempts t <= Z.to_nat retries)%nat /\
    0 <= slept t <= d * (2 ^ Z.of_nat (Z.to_nat retries) - 1).
Proof.
  intros Hd. unfold retryableAIOperation.
  destruct (retry_loop_trace oneInvocation (invoke op) retries d) with
    (n := Z.to_nat retries) (i := 0) (last := @None exn) (w := w)
    as (t & Ht & Hrt).
  { intros w0. exists [EvInvoke]. split; [|reflexivity].
    unfold invoke, bind, emit, external. cbn.
    destruct (op (ext w0)) as [r s1]. reflexivity. }
  exists t. split; [exact Ht|].
  assert (Hone : forall c, oneInvocation c ->
            slept c = 0 /\ (attempts c <= 1)%nat /\ (requests c <= 1)%nat).
  { intros c ->. cbn. repeat split; lia. }
  destruct (RetryTrace_bounds oneInvocation d (Z.to_nat retries) 0 t
              Hone Hd (Z.le_refl 0) Hrt) as (Ha & _ & Hs).
  change (2 ^ 0) with 1 in Hs. split; [exact Ha|lia].
Qed.

End RetryMore.

Lemma retry_success_after_rate_limits_witness :
  retryableAIOperation (invoke mockRateLimitedTwice) 5 2000 (mkWorld 0%nat []) =
    (inr 42, mkWorld 3%nat ([] ++ backoffEvents 2000 0 2 ++ [EvInvoke])%list) /\
  attempts (backoffEvents 2000 0 2 ++ [EvInvoke])%list = 3%nat /\
  slept (backoffEvents 2000 0 2 ++ [EvInvoke])%list = 2000 * (2 ^ Z.of_nat 2 - 1).
Proof.
  apply (retry_success_after_rate_limits mockRateLimitedTwice 5 2000 2
           0%nat 2%nat 3%nat 42 []).
  - eapply rl_step; [reflexivity|reflexivity|].
    eapply rl_step; [reflexivity|reflexivity|]. apply rl_done.
  - reflexivity.
  - lia.
Defined.

Lemma retry_exhausted_witness :
  retryableAIOperation (invoke mockAlwaysRateLimited) 2 500 (mkWorld 0%nat []) =
    (inl (Error "AI request failed after 2 attempts. Last error: RESOURCE_EXHAUSTED: quota"),
     mkWorld 2%nat [EvInvoke; EvDelay 500; EvInvoke; EvDelay 1000]) /\
  attempts (backoffEvents 500 0 (Z.to_nat 2)) = Z.to_nat 2 /\
  slept (backoffEvents 500 0 (Z.to_nat 2)) = 500 * (2 ^ Z.of_nat (Z.to_nat 2) - 1) /\
  (2 <= 0 -> Some (Error "RESOURCE_EXHAUSTED: quota") = None /\ 2%nat = 0%nat).
Proof.
  apply (retry_exhausted mockAlwaysRateLimited 2 500 0%nat 2%nat
           (Some (Error "RESOURCE_EXHAUSTED: quota")) []).
  reflexivity.
Defined.

Lemma retry_bounds_witness :
  exists t,
    trace (snd (retryableAIOperation (invoke mockAlwaysRateLimited) 3 2000
                  (mkWorld 0%nat []))) = ([] ++ t)%list /\
    (attempts t <= Z.to_nat 3)%nat /\
    0 <= slept t <= 2000 * (2 ^ Z.of_nat (Z.to_nat 3) - 1).
Proof.
  apply (retry_bounds mockAlwaysRateLimited 3 2000 (mkWorld 0%nat [])). lia.
Defined.

(* ===================================================================== *)
(** * Further properties of the provider gateway *)
(* ===================================================================== *)

Section GatewayFacts.

Context {S : Type} {P : Platform S}.

Local Open Scope list_scope.

Lemma retry_loop_ok {T} (apiCall : M S T) R d n i last w v w1 :
  apiCall w = (inr v, w1) ->
  retry_loop apiCall R d (Datatypes.S n) i last w = (inr v, w1).
Proof. intros H. cbn [retry_loop]. unfold try_catch. rewrite H. reflexivity. Qed.

Lemma retry_loop_rethrow {T} (apiCall : M S T) R d n i last w e w1 :
  apiCall w = (inl e, w1) ->
  isRateLimitError e = false ->
  retry_loop apiCall R d (Datatypes.S n) i last w = (inl e, w1).
Proof.
  intros H Hrl. cbn [retry_loop]. unfold try_catch. rewrite H, Hrl. reflexivity.
Qed.


Lemma retryable_rethrow {T} (apiCall : M S T) retries d w e w1 :
  0 < retries ->
  apiCall w = (inl e, w1) ->
  isRateLimitError e = false ->
  retryableAIOperation apiCall retries d w = (inl e, w1).
Proof.
  intros Hr H Hrl. unfold retryableAIOperation.
  destruct (Z.to_nat retries) as [|n] eqn:Hn; [lia|].
  apply retry_loop_rethrow; assumption.
Qed.

Lemma fetchWithTimeout_ok (req : Request) (w : World S) resp s1 :
  fetch req (ext w) = (inr resp, s1) ->
  fetchWithTimeout req w = (inr resp, mkWorld s1 (trace w ++ [requestEvent req])).
Proof.
  intros H. unfold fetchWithTimeout, try_catch, send, bind, emit, external.
  cbn. rewrite H. reflexivity.
Qed.

Lemma fetchWithTimeout_abort (req : Request) (w : World S) m s1 :
  fetch req (ext w) = (inl (DOMException "AbortError" m), s1) ->
  fetchWithTimeout req w =
    (inl (Error ("Request timed out after " ++
                 showZ (match timeout req with
                        | Some t => t / 1000
                        | None => 90
                        end) ++ " seconds.")%string),
     mkWorld s1 (trace w ++ [requestEvent req])).
Proof.
  intros H. unfold fetchWithTimeout, try_catch, send, bind, emit, external.
  cbn. rewrite H. reflexivity.
Qed.







End GatewayFacts.

Section GatewayMore.

Context {S : Type} {P : Platform S}.

Local Open Scope list_scope.

Lemma timeoutError_checked :
  forallb (fun n => negb (isRateLimitError (timeoutError (Z.of_nat n))))
    (seq 0 429) = true.
Proof. vm_compute. reflexivity. Qed.

Lemma timeoutError_not_rate_limit (seconds : Z) :
  0 <= seconds < 429 ->
  isRateLimitError (timeoutError seconds) = false.
Proof.
  intros Hs. pose proof timeoutError_checked as H.
  rewrite forallb_forall in H.
  specialize (H (Z.to_nat seconds)). rewrite Z2Nat.id in H by lia.
  apply Bool.negb_true_iff, H, in_seq. lia.
Qed.

(** X6.  A request to an OpenAI-compatible provider that is aborted by the
    timer fails with the message that names the time-out in seconds, and
    is not retried; this holds for every time-out of whole seconds below
    429, among them the default of 90 seconds. *)
Theorem timeout_reported_at_once
    (apiUrl apiKey model prompt : string) (maxTokens limit : option Z)
    (retries d ms : Z) (w : World S) (m : string) (s1 : S) :
  fetch (chatRequest apiUrl apiKey model prompt maxTokens limit) (ext w)
    = (inl (DOMException "AbortError" m), s1) ->
  ms = match limit with Some t => t | None => 90000 end ->
  ms mod 1000 = 0 ->
  0 <= ms < 429000 ->
  0 < retries ->
  retryableAIOperation
    (callOpenAICompatibleAPI apiUrl apiKey model prompt maxTokens limit)
    retries d w =
  (inl (Error ("Request timed out after " ++ showZ (ms / 1000) ++ " seconds.")%string),
   mkWorld s1 (trace w ++ [EvRequest apiUrl prompt])).
Proof.
  intros H Hms Hmod Hrange Hr.
  apply retryable_rethrow; [exact Hr| |].
  - unfold callOpenAICompatibleAPI, bind.
    fold (chatRequest apiUrl apiKey model prompt maxTokens limit).
    rewrite (fetchWithTimeout_abort _ _ _ _ H). cbn [timeout chatRequest].
    rewrite <- Hms. reflexivity.
  - apply (timeoutError_not_rate_limit (ms / 1000)).
    split; [apply Z.div_pos; lia|apply Z.div_lt_upper_bound; lia].
Qed.

Lemma keyRequired_not_rate_limit (p : TextAIProvider.t) :
  isRateLimitError (keyRequired p) = false.
Proof. destruct p; vm_compute; reflexivity. Qed.

Lemma generateText_without_key (cfg : AnalysisAIConfig) (prompt : string)
    (maxTokens timeout : option Z) (w : World S) :
  provider cfg <> TextAIProvider.Gemini ->
  present (apiKey cfg) = false ->
  generateText cfg prompt maxTokens timeout w = (inl (keyRequired (provider cfg)), w).
Proof.
  destruct cfg as [prov key mdl]. cbn. intros Hprov Hkey.
  destruct prov; try congruence;
    unfold generateText; cbn;
    destruct key as [k|]; cbn in *; try reflexivity;
    rewrite Hkey; reflexivity.
Qed.

Lemma generateJsonText_without_key (cfg : AnalysisAIConfig) (prompt : string)
    (w : World S) :
  provider cfg <> TextAIProvider.Gemini ->
  present (apiKey cfg) = false ->
  generateJsonText cfg prompt w = (inl (keyRequired (provider cfg)), w).
Proof.
  intros Hprov Hkey. unfold generateJsonText.
  destruct (provider cfg) eqn:Hp; try congruence;
    rewrite <- Hp; apply generateText_without_key; congruence.
Qed.

(** X7.  With a provider other than Gemini and no API key configured, the
    batch generation for a non-empty list of posts fails with the message
    that the provider's API key is required.  No request is sent and
    nothing is slept: the only effect is the first progress report, when
    a progress callback is given. *)
Theorem batch_without_api_key
    (cfg : AnalysisAIConfig) (posts : list WordPressPost) (onProgress : bool)
    (w : World S) :
  provider cfg <> TextAIProvider.Gemini ->
  present (apiKey cfg) = false ->
  posts <> [] ->
  generateImageBriefsAndAltsBatch posts cfg onProgress w =
    (inl (Error (TextAIProvider.value (provider cfg) ++ " API key is required.")%string),
     mkWorld (ext w)
       (trace w ++
        if onProgress then [EvProgress 0 (Z.of_nat (List.length posts))] else [])).
Proof.
  intros Hprov Hkey Hposts.
  assert (Hlen : (0 < List.length posts)%nat)
    by (destruct posts; [congruence|cbn; lia]).
  set (w1 := mkWorld (ext w)
       (trace w ++
        if onProgress then [EvProgress 0 (Z.of_nat (List.length posts))] else [])).
  assert (Hstart : generateImageBriefsAndAltsBatch posts cfg onProgress w =
                   batchLoop cfg posts onProgress (List.length posts) 0 [] w1).
  { unfold generateImageBriefsAndAltsBatch, bind, emit, ret, w1.
    destruct onProgress; [reflexivity|].
    rewrite app_nil_r. destruct w; reflexivity. }
  rewrite Hstart.
  destruct (List.length posts) as [|fuel] eqn:Hl in Hlen |- * at 1; [lia|].
  assert (Hreq : requestBatch cfg (batchAt posts 0) w1 =
                 (inl (keyRequired (provider cfg)), w1)).
  { unfold requestBatch, bind.
    rewrite (retryable_rethrow _ 3 2000 w1 (keyRequired (provider cfg)) w1);
      [reflexivity|lia| |apply keyRequired_not_rate_limit].
    apply generateJsonText_without_key; assumption. }
  rewrite (batchLoop_throw cfg posts onProgress fuel 0 [] w1 _ w1
             ltac:(lia) Hreq).
  reflexivity.
Qed.

(** X8.  Without a Gemini key in the environment (absent or empty), text
    generation with the Gemini provider fails with the configuration
    message before anything is sent, with or without a JSON schema, and
    the retry loop passes the error on without a second attempt. *)
Theorem gemini_without_environment_key
    (cfg : AnalysisAIConfig) (prompt : string) (maxTokens timeout : option Z)
    (retries d : Z) (w : World S) :
  provider cfg = TextAIProvider.Gemini ->
  present env_API_KEY = false ->
  0 < retries ->
  generateText cfg prompt maxTokens timeout w =
    (inl (Error "Google Gemini API Key is not configured in the environment."), w) /\
  generateJsonText cfg prompt w =
    (inl (Error "Google Gemini API Key is not configured in the environment."), w) /\
  retryableAIOperation (generateJsonText cfg prompt) retries d w =
    (inl (Error "Google Gemini API Key is not configured in the environment."), w).
Proof.
  intros Hprov Hkey Hr.
  assert (Hgen : forall b, geminiGenerate prompt b w = (inl geminiKeyMissing, w)).
  { intros b. unfold geminiGenerate, bind, getGeminiClient.
    unfold present in Hkey. destruct env_API_KEY as [k|]; [|reflexivity].
    rewrite Hkey. reflexivity. }
  assert (Hjson : generateJsonText cfg prompt w = (inl geminiKeyMissing, w)).
  { unfold generateJsonText. rewrite Hprov. apply Hgen. }
  split; [|split].
  - unfold generateText. rewrite Hprov. apply Hgen.
  - exact Hjson.
  - apply retryable_rethrow; [exact Hr|exact Hjson|reflexivity].
Qed.

(** What one call of the chat endpoint adds to the trace. *)
Lemma call_trace apiUrl apiKey model prompt maxTokens timeout (w : World S) :
  trace (snd (callOpenAICompatibleAPI apiUrl apiKey model prompt maxTokens
                timeout w)) = trace w ++ [EvRequest apiUrl prompt].
Proof.
  unfold callOpenAICompatibleAPI, bind, fetchWithTimeout, try_catch, send,
    bind, emit, external, throw, ret.
  cbn. destruct (fetch _ (ext w)) as [[e|resp] s1].
  - destruct e; cbn; try reflexivity.
    destruct (String.eqb name "AbortError"); reflexivity.
  - cbn. destruct (ok resp); cbn; [|reflexivity].
    destruct (json resp) as [e|[data|posts|]]; cbn; try reflexivity.
    destruct (choices data) as [[|c rest]|]; cbn; try reflexivity.
    destruct (message_content c) as [content|]; cbn.
    + destruct (truthy content); cbn; [reflexivity|].
      destruct (finish_reason c) as [r|]; cbn; [|reflexivity].
      destruct (String.eqb r "content_filter"); reflexivity.
    + destruct (finish_reason c) as [r|]; cbn; [|reflexivity].
      destruct (String.eqb r "content_filter"); reflexivity.
Qed.

Lemma geminiGenerate_trace prompt b (w : World S) :
  exists c, trace (snd (geminiGenerate prompt b w)) = trace w ++ c /\
            atMostOneRequest c.
Proof.
  unfold geminiGenerate, bind, getGeminiClient, emit, external, throw, ret.
  destruct env_API_KEY as [k|].
  - destruct (truthy k); cbn.
    + destruct (generateContent _ _ _ _) as [r s1]. cbn.
      eexists. split; [reflexivity|]. right. eauto.
    + exists []. rewrite app_nil_r. split; [reflexivity|left; reflexivity].
  - exists []. cbn. rewrite app_nil_r. split; [reflexivity|left; reflexivity].
Qed.

Lemma generateText_trace cfg prompt maxTokens timeout (w : World S) :
  exists c,
    trace (snd (generateText cfg prompt maxTokens timeout w)) = trace w ++ c /\
    atMostOneRequest c.
Proof.
  assert (Hnone : forall e : exn,
            exists c, trace (snd (@throw S string e w)) = trace w ++ c /\
                      atMostOneRequest c).
  { intros e. exists []. cbn. rewrite app_nil_r.
    split; [reflexivity|left; reflexivity]. }
  assert (Hcall : forall apiUrl k m,
            exists c,
              trace (snd (callOpenAICompatibleAPI apiUrl k m prompt maxTokens
                            timeout w)) = trace w ++ c /\
              atMostOneRequest c).
  { intros apiUrl k m. eexists. split; [apply call_trace|]. right. eauto. }
  destruct cfg as [prov key mdl]. unfold generateText. cbn.
  destruct prov.
  - apply geminiGenerate_trace.
  - destruct key as [k|]; [|apply Hnone].
    destruct (truthy k); [apply Hcall|apply Hnone].
  - destruct key as [k|]; [|apply Hnone].
    destruct (truthy k); [|apply Hnone].
    destruct mdl as [m|]; [|apply Hnone].
    destruct (truthy m); [apply Hcall|apply Hnone].
  - destruct key as [k|]; [|apply Hnone].
    destruct (truthy k); [|apply Hnone].
    destruct mdl as [m|]; [|apply Hnone].
    destruct (truthy m); [apply Hcall|apply Hnone].
Qed.

Lemma generateJsonText_trace cfg prompt (w : World S) :
  exists c,
    trace (snd (generateJsonText cfg prompt w)) = trace w ++ c /\
    atMostOneRequest c.
Proof.
  unfold generateJsonText.
  destruct (provider cfg); try apply generateText_trace.
  apply geminiGenerate_trace.
Qed.

Lemma atMostOneRequest_measures (c : list Event) :
  atMostOneRequest c ->
  slept c = 0 /\ (attempts c <= 1)%nat /\ (requests c <= 1)%nat.
Proof.
  intros [->|(endpoint & text & ->)]; cbn; repeat split; lia.
Qed.

(** X9.  Text generation under the retry loop is bounded, whatever the
    provider and whatever it answers: at most [retries] requests are sent
    and at most [d * (2^retries - 1)] milliseconds slept, with and without
    the JSON instruction. *)
Theorem text_generation_bounded
    (cfg : AnalysisAIConfig) (prompt : string) (maxTokens timeout : option Z)
    (retries d : Z) (w : World S) :
  0 <= d ->
  (exists t,
     trace (snd (retryableAIOperation
                   (generateText cfg prompt maxTokens timeout) retries d w))
       = trace w ++ t /\
     (requests t <= Z.to_nat retries)%nat /\
     0 <= slept t <= d * (2 ^ Z.of_nat (Z.to_nat retries) - 1)) /\
  (exists t,
     trace (snd (retryableAIOperation
                   (generateJsonText cfg prompt) retries d w))
       = trace w ++ t /\
     (requests t <= Z.to_nat retries)%nat /\
     0 <= slept t <= d * (2 ^ Z.of_nat (Z.to_nat retries) - 1)).
Proof.
  intros Hd. unfold retryableAIOperation. split.
  - destruct (retry_loop_trace atMostOneRequest
                (generateText cfg prompt maxTokens timeout) retries d
                (generateText_trace cfg prompt maxTokens timeout)
                (Z.to_nat retries) 0 None w) as (t & Ht & Hrt).
    exists t. split; [exact Ht|].
    destruct (RetryTrace_bounds atMostOneRequest d (Z.to_nat retries) 0 t
                atMostOneRequest_measures Hd (Z.le_refl 0) Hrt)
      as (_ & Hreq & Hs).
    change (2 ^ 0) with 1 in Hs. split; [exact Hreq|lia].
  - destruct (retry_loop_trace atMostOneRequest
                (generateJsonText cfg prompt) retries d
                (generateJsonText_trace cfg prompt)
                (Z.to_nat retries) 0 None w) as (t & Ht & Hrt).
    exists t. split; [exact Ht|].
    destruct (RetryTrace_bounds atMostOneRequest d (Z.to_nat retries) 0 t
                atMostOneRequest_measures Hd (Z.le_refl 0) Hrt)
      as (_ & Hreq & Hs).
    change (2 ^ 0) with 1 in Hs. split; [exact Hreq|lia].
Qed.

Lemma call_success apiUrl apiKey model prompt maxTokens timeout
    (w w' : World S) (content : string) :
  callOpenAICompatibleAPI apiUrl apiKey model prompt maxTokens timeout w
    = (inr content, w') ->
  content <> EmptyString /\
  trace w' = trace w ++ [EvRequest apiUrl prompt] /\
  exists resp c rest data,
    fetch (chatRequest apiUrl apiKey model prompt maxTokens timeout) (ext w)
      = (inr resp, ext w') /\
    ok resp = true /\
    json resp = inr (JChat data) /\
    choices data = Some (c :: rest) /\
    message_content c = Some content.
Proof.
  intros H.
  pose proof (call_trace apiUrl apiKey model prompt maxTokens timeout w) as Ht.
  rewrite H in Ht. cbn [snd] in Ht.
  split; [|split; [exact Ht|]].
  - revert H.
    unfold callOpenAICompatibleAPI, bind, fetchWithTimeout, try_catch, send,
      bind, emit, external, throw, ret.
    cbn. destruct (fetch _ (ext w)) as [[e|resp] s1].
    + destruct e; cbn; try discriminate.
      destruct (String.eqb name "AbortError"); discriminate.
    + cbn. destruct (ok resp); cbn; [|discriminate].
      destruct (json resp) as [e|[data|posts|]]; cbn; try discriminate.
      destruct (choices data) as [[|c rest]|]; cbn; try discriminate.
      destruct (message_content c) as [content'|]; cbn.
      * destruct (truthy content') eqn:Htr; cbn.
        -- intros [= <- _]. intros ->. discriminate.
        -- destruct (finish_reason c) as [r|]; cbn; [|discriminate].
           destruct (String.eqb r "content_filter"); discriminate.
      * destruct (finish_reason c) as [r|]; cbn; [|discriminate].
        destruct (String.eqb r "content_filter"); discriminate.
  - revert H.
    unfold callOpenAICompatibleAPI, bind, fetchWithTimeout, try_catch, send,
      bind, emit, external, throw, ret.
    fold (chatRequest apiUrl apiKey model prompt maxTokens timeout).
    cbn. destruct (fetch _ (ext w)) as [[e|resp] s1] eqn:Hf.
    + destruct e; cbn; try discriminate.
      destruct (String.eqb name "AbortError"); discriminate.
    + cbn. destruct (ok resp) eqn:Hok; cbn; [|discriminate].
      destruct (json resp) as [e|[data|posts|]] eqn:Hj; cbn; try discriminate.
      destruct (choices data) as [[|c rest]|] eqn:Hc; cbn; try discriminate.
      destruct (message_content c) as [content'|] eqn:Hm; cbn.
      * destruct (truthy content') eqn:Htr; cbn.
        -- intros [= <- <-]. cbn. exists resp, c, rest, data. auto.
        -- destruct (finish_reason c) as [r|]; cbn; [|discriminate].
           destruct (String.eqb r "content_filter"); discriminate.
      * destruct (finish_reason c) as [r|]; cbn; [|discriminate].
        destruct (String.eqb r "content_filter"); discriminate.
Qed.

(** X10.  With a provider other than Gemini, [generateText] returns a text
    only when an API key is configured (and, for Groq and OpenRouter, a
    model name), exactly one request went to the provider's endpoint with
    the prompt, and the text returned is not empty: an empty completion is
    an error, never a result. *)
Theorem generateText_reply
    (cfg : AnalysisAIConfig) (prompt : string) (maxTokens timeout : option Z)
    (w w' : World S) (content : string) :
  provider cfg <> TextAIProvider.Gemini ->
  generateText cfg prompt maxTokens timeout w = (inr content, w') ->
  content <> EmptyString /\
  trace w' = trace w ++ [EvRequest (endpointOf (provider cfg)) prompt] /\
  present (apiKey cfg) = true /\
  (checksModel (provider cfg) = true -> present (model cfg) = true).
Proof.
  destruct cfg as [prov key mdl]. cbn. intros Hprov.
  unfold generateText. cbn.
  destruct prov; try congruence; cbn.
  - destruct key as [k|]; [|discriminate].
    destruct (truthy k) eqn:Hk; [|discriminate].
    intros H. apply call_success in H as (Hne & Ht & _).
    repeat split; try assumption. discriminate.
  - destruct key as [k|]; [|discriminate].
    destruct (truthy k) eqn:Hk; [|discriminate].
    destruct mdl as [m|]; [|discriminate].
    destruct (truthy m) eqn:Hm; [|discriminate].
    intros H. apply call_success in H as (Hne & Ht & _).
    repeat split; auto.
  - destruct key as [k|]; [|discriminate].
    destruct (truthy k) eqn:Hk; [|discriminate].
    destruct mdl as [m|]; [|discriminate].
    destruct (truthy m) eqn:Hm; [|discriminate].
    intros H. apply call_success in H as (Hne & Ht & _).
    repeat split; auto.
Qed.

End GatewayMore.



Lemma timeout_reported_at_once_witness :
  retryableAIOperation
    (callOpenAICompatibleAPI (P := samplePlatform [])
       "https://api.openai.com/v1/chat/completions" "sk-test" "gpt-4-turbo"
       "Say OK" (Some 10) (Some 20000))
    2 500 (mkWorld (mkScript [abortedReply; chatReply "OK"] []) []) =
  (inl (Error "Request timed out after 20 seconds."),
   mkWorld (mkScript [chatReply "OK"] [])
     [EvRequest "https://api.openai.com/v1/chat/completions" "Say OK"]).
Proof.
  apply (timeout_reported_at_once (P := samplePlatform [])
           "https://api.openai.com/v1/chat/completions" "sk-test" "gpt-4-turbo"
           "Say OK" (Some 10) (Some 20000) 2 500 20000
           (mkWorld (mkScript [abortedReply; chatReply "OK"] []) [])
           "The user aborted a request."
           (mkScript [chatReply "OK"] [])).
  - reflexivity.
  - reflexivity.
  - reflexivity.
  - lia.
  - lia.
Defined.

Lemma batch_without_api_key_witness :
  generateImageBriefsAndAltsBatch (P := samplePlatform []) twentyOnePosts
    openAIWithoutKey true (worldReplying "[1]") =
  (inl (Error "OpenAI API key is required."),
   mkWorld (mkScript [chatReply "[1]"] []) [EvProgress 0 21]).
Proof.
  apply (batch_without_api_key (P := samplePlatform []) openAIWithoutKey
           twentyOnePosts true (worldReplying "[1]")).
  - discriminate.
  - reflexivity.
  - discriminate.
Defined.

Lemma gemini_without_environment_key_witness :
  generateText (P := busyPlatform) geminiConfig "Say OK" None None
    (mkWorld 0%nat []) =
    (inl (Error "Google Gemini API Key is not configured in the environment."),
     mkWorld 0%nat []) /\
  generateJsonText (P := busyPlatform) geminiConfig "Say OK" (mkWorld 0%nat []) =
    (inl (Error "Google Gemini API Key is not configured in the environment."),
     mkWorld 0%nat []) /\
  retryableAIOperation (generateJsonText (P := busyPlatform) geminiConfig "Say OK")
    3 2000 (mkWorld 0%nat []) =
    (inl (Error "Google Gemini API Key is not configured in the environment."),
     mkWorld 0%nat []).
Proof.
  apply (gemini_without_environment_key (P := busyPlatform) geminiConfig
           "Say OK" None None 3 2000 (mkWorld 0%nat [])).
  - reflexivity.
  - reflexivity.
  - lia.
Defined.

Lemma text_generation_bounded_witness :
  (exists t,
     trace (snd (retryableAIOperation
                   (generateText (P := busyPlatform) groqConfig "Say OK"
                      (Some 10) (Some 20000)) 2 500 (mkWorld 0%nat [])))
       = ([] ++ t)%list /\
     (requests t <= Z.to_nat 2)%nat /\
     0 <= slept t <= 500 * (2 ^ Z.of_nat (Z.to_nat 2) - 1)) /\
  (exists t,
     trace (snd (retryableAIOperation
                   (generateJsonText (P := busyPlatform) groqConfig "Say OK")
                   2 500 (mkWorld 0%nat [])))
       = ([] ++ t)%list /\
     (requests t <= Z.to_nat 2)%nat /\
     0 <= slept t <= 500 * (2 ^ Z.of_nat (Z.to_nat 2) - 1)).
Proof.
  apply (text_generation_bounded (P := busyPlatform) groqConfig "Say OK"
           (Some 10) (Some 20000) 2 500 (mkWorld 0%nat [])).
  lia.
Defined.

Lemma generateText_reply_witness :
  "OK" <> EmptyString /\
  [EvRequest "https://api.groq.com/openai/v1/chat/completions" "Say OK"] =
    ([] ++ [EvRequest (endpointOf (provider groqConfig)) "Say OK"])%list /\
  present (apiKey groqConfig) = true /\
  (checksModel (provider groqConfig) = true -> present (model groqConfig) = true).
Proof.
  apply (generateText_reply (P := samplePlatform []) groqConfig "Say OK"
           None None (worldReplying "OK")
           (mkWorld (mkScript [] [])
              [EvRequest "https://api.groq.com/openai/v1/chat/completions" "Say OK"])
           "OK").
  - discriminate.
  - reflexivity.
Defined.

(* ===================================================================== *)
(** * Further properties of [extractJson] *)
(* ===================================================================== *)

Module ExtractJsonMore.

Import StringFacts RegexFacts ExtractJsonFacts.
Import JsString JsonPolicy.

Local Open Scope string_scope.

Lemma length_drop (n : nat) (s : string) :
  String.length (drop n s) = (String.length s - n)%nat.
Proof.
  revert s; induction n as [|n IH]; intros [|c s]; cbn; try reflexivity.
  apply IH.
Qed.

(** What the span branch returns, with its place in the text. *)
Lemma extractJson_span_part text r :
  extractJson_span text = Some r ->
  r <> EmptyString /\ trim r = r /\
  exists pre post, text = pre ++ r ++ post.
Proof.
  intros Hr.
  destruct (extractJson_span_Some _ _ Hr) as (i & j & Hi & Hj & Hij).
  rewrite (extractJson_span_found _ _ _ Hi Hj Hij) in Hr.
  injection Hr as <-. split; [|split].
  - intros Hempty. apply (f_equal String.length) in Hempty.
    destruct Hj as [[cj [Hget _]] _]. apply get_Some_lt in Hget.
    rewrite length_take in Hempty by (rewrite length_drop; lia).
    cbn in Hempty. lia.
  - apply trim_span; assumption.
  - exists (take i text), (drop (j - i + 1) (drop i text)).
    rewrite take_drop, take_drop. reflexivity.
Qed.

(** [extractJson] does not return the empty string. *)
Lemma extractJson_nonempty text r :
  extractJson text = Some r -> r <> EmptyString.
Proof.
  unfold extractJson.
  destruct (Regex.exec text) as [[|c cap]|] eqn:Hexec; cbn [truthy];
    try (intros Hr; apply (extractJson_span_part _ _ Hr)).
  intros [= <-]. apply exec_complete in Hexec.
  rewrite (FencedBlock_trimmed _ _ Hexec). discriminate.
Qed.

(** X13.  What [extractJson] returns is never the empty string, has no
    white space at either end, and is a contiguous part of the text it was
    given: nothing is added to the reply of the provider. *)
Theorem extractJson_result (text r : string) :
  extractJson text = Some r ->
  r <> EmptyString /\
  trim r = r /\
  exists pre post, text = pre ++ r ++ post.
Proof.
  unfold extractJson.
  destruct (Regex.exec text) as [cap|] eqn:Hexec;
    [|apply extractJson_span_part].
  destruct cap as [|c cap]; cbn [truthy]; [apply extractJson_span_part|].
  intros [= <-]. apply exec_complete in Hexec.
  rewrite (FencedBlock_trimmed _ _ Hexec).
  split; [discriminate|split; [apply (FencedBlock_trimmed _ _ Hexec)|]].
  destruct Hexec as [pre lang ws1 ws2 post Htext _ _ _ _ _ _ _].
  exists (pre ++ Regex.fence ++ lang ++ ws1), (ws2 ++ Regex.fence ++ post).
  rewrite Htext, !append_assoc. reflexivity.
Qed.

End ExtractJsonMore.

Lemma extractJson_result_witness :
  jsonObject <> EmptyString /\
  trim jsonObject = jsonObject /\
  exists pre post, fencedReply = (pre ++ jsonObject ++ post)%string.
Proof.
  apply (ExtractJsonMore.extractJson_result fencedReply jsonObject).
  vm_compute. reflexivity.
Defined.

(* ===================================================================== *)
(** * Further properties of the batch generation *)
(* ===================================================================== *)

Section BatchMore.

Context {S : Type} {P : Platform S}.

Local Open Scope list_scope.

Lemma batchLoop_done cfg posts onProgress fuel i acc (w : World S) :
  (List.length posts <= i)%nat ->
  batchLoop cfg posts onProgress fuel i acc w = (inr acc, w).
Proof.
  intros Hi. apply Nat.ltb_ge in Hi.
  destruct fuel; cbn [batchLoop]; rewrite Hi; reflexivity.
Qed.

(** X11.  When every batch is answered with JSON that parses, the call
    returns what the batches gave, appended in the order of the batches,
    and leaves the world of the last batch.  The number of results is not
    compared with the number of posts. *)
Theorem batch_success
    (cfg : AnalysisAIConfig) (posts : list WordPressPost) (onProgress : bool)
    (w0 : World S) (i : nat) (acc : list BriefResult) (w : World S) :
  LoopState cfg posts onProgress w0 i acc w ->
  (List.length posts <= i)%nat ->
  generateImageBriefsAndAltsBatch posts cfg onProgress w0 = (inr acc, w).
Proof.
  intros Hstate Hi.
  destruct (LoopState_rest _ _ _ _ _ _ _ Hstate) as (fuel & _ & Heq).
  rewrite Heq. apply batchLoop_done, Hi.
Qed.

Lemma requestBatch_cases cfg batch (w : World S) :
  requestBatch cfg batch w =
  match retryableAIOperation (generateJsonText cfg (briefPrompt batch)) 3 2000 w with
  | (inl e, w') => (inl e, w')
  | (inr responseText, w') =>
      match extractJson responseText with
      | None | Some EmptyString => (inl (noJsonError cfg), w')
      | Some jsonString =>
          match JSON_parse jsonString with
          | inr batchResults => (inr batchResults, w')
          | inl e => (inl e, w')
          end
      end
  end.
Proof.
  unfold requestBatch, bind.
  destruct (retryableAIOperation _ 3 2000 w) as [[e|responseText] w'];
    [reflexivity|].
  destruct (extractJson responseText) as [[|c js]|]; cbn [truthy]; try reflexivity.
  destruct (JSON_parse (String c js)); reflexivity.
Qed.

(** X12.  The error of a failing batch, for a loop that has reached the
    batch at [i]: an error of the request is passed on as it is, unless it
    is a [SyntaxError]; a reply from which no JSON can be extracted gives
    the error that names the provider; and a [SyntaxError], from the parse
    of the extracted text or from the request, is replaced by the error
    for malformed JSON.  The world is that of the failed request: nothing
    is reported or slept after it. *)
Theorem batch_error_reported
    (cfg : AnalysisAIConfig) (posts : list WordPressPost) (onProgress : bool)
    (w0 : World S) (i : nat) (acc : list BriefResult) (w w' : World S) :
  LoopState cfg posts onProgress w0 i acc w ->
  (i < List.length posts)%nat ->
  (forall e,
      retryableAIOperation
        (generateJsonText cfg (briefPrompt (batchAt posts i))) 3 2000 w
        = (inl e, w') ->
      generateImageBriefsAndAltsBatch posts cfg onProgress w0 =
      (inl (if isSyntaxError e
            then Error ("The AI provider (" ++ TextAIProvider.value (provider cfg) ++
                        ") returned malformed JSON, even after cleanup.")%string
            else e), w')) /\
  (forall responseText,
      retryableAIOperation
        (generateJsonText cfg (briefPrompt (batchAt posts i))) 3 2000 w
        = (inr responseText, w') ->
      (extractJson responseText = None ->
       generateImageBriefsAndAltsBatch posts cfg onProgress w0 =
       (inl (Error ("The AI provider (" ++ TextAIProvider.value (provider cfg) ++
                    ") returned a response that did not contain valid JSON.")%string),
        w')) /\
      (forall jsonString m,
          extractJson responseText = Some jsonString ->
          JSON_parse jsonString = inl (SyntaxError m) ->
          generateImageBriefsAndAltsBatch posts cfg onProgress w0 =
          (inl (Error ("The AI provider (" ++ TextAIProvider.value (provider cfg) ++
                       ") returned malformed JSON, even after cleanup.")%string),
           w'))).
Proof.
  intros Hstate Hi.
  destruct (LoopState_rest _ _ _ _ _ _ _ Hstate) as (fuel & Hfuel & Heq).
  destruct fuel as [|fuel]; [lia|]. rewrite Heq.
  split; [|intros responseText Hreply; split].
  - intros e Hreq.
    rewrite (batchLoop_throw cfg posts onProgress fuel i acc w e w' Hi);
      [reflexivity|].
    rewrite requestBatch_cases, Hreq. reflexivity.
  - intros Hnone.
    rewrite (batchLoop_throw cfg posts onProgress fuel i acc w
               (noJsonError cfg) w' Hi); [reflexivity|].
    rewrite requestBatch_cases, Hreply, Hnone. reflexivity.
  - intros jsonString m Hjson Hparse.
    destruct jsonString as [|c js].
    + rewrite (batchLoop_throw cfg posts onProgress fuel i acc w
                 (noJsonError cfg) w' Hi).
      * exfalso. now apply (ExtractJsonMore.extractJson_nonempty _ _ Hjson).
      * rewrite requestBatch_cases, Hreply, Hjson. reflexivity.
    + rewrite (batchLoop_throw cfg posts onProgress fuel i acc w
                 (SyntaxError m) w' Hi); [reflexivity|].
      rewrite requestBatch_cases, Hreply, Hjson, Hparse. reflexivity.
Qed.

End BatchMore.

Section BatchPartition.

Context {S : Type} {P : Platform S}.

Local Open Scope list_scope.






End BatchPartition.

Lemma batch_success_witness :
  exists w,
    generateImageBriefsAndAltsBatch (P := samplePlatform []) twentyOnePosts
      groqConfig true
      (mkWorld (mkScript [chatReply "[1]"; chatReply "[1]"] []) []) =
    (inr (sampleBriefs ++ sampleBriefs)%list, w).
Proof.
  eexists.
  eapply (batch_success (P := samplePlatform []) groqConfig twentyOnePosts
            true _ (0 + BATCH_SIZE + BATCH_SIZE)%nat ([] ++ sampleBriefs ++ sampleBriefs)%list).
  - eapply (loop_next groqConfig twentyOnePosts true _ (0 + BATCH_SIZE)%nat
              ([] ++ sampleBriefs)%list _ sampleBriefs).
    + eapply (loop_next groqConfig twentyOnePosts true _ 0%nat [] _ sampleBriefs).
      * apply loop_start.
      * vm_compute. lia.
      * vm_compute. reflexivity.
    + vm_compute. lia.
    + vm_compute. reflexivity.
  - vm_compute. lia.
Defined.

Lemma batch_error_reported_witness :
  generateImageBriefsAndAltsBatch (P := samplePlatform []) twentyOnePosts
    groqConfig false (worldReplying "Sorry, I cannot help with that.") =
  (inl (Error "The AI provider (Groq) returned a response that did not contain valid JSON."),
   snd (retryableAIOperation
          (generateJsonText (P := samplePlatform []) groqConfig
             (briefPrompt (P := samplePlatform []) (batchAt twentyOnePosts 0)))
          3 2000 (worldReplying "Sorry, I cannot help with that."))).
Proof.
  apply (proj1 (proj2 (batch_error_reported (P := samplePlatform []) groqConfig
                         twentyOnePosts false
                         (worldReplying "Sorry, I cannot help with that.")
                         0 []
                         (worldReplying "Sorry, I cannot help with that.")
                         _
                         (loop_start groqConfig twentyOnePosts false _)
                         ltac:(vm_compute; lia))
                  "Sorry, I cannot help with that."
                  ltac:(vm_compute; reflexivity))).
  vm_compute. reflexivity.
Defined.

(* ===================================================================== *)
(** * Further properties of the placement *)
(* ===================================================================== *)

Section PlacementMore.

Import StringFacts DomFacts.

Context {S : Type} {P : Platform S}.

Local Open Scope list_scope.

(** The call of the provider, once the post has enough paragraphs. *)
Lemma placement_asks cfg postContent postTitle (w : World S) :
  let body := parseFromString postContent in
  let paragraphs := querySelectorAll_p body in
  (3 <= List.length paragraphs)%nat ->
  (2 <= List.length (paragraphsToAnalyze paragraphs))%nat ->
  getContentWithImagePlaceholder cfg postContent postTitle w =
  match retryableAIOperation
          (generateText cfg
             (placementPrompt (stripHtml postTitle) (paragraphsToAnalyze paragraphs))
             (Some 10) (Some 20000)) 2 500 w with
  | (inl _, w1) => (inr (insertPlaceholderHeuristically postContent), w1)
  | (inr responseText, w1) =>
      let target :=
        targetParagraphIndex (chosenParagraphNumber responseText)
          (List.length paragraphs) in
      (inr (innerHTML (insertAfterParagraph placeholderFragment
                         (Z.to_nat target) body)), w1)
  end.
Proof.
  cbn zeta. intros Hcount Hqual. unfold getContentWithImagePlaceholder.
  destruct (Nat.ltb_spec
              (List.length (querySelectorAll_p (parseFromString postContent))) 3);
    [lia|].
  unfold try_catch.
  destruct (Nat.ltb_spec
              (List.length (paragraphsToAnalyze
                 (querySelectorAll_p (parseFromString postContent)))) 2);
    [lia|].
  unfold bind.
  destruct (retryableAIOperation _ 2 500 w) as [[e|responseText] w1];
    [reflexivity|].
  pose proof (targetParagraphIndex_range (chosenParagraphNumber responseText)
                _ Hcount) as Hrange.
  set (target := targetParagraphIndex _ _) in *.
  destruct (Z.leb_spec 0 target); [|lia].
  destruct (Nat.ltb_spec (Z.to_nat target)
              (List.length (querySelectorAll_p (parseFromString postContent))));
    [|lia].
  reflexivity.
Qed.

(** X15.  For a post with at least three paragraphs of which at least two
    qualify: when the first integer [n] of the provider's reply is the
    number of a paragraph of the post, the fragment is inserted right after
    paragraph [n].  This holds for every paragraph of the post, also for
    one that was not shown to the provider, beyond the first five or too
    short. *)
Theorem placement_of_valid_reply
    (cfg : AnalysisAIConfig) (postContent postTitle : string)
    (w w1 : World S) (responseText : string) (n : Z) :
  let body := parseFromString postContent in
  let paragraphs := querySelectorAll_p body in
  (3 <= List.length paragraphs)%nat ->
  (2 <= List.length (paragraphsToAnalyze paragraphs))%nat ->
  retryableAIOperation
    (generateText cfg
       (placementPrompt (stripHtml postTitle) (paragraphsToAnalyze paragraphs))
       (Some 10) (Some 20000)) 2 500 w = (inr responseText, w1) ->
  chosenParagraphNumber responseText = Num n ->
  1 <= n <= Z.of_nat (List.length paragraphs) ->
  getContentWithImagePlaceholder cfg postContent postTitle w =
  (inr (innerHTML (insertAfterParagraph placeholderFragment
                     (Z.to_nat (n - 1)) body)), w1).
Proof.
  cbn zeta. intros Hcount Hqual Hreply Hn Hrange.
  rewrite (placement_asks cfg postContent postTitle w Hcount Hqual), Hreply.
  cbn zeta. rewrite Hn. unfold targetParagraphIndex.
  destruct (Z.ltb_spec n 1); [lia|].
  destruct (Z.ltb_spec
              (Z.of_nat (List.length
                 (querySelectorAll_p (parseFromString postContent)))) n); [lia|].
  reflexivity.
Qed.

(** X16.  For such a post, a request that fails for good (a validation
    error, an HTTP or network error, a time-out, or rate limits through
    both attempts) is not an error of the placement: the content is
    returned with the fragment after the second paragraph, as the
    heuristic places it. *)
Theorem placement_survives_failure
    (cfg : AnalysisAIConfig) (postContent postTitle : string)
    (w w1 : World S) (e : exn) :
  let body := parseFromString postContent in
  let paragraphs := querySelectorAll_p body in
  (3 <= List.length paragraphs)%nat ->
  (2 <= List.length (paragraphsToAnalyze paragraphs))%nat ->
  retryableAIOperation
    (generateText cfg
       (placementPrompt (stripHtml postTitle) (paragraphsToAnalyze paragraphs))
       (Some 10) (Some 20000)) 2 500 w = (inl e, w1) ->
  getContentWithImagePlaceholder cfg postContent postTitle w =
    (inr (insertPlaceholderHeuristically postContent), w1) /\
  insertPlaceholderHeuristically postContent =
    innerHTML (insertAfterParagraph placeholderFragment 1 body).
Proof.
  cbn zeta. intros Hcount Hqual Hreply. split.
  - rewrite (placement_asks cfg postContent postTitle w Hcount Hqual), Hreply.
    reflexivity.
  - rewrite insertPlaceholderHeuristically_cases.
    destruct (List.length (querySelectorAll_p (parseFromString postContent)))
      as [|[|[|k]]]; try lia. reflexivity.
Qed.

(** The shape of a content with the marker after a paragraph: right after
    the closing tag of the paragraph, between two line feeds. *)
Lemma marker_shape_after (body : list node) (k : nat) :
  (k < List.length (querySelectorAll_p body))%nat ->
  exists s0 s2 p,
    nth_error (querySelectorAll_p body) k = Some p /\
    innerHTML body = (s0 ++ serialize false p ++ s2)%string /\
    innerHTML (insertAfterParagraph placeholderFragment k body) =
      (s0 ++ serialize false p ++ (nl ++ placeholder ++ nl) ++ s2)%string.
Proof.
  intros Hk.
  destruct (nth_error (querySelectorAll_p body) k) as [p|] eqn:Hnth;
    [|apply nth_error_None in Hnth; lia].
  destruct (insertAfterParagraph_serial placeholderFragment
              (nl ++ placeholder ++ nl)%string
              serializeAll_placeholderFragment body k p Hnth)
    as (s0 & s2 & Hbody & Hnew).
  exists s0, s2, p. auto.
Qed.

(** X17.  [getContentWithImagePlaceholder] always returns.  For a content
    with a paragraph, what it returns is the content, as the parser and
    the serialiser render it, with nothing changed but the marker put in,
    right after the closing tag of one of its paragraphs, between two line
    feeds.  For a content without paragraphs it is what the parser and the
    serialiser make of the marker, a line feed and the rendered content. *)
Theorem placement_preserves_content
    (cfg : AnalysisAIConfig) (postContent postTitle : string) (w : World S) :
  let body := parseFromString postContent in
  exists content w',
    getContentWithImagePlaceholder cfg postContent postTitle w
      = (inr content, w') /\
    ((exists s0 s2 k p,
         nth_error (querySelectorAll_p body) k = Some p /\
         innerHTML body = (s0 ++ serialize false p ++ s2)%string /\
         content =
           (s0 ++ serialize false p ++
            (nl ++ "<!-- INSERT_IMAGE_HERE -->" ++ nl) ++ s2)%string) \/
     (querySelectorAll_p body = [] /\
      content =
        innerHTML (parseFragment
                     ("<!-- INSERT_IMAGE_HERE -->" ++ nl ++ innerHTML body)%string))).
Proof.
  cbn zeta.
  assert (Hheur :
    (exists s0 s2 k p,
        nth_error (querySelectorAll_p (parseFromString postContent)) k = Some p /\
        innerHTML (parseFromString postContent)
          = (s0 ++ serialize false p ++ s2)%string /\
        insertPlaceholderHeuristically postContent =
          (s0 ++ serialize false p ++ (nl ++ placeholder ++ nl) ++ s2)%string) \/
    (querySelectorAll_p (parseFromString postContent) = [] /\
     insertPlaceholderHeuristically postContent =
       innerHTML (parseFragment
                    (placeholder ++ nl ++
                     innerHTML (parseFromString postContent))%string))).
  { rewrite insertPlaceholderHeuristically_cases.
    destruct (querySelectorAll_p (parseFromString postContent)) as [|p0 ps] eqn:Hps.
    - right. split; reflexivity.
    - left.
      assert (Hk : exists k,
                (k < List.length (querySelectorAll_p (parseFromString postContent)))%nat /\
                match List.length (p0 :: ps) with
                | 0%nat =>
                    innerHTML (parseFragment
                                 (placeholder ++ nl ++
                                  innerHTML (parseFromString postContent))%string)
                | 1%nat | 2%nat =>
                    innerHTML (insertAfterParagraph placeholderFragment 0
                                 (parseFromString postContent))
                | _ => innerHTML (insertAfterParagraph placeholderFragment 1
                                    (parseFromString postContent))
                end = innerHTML (insertAfterParagraph placeholderFragment k
                                   (parseFromString postContent))).
      { rewrite Hps. destruct ps as [|p1 [|p2 ps]]; cbn [List.length].
        - exists 0%nat. split; [lia|reflexivity].
        - exists 0%nat. split; [lia|reflexivity].
        - exists 1%nat. split; [lia|reflexivity]. }
      destruct Hk as (k & Hk & ->).
      destruct (marker_shape_after _ k Hk) as (s0 & s2 & p & Hnth & Hbody & Hnew).
      rewrite Hps in Hnth. exists s0, s2, k, p. auto. }
  destruct (getContentWithImagePlaceholder_cases cfg postContent postTitle w)
    as (content & w' & Hrun & [-> | (k & Hk & ->)]).
  - exists (insertPlaceholderHeuristically postContent), w'.
    split; [exact Hrun|exact Hheur].
  - eexists _, w'. split; [exact Hrun|]. left.
    destruct (marker_shape_after _ k Hk) as (s0 & s2 & p & Hnth & Hbody & Hnew).
    exists s0, s2, k, p. auto.
Qed.

(** X18.  The placement of one post costs at most two requests to the
    provider and at most 1500 milliseconds of sleep, whatever the provider
    answers. *)
Theorem placement_bounded
    (cfg : AnalysisAIConfig) (postContent postTitle : string) (w : World S) :
  exists t,
    trace (snd (getContentWithImagePlaceholder cfg postContent postTitle w))
      = trace w ++ t /\
    (requests t <= 2)%nat /\
    0 <= slept t <= 1500.
Proof.
  assert (Hnone : exists t : list Event,
            trace w = trace w ++ t /\ (requests t <= 2)%nat /\ 0 <= slept t <= 1500).
  { exists []. rewrite app_nil_r. cbn. repeat split; lia. }
  unfold getContentWithImagePlaceholder.
  destruct (List.length (querySelectorAll_p (parseFromString postContent)) <? 3)%nat;
    [exact Hnone|].
  unfold try_catch.
  destruct (List.length (paragraphsToAnalyze
              (querySelectorAll_p (parseFromString postContent))) <? 2)%nat;
    [exact Hnone|].
  unfold bind.
  set (call := generateText cfg _ (Some 10) (Some 20000)).
  destruct (retry_loop_trace atMostOneRequest call 2 500
              (generateText_trace cfg _ (Some 10) (Some 20000))
              2%nat 0 None w) as (t & Ht & Hrt).
  destruct (RetryTrace_bounds atMostOneRequest 500 2 0 t
              atMostOneRequest_measures ltac:(lia) (Z.le_refl 0) Hrt)
    as (_ & Hreq & Hs).
  change (retry_loop call 2 500 2 0 None w)
    with (retryableAIOperation call 2 500 w) in Ht.
  exists t.
  destruct (retryableAIOperation call 2 500 w) as [[e|responseText] w1];
    cbn [snd] in Ht.
  - split; [exact Ht|]. split; [exact Hreq|]. cbn in Hs. lia.
  - split; [|split; [exact Hreq|cbn in Hs; lia]].
    destruct ((0 <=? _) && _); exact Ht.
Qed.

End PlacementMore.

(** The reply 3 for a post of three paragraphs: the fragment goes after the
    third. *)
Lemma placement_of_valid_reply_witness :
  getContentWithImagePlaceholder (P := samplePlatform sampleDocuments)
    groqConfig (innerHTML threeLongParagraphs) "Title" (worldReplying "3") =
  (inr (innerHTML (insertAfterParagraph placeholderFragment (Z.to_nat (3 - 1))
                     (parseFromString (Platform := samplePlatform sampleDocuments)
                        (innerHTML threeLongParagraphs)))),
   mkWorld (mkScript [] [])
     [EvRequest "https://api.groq.com/openai/v1/chat/completions"
        (placementPrompt EmptyString
           (paragraphsToAnalyze threeLongParagraphs))]).
Proof.
  apply (placement_of_valid_reply (P := samplePlatform sampleDocuments)
           groqConfig (innerHTML threeLongParagraphs) "Title"
           (worldReplying "3")
           (mkWorld (mkScript [] [])
              [EvRequest "https://api.groq.com/openai/v1/chat/completions"
                 (placementPrompt EmptyString
                    (paragraphsToAnalyze threeLongParagraphs))])
           "3" 3).
  - vm_compute. lia.
  - vm_compute. lia.
  - vm_compute. reflexivity.
  - vm_compute. reflexivity.
  - vm_compute. split; discriminate.
Defined.

(** The provider answers with status 500: the heuristic places the
    fragment. *)
Lemma placement_survives_failure_witness :
  getContentWithImagePlaceholder (P := samplePlatform sampleDocuments)
    groqConfig (innerHTML threeLongParagraphs) "Title"
    (mkWorld (mkScript [serverError] []) []) =
    (inr (insertPlaceholderHeuristically (P := samplePlatform sampleDocuments)
            (innerHTML threeLongParagraphs)),
     mkWorld (mkScript [] [])
       [EvRequest "https://api.groq.com/openai/v1/chat/completions"
          (placementPrompt EmptyString
             (paragraphsToAnalyze threeLongParagraphs))]) /\
  insertPlaceholderHeuristically (P := samplePlatform sampleDocuments)
    (innerHTML threeLongParagraphs) =
    innerHTML (insertAfterParagraph placeholderFragment 1
                 (parseFromString (Platform := samplePlatform sampleDocuments)
                    (innerHTML threeLongParagraphs))).
Proof.
  apply (placement_survives_failure (P := samplePlatform sampleDocuments)
           groqConfig (innerHTML threeLongParagraphs) "Title"
           (mkWorld (mkScript [serverError] []) [])
           (mkWorld (mkScript [] [])
              [EvRequest "https://api.groq.com/openai/v1/chat/completions"
                 (placementPrompt EmptyString
                    (paragraphsToAnalyze threeLongParagraphs))])
           (FetchError "API request failed with status 500" 500)).
  - vm_compute. lia.
  - vm_compute. lia.
  - vm_compute. reflexivity.
Defined.

(* ===================================================================== *)
(** * Further properties of the WordPress gateway and the crawl *)
(* ===================================================================== *)

Section CrawlMore.

Import StringFacts.

Context {S : Type} {P : Platform S}.

Local Open Scope list_scope.

Lemma crawlLoop_stop url user pass total fuel allPosts currentPage (w : World S) :
  lengthBelow allPosts total = false ->
  crawlLoop url user pass total fuel allPosts currentPage w = (inr allPosts, w).
Proof.
  intros H. destruct fuel; cbn [crawlLoop]; rewrite H; reflexivity.
Qed.

Lemma crawlLoop_page url user pass total fuel allPosts currentPage (w : World S) :
  lengthBelow allPosts total = true ->
  crawlLoop url user pass total (Datatypes.S fuel) allPosts currentPage w =
  match fetchPosts url user pass currentPage 100 w with
  | (inl e, w1) => (inl e, w1)
  | (inr [], w1) => (inr allPosts, w1)
  | (inr fetchedPosts, w1) =>
      crawlLoop url user pass total fuel (allPosts ++ fetchedPosts)
        (currentPage + 1) w1
  end.
Proof.
  intros H. cbn [crawlLoop]. rewrite H. unfold bind.
  destruct (fetchPosts url user pass currentPage 100 w) as [[e|[|p ps]] w1];
    reflexivity.
Qed.

(** At each state of the loop, the crawl is the rest of the loop, and the
    fuel left covers the posts that are still missing. *)
Lemma CrawlState_rest url user pass t (w0 : World S) allPosts currentPage w :
  CrawlState url user pass (Num t) w0 allPosts currentPage w ->
  exists fuel,
    (Z.to_nat t - List.length allPosts <= fuel)%nat /\
    crawlLoop url user pass (Num t) (Z.to_nat t) [] 1 w0 =
    crawlLoop url user pass (Num t) fuel allPosts currentPage w.
Proof.
  induction 1 as [|allPosts currentPage w fetched w1 _ (fuel & Hfuel & Heq)
                    Hbelow Hfetch Hne].
  - exists (Z.to_nat t). split; [lia|reflexivity].
  - cbn [lengthBelow] in Hbelow. apply Z.ltb_lt in Hbelow.
    destruct fuel as [|fuel]; [lia|].
    exists fuel. split.
    + rewrite length_app. destruct fetched; [congruence|]. cbn [List.length]. lia.
    + rewrite Heq, crawlLoop_page by (cbn [lengthBelow]; apply Z.ltb_lt, Hbelow).
      rewrite Hfetch. destruct fetched; [congruence|reflexivity].
Qed.

Lemma CrawlState_NaN url user pass (w0 : World S) allPosts currentPage w :
  CrawlState url user pass NaN w0 allPosts currentPage w ->
  allPosts = [] /\ w = w0.
Proof.
  induction 1 as [|allPosts currentPage w fetched w1 _ _ Hbelow _ _].
  - split; reflexivity.
  - discriminate Hbelow.
Qed.

(** X19.  How a crawl ends, for a loop that has reached a page with the
    count [total] taken from the site: when as many posts as the count are
    collected, or when the page comes back empty, the backlog is the sort
    of the posts collected, page after page; when the request for the page
    fails, the crawl fails with that error and no backlog. *)
Theorem crawl_outcome
    (url user : string) (pass : option string) (total : number)
    (w w0 : World S) (allPosts : list WordPressPost) (currentPage : Z)
    (w1 : World S) :
  getTotalPosts url user pass w = (inr total, w0) ->
  CrawlState url user pass total w0 allPosts currentPage w1 ->
  (lengthBelow allPosts total = false ->
   handleStartCrawling url user pass w =
     (inr (Backlog.sortPosts allPosts), w1)) /\
  (lengthBelow allPosts total = true ->
   forall w2,
     fetchPosts url user pass currentPage 100 w1 = (inr [], w2) ->
     handleStartCrawling url user pass w =
       (inr (Backlog.sortPosts allPosts), w2)) /\
  (lengthBelow allPosts total = true ->
   forall e w2,
     fetchPosts url user pass currentPage 100 w1 = (inl e, w2) ->
     handleStartCrawling url user pass w = (inl e, w2)).
Proof.
  intros Htotal Hstate.
  unfold handleStartCrawling, bind. rewrite Htotal.
  destruct total as [|t].
  - apply CrawlState_NaN in Hstate as [-> ->].
    split; [|split]; try discriminate.
    intros _. reflexivity.
  - destruct (CrawlState_rest _ _ _ _ _ _ _ _ Hstate) as (fuel & Hfuel & Heq).
    rewrite Heq. split; [|split].
    + intros Hstop. rewrite crawlLoop_stop by exact Hstop. reflexivity.
    + intros Hbelow w2 Hfetch.
      pose proof Hbelow as Hlt. cbn [lengthBelow] in Hlt. apply Z.ltb_lt in Hlt.
      destruct fuel as [|fuel]; [lia|].
      rewrite crawlLoop_page by exact Hbelow. rewrite Hfetch. reflexivity.
    + intros Hbelow e w2 Hfetch.
      pose proof Hbelow as Hlt. cbn [lengthBelow] in Hlt. apply Z.ltb_lt in Hlt.
      destruct fuel as [|fuel]; [lia|].
      rewrite crawlLoop_page by exact Hbelow. rewrite Hfetch. reflexivity.
Qed.

(** X20.  When the count request succeeds with an [X-WP-Total] header that
    does not hold a positive number (no digits at its start, or a number
    that is zero or negative), the crawl ends at once with an empty
    backlog and without an error: no page is requested. *)
Theorem crawl_without_count
    (url user : string) (pass : option string) (w w' : World S)
    (response : Response) (total : string) :
  truthy url = true -> truthy user = true ->
  wpFetch url "/posts?per_page=1" user pass "GET" NoBody w = (inr response, w') ->
  headers_get (headers response) "X-WP-Total" = Some total ->
  (parseInt total = NaN \/ exists t, parseInt total = Num t /\ t <= 0) ->
  handleStartCrawling url user pass w = (inr [], w') /\
  requests (trace w') = Datatypes.S (requests (trace w)).
Proof.
  intros Hurl Huser Hfetch Hhdr Htotal.
  assert (Hget : getTotalPosts url user pass w = (inr (parseInt total), w')).
  { unfold getTotalPosts. rewrite Hurl, Huser. cbn.
    unfold bind. rewrite Hfetch, Hhdr. reflexivity. }
  split.
  - unfold handleStartCrawling, bind. rewrite Hget.
    rewrite crawlLoop_stop; [reflexivity|].
    destruct Htotal as [->|(t & -> & Ht)]; [reflexivity|].
    cbn. apply Z.ltb_ge. lia.
  - rewrite wpFetch_cases in Hfetch. cbn zeta in Hfetch.
    destruct (fetch _ (ext w)) as [[e|r] s']; [discriminate|].
    destruct (ok r); [|discriminate].
    injection Hfetch as _ <-. cbn [trace].
    rewrite requests_app. cbn. lia.
Qed.

Lemma stripTrailingSlash_slash (base : string) :
  stripTrailingSlash (base ++ "/") = base.
Proof.
  induction base as [|c base IH]; [reflexivity|].
  cbn [append stripTrailingSlash]. rewrite IH.
  destruct base; reflexivity.
Qed.

Lemma stripTrailingSlash_other (base : string) (c : ascii) :
  c <> "/"%char ->
  stripTrailingSlash (base ++ String c EmptyString) = (base ++ String c EmptyString)%string.
Proof.
  intros Hc. induction base as [|x base IH].
  - cbn. destruct (Ascii.eqb_spec c "/"); [congruence|reflexivity].
  - cbn [append stripTrailingSlash]. rewrite IH.
    destruct base; reflexivity.
Qed.

(** X21.  The address that [wpFetch] calls does not depend on whether the
    site URL is given with a trailing slash: one trailing slash is dropped
    before the path of the REST API is appended, and only one. *)
Theorem wpRequest_trailing_slash
    (base endpoint username : string) (appPassword : option string)
    (method : string) (body : RequestBody) (c : ascii) :
  url (wpRequest (base ++ "/") endpoint username appPassword method body) =
    (base ++ "/wp-json/wp/v2" ++ endpoint)%string /\
  (c <> "/"%char ->
   wpRequest ((base ++ String c EmptyString) ++ "/") endpoint username
     appPassword method body =
   wpRequest (base ++ String c EmptyString) endpoint username appPassword
     method body) /\
  url (wpRequest EmptyString endpoint username appPassword method body) =
    ("/wp-json/wp/v2" ++ endpoint)%string.
Proof.
  split; [|split].
  - unfold wpRequest. cbn [url]. rewrite stripTrailingSlash_slash. reflexivity.
  - intros Hc. unfold wpRequest.
    rewrite stripTrailingSlash_slash, (stripTrailingSlash_other base c Hc).
    reflexivity.
  - reflexivity.
Qed.




End CrawlMore.

Lemma crawl_outcome_witness :
  fst (handleStartCrawling (P := samplePlatform []) "https://blog.example"
         "admin" (Some "app pass") siteOfThree) =
  inr [samplePost 2 0 0; samplePost 3 0 0; samplePost 1 7 0; samplePost 4 9 0].
Proof.
  set (w0 := snd (getTotalPosts (P := samplePlatform []) "https://blog.example"
                    "admin" (Some "app pass") siteOfThree)).
  set (w1 := snd (fetchPosts (P := samplePlatform []) "https://blog.example"
                    "admin" (Some "app pass") 1 100 w0)).
  set (w2 := snd (fetchPosts (P := samplePlatform []) "https://blog.example"
                    "admin" (Some "app pass") (1 + 1) 100 w1)).
  assert (Hstate : CrawlState (P := samplePlatform []) "https://blog.example"
                     "admin" (Some "app pass") (Num 3) w0
                     (([] ++ [samplePost 1 7 0; samplePost 2 0 0]) ++
                      [samplePost 3 0 0; samplePost 4 9 0])%list
                     (1 + 1 + 1) w2).
  { apply crawl_page with (w := w1).
    - apply crawl_page with (w := w0).
      + apply crawl_start.
      + reflexivity.
      + vm_compute. reflexivity.
      + discriminate.
    - reflexivity.
    - vm_compute. reflexivity.
    - discriminate. }
  rewrite (proj1 (crawl_outcome (P := samplePlatform []) "https://blog.example"
                    "admin" (Some "app pass") (Num 3) siteOfThree w0 _ _ w2
                    ltac:(vm_compute; reflexivity) Hstate)
             ltac:(reflexivity)).
  reflexivity.
Defined.

Lemma crawl_without_count_witness :
  handleStartCrawling (P := samplePlatform []) "https://blog.example/" "admin"
    (Some "app pass") (mkWorld (mkScript [replyWithTotal "many"] []) []) =
    (inr [],
     mkWorld (mkScript [] [])
       [EvRequest "https://blog.example/wp-json/wp/v2/posts?per_page=1"
          EmptyString]) /\
  requests [EvRequest "https://blog.example/wp-json/wp/v2/posts?per_page=1"
              EmptyString] = 1%nat.
Proof.
  apply (crawl_without_count (P := samplePlatform []) "https://blog.example/"
           "admin" (Some "app pass")
           (mkWorld (mkScript [replyWithTotal "many"] []) [])
           (mkWorld (mkScript [] [])
              [EvRequest "https://blog.example/wp-json/wp/v2/posts?per_page=1"
                 EmptyString])
           (mkResponse true 200 "OK" [("x-wp-total", "many")] (inr (JPosts [])))
           "many").
  - reflexivity.
  - reflexivity.
  - reflexivity.
  - reflexivity.
  - left. reflexivity.
Defined.


(* ===================================================================== *)
(** * Properties of the upload title *)
(* ===================================================================== *)

Module UploadFacts.

Import Upload.

Local Open Scope string_scope.

Lemma split_nonempty sep s : split sep s <> [].
Proof.
  destruct s as [|c s]; cbn; [discriminate|].
  destruct (Ascii.eqb c sep); [discriminate|].
  destruct (split sep s); discriminate.
Qed.

Lemma split_without sep s : noChar sep s = true -> split sep s = [s].
Proof.
  induction s as [|c s IH]; cbn; [reflexivity|].
  destruct (Ascii.eqb c sep); cbn; [discriminate|].
  intros H. rewrite (IH H). reflexivity.
Qed.

Lemma split_last sep ext :
  noChar sep ext = true ->
  forall name,
    split sep (name ++ String sep ext) = (split sep name ++ [ext])%list.
Proof.
  intros Hext. induction name as [|c name IH]; cbn [append split].
  - rewrite Ascii.eqb_refl, (split_without _ _ Hext). reflexivity.
  - rewrite IH. destruct (Ascii.eqb c sep); [reflexivity|].
    destruct (split sep name) as [|p ps] eqn:Hs;
      [now apply split_nonempty in Hs|reflexivity].
Qed.

Lemma join_split (sep : ascii) (by_ : string) (s : string) :
  join by_ (split sep s) = replaceChar sep by_ s.
Proof.
  unfold join. induction s as [|c s IH]; [reflexivity|].
  cbn [split replaceChar].
  destruct (Ascii.eqb c sep).
  - rewrite <- IH.
    destruct (split sep s) as [|p ps] eqn:Hs;
      [now apply split_nonempty in Hs|reflexivity].
  - rewrite <- IH.
    destruct (split sep s) as [|p ps] eqn:Hs;
      [now apply split_nonempty in Hs|].
    destruct ps; reflexivity.
Qed.

(** X23.  The title of an uploaded image is the file name up to its last
    dot, with every other dot turned into a space; a file name without a
    dot gives the empty title. *)
Theorem mediaTitle_of_file_name (name ext : string) :
  noChar "." ext = true ->
  mediaTitle (name ++ "." ++ ext) = replaceChar "." " " name /\
  mediaTitle ext = EmptyString.
Proof.
  intros Hext. unfold mediaTitle. split.
  - cbn [append]. rewrite (split_last _ _ Hext), removelast_last.
    apply join_split.
  - rewrite (split_without _ _ Hext). reflexivity.
Qed.

End UploadFacts.

Lemma mediaTitle_of_file_name_witness :
  Upload.mediaTitle ("sunset.over.the-sea" ++ "." ++ "webp") =
    replaceChar "." " " "sunset.over.the-sea" /\
  Upload.mediaTitle "webp" = EmptyString.
Proof.
  apply (UploadFacts.mediaTitle_of_file_name "sunset.over.the-sea" "webp").
  reflexivity.
Defined.

(* ===================================================================== *)
(** * Properties of the image functions *)
(* ===================================================================== *)

Module DataUrlFacts.

Import StringFacts ExtractJsonFacts.

Local Open Scope string_scope.

Lemma noChar_app c (a b : string) :
  noChar c (a ++ b) = noChar c a && noChar c b.
Proof.
  induction a as [|x a IH]; cbn; [reflexivity|].
  rewrite IH. apply andb_assoc.
Qed.

(** The index of the first occurrence of a code unit. *)
Lemma indexOf_from_first (c : ascii) (b : string) :
  forall (a : string) (i : Z),
    noChar c a = true ->
    indexOf_from (String c EmptyString) (a ++ String c b) i
      = i + Z.of_nat (String.length a).
Proof.
  induction a as [|x a IH]; intros i Ha.
  - cbn [append indexOf_from]. rewrite startsWith_char, Ascii.eqb_refl.
    cbn. lia.
  - cbn [noChar] in Ha. apply andb_true_iff in Ha as [Hx Ha].
    cbn [append indexOf_from]. rewrite startsWith_char.
    rewrite Ascii.eqb_sym. apply negb_true_iff in Hx. rewrite Hx.
    rewrite (IH (i + 1) Ha). cbn [String.length]. lia.
Qed.

Lemma indexOf_first (c : ascii) (a b : string) :
  noChar c a = true ->
  indexOf (a ++ String c b) (String c EmptyString) = Z.of_nat (String.length a).
Proof.
  intros Ha. unfold indexOf. rewrite indexOf_from_first by exact Ha. lia.
Qed.

Lemma take_all (s : string) : take (String.length s) s = s.
Proof. induction s as [|c s IH]; cbn; [reflexivity|now rewrite IH]. Qed.

(** X24.  The two cuts that [analyzeImageWithVision] makes in a data URL
    give back what the URL was made of: for [data:], a MIME type without
    semicolon or comma, [;base64,] and a payload, the MIME type and the
    payload. *)
Theorem dataUrl_parts (mime payload : string) :
  noChar ";" mime = true ->
  noChar "," mime = true ->
  dataUrlMimeType ("data:" ++ mime ++ ";base64," ++ payload) = mime /\
  dataUrlData ("data:" ++ mime ++ ";base64," ++ payload) = payload.
Proof.
  intros Hsemi Hcomma.
  set (s := "data:" ++ mime ++ ";base64," ++ payload).
  assert (Hcolon : indexOf s ":" = 4).
  { apply (indexOf_first ":" "data" (mime ++ ";base64," ++ payload)).
    reflexivity. }
  assert (Hs1 : s = ("data:" ++ mime) ++ String ";" ("base64," ++ payload)).
  { unfold s. rewrite ?append_assoc. reflexivity. }
  assert (Hsemicolon : indexOf s ";" = Z.of_nat (5 + String.length mime)).
  { rewrite Hs1, indexOf_first; [rewrite length_append; reflexivity|].
    rewrite noChar_app. exact Hsemi. }
  assert (Hs2 : s = ("data:" ++ mime ++ ";base64") ++ String "," payload).
  { unfold s. rewrite ?append_assoc. reflexivity. }
  assert (Hcomma' : indexOf s "," = Z.of_nat (5 + String.length mime + 7)).
  { rewrite Hs2, indexOf_first.
    - rewrite !length_append. cbn [String.length]. f_equal; lia.
    - rewrite !noChar_app, Hcomma. reflexivity. }
  assert (Hlen : String.length s = (5 + String.length mime + 8 + String.length payload)%nat).
  { unfold s. rewrite !length_append. cbn [String.length]. lia. }
  split.
  - unfold dataUrlMimeType. rewrite Hcolon, Hsemicolon.
    change (4 + 1) with (Z.of_nat 5).
    rewrite substring_take_drop by lia.
    replace (5 + String.length mime - 5)%nat with (String.length mime) by lia.
    unfold s. cbn [append drop]. apply take_append.
  - unfold dataUrlData. rewrite Hcomma'.
    replace (Z.of_nat (5 + String.length mime + 7) + 1)
      with (Z.of_nat (5 + String.length mime + 8)) by lia.
    rewrite substring_take_drop by lia.
    rewrite Hlen.
    replace (5 + String.length mime + 8 + String.length payload
             - (5 + String.length mime + 8))%nat
      with (String.length payload) by lia.
    replace (drop (5 + String.length mime + 8) s) with payload.
    + apply take_all.
    + replace s with (("data:" ++ mime ++ ";base64,") ++ payload)
        by (unfold s; rewrite ?append_assoc; reflexivity).
      replace (5 + String.length mime + 8)%nat
        with (String.length ("data:" ++ mime ++ ";base64,"))
        by (rewrite !length_append; cbn [String.length]; lia).
      symmetry. apply drop_append.
Qed.

End DataUrlFacts.

Section ImageFacts.

Context {S : Type} {P : Platform S} {IP : ImagePlatform S}.

Local Open Scope list_scope.

Lemma generateImagesCall_trace prompt ratio (w : World S) :
  trace (snd (generateImagesCall prompt ratio w)) =
  trace w ++ [EvRequest "imagen-4.0-generate-001" prompt].
Proof.
  unfold generateImagesCall, bind, emit, external. cbn.
  destruct (generateImages _ _ _ (ext w)) as [r s1]. reflexivity.
Qed.

(** X26.  With the Gemini provider and a key in the environment, when the
    model answers, through the retry loop, with a list of images,
    [generateImage] returns the first image of that list as a data URL
    that starts with [data:image/png;base64,], whatever format was asked
    for; an empty list makes it fail on the missing first image.  Of the
    settings only the aspect ratio is used: the format, the quality, the
    style and the negative prompt change nothing.  Between one and three
    requests were made and at most 14000 milliseconds slept. *)
Theorem generateImage_gemini
    (prompt : string) (settings : ImageSettings) (w w' : World S)
    (generatedImages : list string) :
  present env_API_KEY = true ->
  retryableAIOperation
    (generateImagesCall prompt (aspectRatio settings)) 3 2000 w
    = (inr generatedImages, w') ->
  generateImage AIProvider.Gemini prompt settings w =
    match generatedImages with
    | first :: _ => (inr ("data:image/png;base64," ++ first)%string, w')
    | [] =>
        (inl (TypeError "Cannot read properties of undefined (reading 'image')"),
         w')
    end /\
  (forall settings',
      aspectRatio settings' = aspectRatio settings ->
      generateImage AIProvider.Gemini prompt settings' w =
      generateImage AIProvider.Gemini prompt settings w) /\
  exists t,
    trace w' = trace w ++ t /\
    (1 <= requests t <= 3)%nat /\
    0 <= slept t <= 14000.
Proof.
  intros Hkey Hrun. split; [|split].
  - unfold generateImage, bind, getGeminiClient.
    unfold present in Hkey. destruct env_API_KEY as [k|]; [|discriminate].
    rewrite Hkey. unfold ret at 1. rewrite Hrun.
    destruct generatedImages; reflexivity.
  - intros settings' Hratio. unfold generateImage. rewrite Hratio. reflexivity.
  - set (call := generateImagesCall prompt (aspectRatio settings)) in *.
    destruct (retry_loop_trace
                (fun c => c = [EvRequest "imagen-4.0-generate-001" prompt])
                call 3 2000) with (n := 3%nat) (i := 0) (last := @None exn) (w := w)
      as (t & Ht & Hrt).
    { intros w2. eexists. split; [apply generateImagesCall_trace|reflexivity]. }
    assert (Hone : forall c, c = [EvRequest "imagen-4.0-generate-001" prompt] ->
              slept c = 0 /\ (attempts c <= 1)%nat /\ (requests c <= 1)%nat).
    { intros c ->. cbn. repeat split; lia. }
    destruct (RetryTrace_bounds _ 2000 3 0 t Hone ltac:(lia) (Z.le_refl 0) Hrt)
      as (_ & Hreq & Hs).
    assert (Hfirst : (1 <= requests t)%nat).
    { inversion Hrt as [|n i c Hc|n i c t' Hc Hrest]; subst.
      - cbn. lia.
      - rewrite requests_app. cbn. lia. }
    change (retry_loop call 3 2000 3 0 None w)
      with (retryableAIOperation call 3 2000 w) in Ht.
    rewrite Hrun in Ht. cbn [snd] in Ht. exists t.
    split; [exact Ht|]. split; [lia|]. cbn in Hs. lia.
Qed.

(** X27.  The Pollinations provider needs no key and is not retried: when
    the image request is answered with an HTTP error, whatever the status,
    [generateImage] fails after that one request, with an error that
    quotes the address, the encoded prompt included. *)
Theorem pollinations_failure
    (prompt : string) (settings : ImageSettings) (w : World S)
    (response : Response) (s1 : S) :
  let imageUrl := ("https://pollinations.ai/p/" ++ encodeURIComponent prompt)%string in
  fetch (imageRequest imageUrl) (ext w) = (inr response, s1) ->
  ok response = false ->
  generateImage AIProvider.Pollinations prompt settings w =
    (inl (Error ("Failed to fetch image from URL: " ++ imageUrl)%string),
     mkWorld s1 (trace w ++ [EvRequest imageUrl EmptyString])).
Proof.
  cbn zeta. intros Hf Hok.
  unfold generateImage, fetchImageAsBase64, bind.
  rewrite (fetchWithTimeout_ok _ _ _ _ Hf), Hok. reflexivity.
Qed.

(** X28.  The vision analysis checks the Gemini key before anything else:
    without a key in the environment it fails at once and the image is not
    fetched.  With a key, an image request that is answered with an HTTP
    error ends the analysis after that one request, and the model is not
    called. *)
Theorem analyzeImageWithVision_failures (imageUrl : string) (w : World S) :
  (present env_API_KEY = false ->
   analyzeImageWithVision imageUrl w =
     (inl (Error "Google Gemini API Key is not configured in the environment."), w)) /\
  (forall response s1,
      present env_API_KEY = true ->
      fetch (imageRequest imageUrl) (ext w) = (inr response, s1) ->
      ok response = false ->
      analyzeImageWithVision imageUrl w =
        (inl (Error ("Failed to fetch image from URL: " ++ imageUrl)%string),
         mkWorld s1 (trace w ++ [EvRequest imageUrl EmptyString]))).
Proof.
  split.
  - intros Hkey. unfold analyzeImageWithVision, bind, getGeminiClient.
    unfold present in Hkey. destruct env_API_KEY as [k|]; [|reflexivity].
    rewrite Hkey. reflexivity.
  - intros response s1 Hkey Hf Hok.
    unfold analyzeImageWithVision, bind, getGeminiClient.
    unfold present in Hkey. destruct env_API_KEY as [k|]; [|discriminate].
    rewrite Hkey. unfold ret. unfold fetchImageAsBase64, bind.
    rewrite (fetchWithTimeout_ok _ _ _ _ Hf), Hok. reflexivity.
Qed.

End ImageFacts.

Lemma dataUrl_parts_witness :
  dataUrlMimeType ("data:" ++ "image/webp" ++ ";base64," ++ "UklGRg==") = "image/webp" /\
  dataUrlData ("data:" ++ "image/webp" ++ ";base64," ++ "UklGRg==") = "UklGRg==".
Proof.
  apply (DataUrlFacts.dataUrl_parts "image/webp" "UklGRg=="); reflexivity.
Defined.

(** The model answers with two images: the first is returned. *)
Lemma generateImage_gemini_witness :
  generateImage (P := samplePlatform []) (IP := sampleImagePlatform)
    AIProvider.Gemini "a lighthouse" webpSettings (mkWorld (mkScript [] []) []) =
    (inr "data:image/png;base64,Zmlyc3Q=",
     mkWorld (mkScript [] [])
       [EvRequest "imagen-4.0-generate-001" "a lighthouse"]) /\
  (forall settings',
      aspectRatio settings' = aspectRatio webpSettings ->
      generateImage (P := samplePlatform []) (IP := sampleImagePlatform)
        AIProvider.Gemini "a lighthouse" settings' (mkWorld (mkScript [] []) []) =
      generateImage (P := samplePlatform []) (IP := sampleImagePlatform)
        AIProvider.Gemini "a lighthouse" webpSettings
        (mkWorld (mkScript [] []) [])) /\
  exists t,
    [EvRequest "imagen-4.0-generate-001" "a lighthouse"] = ([] ++ t)%list /\
    (1 <= requests t <= 3)%nat /\
    0 <= slept t <= 14000.
Proof.
  apply (generateImage_gemini (P := samplePlatform [])
           (IP := sampleImagePlatform) "a lighthouse" webpSettings
           (mkWorld (mkScript [] []) [])
           (mkWorld (mkScript [] [])
              [EvRequest "imagen-4.0-generate-001" "a lighthouse"])
           ["Zmlyc3Q="; "c2Vjb25k"]).
  - reflexivity.
  - reflexivity.
Defined.

Lemma pollinations_failure_witness :
  generateImage (P := samplePlatform []) (IP := sampleImagePlatform)
    AIProvider.Pollinations "a lighthouse" webpSettings
    (mkWorld (mkScript [errorReply 429; chatReply "OK"] []) []) =
  (inl (Error "Failed to fetch image from URL: https://pollinations.ai/p/a%20lighthouse"),
   mkWorld (mkScript [chatReply "OK"] [])
     [EvRequest "https://pollinations.ai/p/a%20lighthouse" EmptyString]).
Proof.
  apply (pollinations_failure (P := samplePlatform [])
           (IP := sampleImagePlatform) "a lighthouse" webpSettings
           (mkWorld (mkScript [errorReply 429; chatReply "OK"] []) [])
           (mkResponse false 429 "Error" [] (inr JOther))
           (mkScript [chatReply "OK"] [])).
  - reflexivity.
  - reflexivity.
Defined.

(* ===================================================================== *)
(** * The configuration form and the services it configures *)
(* ===================================================================== *)

Section FormFacts.

Import ConfigurationStep.

Context {S : Type} {P : Platform S}.

Local Open Scope list_scope.


End FormFacts.


Section FormImageFacts.

Import ConfigurationStep.

Context {S : Type} {P : Platform S} {IP : ImagePlatform S}.

(** X25.  The form does not check the image provider.  When it accepts a
    configuration with DALL-E 3, Stability or OpenRouter selected, every
    image generation with that configuration fails with the error that
    the provider is not implemented, without any other effect. *)
Theorem unsupported_provider_accepted
    (f : FormState) (cfg : Configuration) (prompt : string) (w : World S) :
  handleSubmit f = inr cfg ->
  In (aiProvider f)
     [AIProvider.DallE3; AIProvider.Stability; AIProvider.OpenRouter] ->
  ai_provider cfg = aiProvider f /\
  generateImage (ai_provider cfg) prompt (image cfg) w =
    (inl (Error (AIProvider.value (aiProvider f) ++
                 " is not implemented in this version.")%string), w).
Proof.
  unfold handleSubmit. cbn [wpUrl wpUser wpPass analysisProvider analysisApiKey].
  destruct (negb _ || negb _ || negb _); [discriminate|].
  destruct (negb _ && negb _); [discriminate|].
  intros [= <-] Hin. cbn [ai_provider image].
  split; [reflexivity|].
  destruct (aiProvider f); cbn in Hin;
    try reflexivity; exfalso;
    repeat (destruct Hin as [Hin|Hin]; [discriminate|]); exact Hin.
Qed.

End FormImageFacts.

Lemma unsupported_provider_accepted_witness :
  AIProvider.DallE3 = AIProvider.DallE3 /\
  generateImage (P := samplePlatform []) (IP := sampleImagePlatform)
    AIProvider.DallE3 "a lighthouse" webpSettings (mkWorld (mkScript [] []) []) =
    (inl (Error "OpenAI DALL-E 3 is not implemented in this version."),
     mkWorld (mkScript [] []) []).
Proof.
  apply (unsupported_provider_accepted (P := samplePlatform [])
           (IP := sampleImagePlatform) dalleForm
           (mkConfiguration
              (mkWordPressCredentials "https://blog.example/" "admin"
                 (Some "app pass"))
              AIProvider.DallE3
              (mkAnalysisAIConfig TextAIProvider.Gemini (Some EmptyString)
                 (Some "llama3-8b-8192"))
              webpSettings)
           "a lighthouse" (mkWorld (mkScript [] []) [])).
  - reflexivity.
  - left. reflexivity.
Defined.
